(** * Schema compressor: JSON Schema -> compact hint string, with token metrics

    A shallow embedding of the schema compressor (jsonSchemaToXml,
    getCompactType, mergeAllOfProperties, escapeXml, estimateTokens,
    compressSchemaWithMetrics, compressToolSchemas) and of the fragment of
    the JavaScript runtime those functions rely on.

    The repository holds three snapshots of the compressor:
    - [Early]   (unnamed/part_003): no escaping, no array branch at the
                  root, [ceil(length/4)] estimator, unclamped reduction;
    - [Clamped] (unnamed/part_004; unnamed/part_005 is its encoder alone):
                  escaping of keys and enum values, arrays at the root, the
                  word/punctuation estimator and the clamped reduction;
    - [Rich]    (unnamed/part_002): the richest encoder (tuples, const,
                  allOf, constraints, defaults, constraint-preserving
                  unions); it holds no metrics wrapper.
    Statements on the encoder are about [Rich], and about [Clamped] where
    the two share the code; statements on the metrics are about [Clamped]. *)

From Stdlib Require Import List ZArith NArith QArith Qround Qminmax Qpower.
From Stdlib Require Import Bool Lia.
From Stdlib Require Import Ascii String DecimalString Permutation.
Import ListNotations.

Set Implicit Arguments.
Set Warnings "-register-all".
Set Warnings "-automation".


(** ** JavaScript values *)

Module JS.

(** A string is its sequence of UTF-16 code units, so that [length] is the
    JavaScript [length]. *)
Definition jstring := list N.

Definition lit (s : string) : jstring :=
  List.map N_of_ascii (list_ascii_of_string s).

Definition jstring_eqb (a b : jstring) : bool :=
  if list_eq_dec N.eq_dec a b then true else false.

(** The data the compressor is handed: JSON documents, plus [Undefined] for a
    missing value.  Numbers are the integers (those a double holds exactly and
    prints in plain decimal); an object is a plain object, given as the list
    of its own properties in the order the engine enumerates them (array
    indices in ascending order, then the other keys in the order they were
    written), keys pairwise distinct.  A key [__proto__] is an own property
    like any other, as [JSON.parse] creates it. *)
Inductive value : Type :=
| Undefined
| Null
| Bool (b : bool)
| Num (z : Z)
| Str (s : jstring)
| Arr (elems : list value)
| Obj (props : list (jstring * value)).

(** Outcomes.  [TypeError] is the exception the engine throws; [Unmodelled]
    marks the one coercion left out of the model (a string or an array
    converted to a number); [OutOfFuel] is the recursion bound of the model. *)
Inductive failure : Type := TypeError | Unmodelled | OutOfFuel.

Inductive result (A : Type) : Type :=
| Ok (a : A)
| Fail (f : failure).
Arguments Fail {A} f.

Definition bind {A B} (m : result A) (k : A -> result B) : result B :=
  match m with
  | Ok a => k a
  | Fail f => Fail f
  end.

Declare Scope js_scope.
Delimit Scope js_scope with js.
Notation "x <- m ;; k" := (bind m (fun x => k))
  (at level 61, m at next level, right associativity) : js_scope.
Open Scope js_scope.

(** [xs.map(f)] when [f] may throw: elements are visited left to right. *)
Fixpoint mapM {A B} (f : A -> result B) (l : list A) : result (list B) :=
  match l with
  | [] => Ok []
  | x :: r => y <- f x ;; ys <- mapM f r ;; Ok (y :: ys)
  end.

(** *** Truthiness, typeof, identity tests *)

Definition truthy (v : value) : bool :=
  match v with
  | Undefined | Null => false
  | Bool b => b
  | Num z => negb (z =? 0)%Z
  | Str s => match s with [] => false | _ => true end
  | Arr _ | Obj _ => true
  end.

(** [typeof v === "object"] *)
Definition typeof_object (v : value) : bool :=
  match v with
  | Null | Arr _ | Obj _ => true
  | _ => false
  end.

Definition Array_isArray (v : value) : bool :=
  match v with Arr _ => true | _ => false end.

(** [v === "s"] for a string literal *)
Definition is_str (v : value) (s : jstring) : bool :=
  match v with Str s' => jstring_eqb s' s | _ => false end.

(** [v !== undefined] *)
Definition defined (v : value) : bool :=
  match v with Undefined => false | _ => true end.

(** [a || b] *)
Definition or_else (a b : value) : value := if truthy a then a else b.

(** *** Decimal numerals *)

Definition dec_of_N (n : N) : jstring :=
  lit (NilZero.string_of_uint (N.to_uint n)).

Definition dec_of_Z (z : Z) : jstring :=
  lit (NilZero.string_of_int (Z.to_int z)).

Definition is_digit (c : N) : bool := ((48 <=? c) && (c <=? 57))%N.

Fixpoint digits_value (acc : N) (s : jstring) : N :=
  match s with
  | [] => acc
  | c :: r => digits_value (10 * acc + (c - 48))%N r
  end.

(** An array index: the canonical numeral of an integer below 2^32 - 1. *)
Definition array_index (k : jstring) : option N :=
  if forallb is_digit k && negb (jstring_eqb k []) then
    let n := digits_value 0 k in
    if jstring_eqb (dec_of_N n) k && (n <? 4294967295)%N then Some n else None
  else None.

(** *** Objects *)

Section Props.
Variable V : Type.

Fixpoint has_key (k : jstring) (ps : list (jstring * V)) : bool :=
  match ps with
  | [] => false
  | (k', _) :: r => jstring_eqb k' k || has_key k r
  end.

Fixpoint replace_key (k : jstring) (v : V) (ps : list (jstring * V))
  : list (jstring * V) :=
  match ps with
  | [] => []
  | (k', v') :: r =>
      if jstring_eqb k' k then (k', v) :: r else (k', v') :: replace_key k v r
  end.

(** A new index key goes among the index keys, in ascending order. *)
Fixpoint insert_index (i : N) (k : jstring) (v : V) (ps : list (jstring * V))
  : list (jstring * V) :=
  match ps with
  | [] => [(k, v)]
  | (k', v') :: r =>
      match array_index k' with
      | Some j => if (j <? i)%N then (k', v') :: insert_index i k v r
                  else (k, v) :: ps
      | None => (k, v) :: ps
      end
  end.

(** [o[k] = v]: an existing key keeps its place, a new index key is sorted
    in, any other new key goes last. *)
Definition obj_set (ps : list (jstring * V)) (k : jstring) (v : V)
  : list (jstring * V) :=
  if has_key k ps then replace_key k v ps
  else match array_index k with
       | Some i => insert_index i k v ps
       | None => ps ++ [(k, v)]
       end.

Fixpoint find_key (k : jstring) (ps : list (jstring * V)) : option V :=
  match ps with
  | [] => None
  | (k', v) :: r => if jstring_eqb k' k then Some v else find_key k r
  end.
End Props.

Definition lookup (k : jstring) (ps : list (jstring * value)) : value :=
  match find_key k ps with Some v => v | None => Undefined end.

Fixpoint indexed {A} (i : N) (l : list A) : list (jstring * A) :=
  match l with
  | [] => []
  | x :: r => (dec_of_N i, x) :: indexed (N.succ i) r
  end.

Definition Z_length {A} (l : list A) : Z := Z.of_nat (List.length l).

(** [v.name] for a data field.  The names read by the compressor are none of
    those the built-in prototypes define, apart from [length]; methods are
    modelled by the functions below. *)
Definition get (v : value) (name : jstring) : result value :=
  match v with
  | Undefined | Null => Fail TypeError
  | Obj ps => Ok (lookup name ps)
  | Arr l =>
      if jstring_eqb name (lit "length") then Ok (Num (Z_length l))
      else Ok (lookup name (indexed 0 l))
  | Str s =>
      if jstring_eqb name (lit "length") then Ok (Num (Z_length s))
      else Ok (lookup name (indexed 0 (List.map (fun c => Str [c]) s)))
  | Bool _ | Num _ => Ok Undefined
  end.

(** [Object.entries(v)]; [Object.keys(v)] is its first projection. *)
Definition Object_entries (v : value) : result (list (jstring * value)) :=
  match v with
  | Undefined | Null => Fail TypeError
  | Obj ps => Ok ps
  | Arr l => Ok (indexed 0 l)
  | Str s => Ok (indexed 0 (List.map (fun c => Str [c]) s))
  | Bool _ | Num _ => Ok []
  end.

Definition Object_keys_length (v : value) : result Z :=
  es <- Object_entries v ;; Ok (Z_length es).

(** *** Assignment to an object under construction *)

(** The prototype of an object the compressor builds: [Object.prototype]
    when it is created by [{}], and what a write to [__proto__] has made
    of it since: null, or a value of the schema. *)
Inductive prototype : Type :=
| Object_prototype
| Null_prototype
| Value_prototype (v : value).

(** An ordinary object: its own properties in enumeration order, and its
    prototype. *)
Record object : Type := {
  own : list (jstring * value);
  proto : prototype
}.

(** [{}] *)
Definition fresh_object : object :=
  {| own := []; proto := Object_prototype |}.

Definition proto_key : jstring := lit "__proto__".

(** Whether a write to [__proto__] meets the accessor of
    [Object.prototype] on the prototype chain.  A value of the schema
    inherits from [Object.prototype], an array through [Array.prototype];
    an own property [__proto__] of the value, such as [JSON.parse] creates,
    comes first on the chain and is a data property. *)
Definition inherits_setter (p : prototype) : bool :=
  match p with
  | Object_prototype => true
  | Null_prototype => false
  | Value_prototype (Obj ps) => negb (has_key proto_key ps)
  | Value_prototype _ => true
  end.

(** The setter of [__proto__]: an object or null becomes the prototype, any
    other value is ignored. *)
Definition set_prototype (o : object) (v : value) : object :=
  match v with
  | Null => {| own := own o; proto := Null_prototype |}
  | Arr _ | Obj _ => {| own := own o; proto := Value_prototype v |}
  | _ => o
  end.

(** [o[k] = v], the [[Set]] of an ordinary object.  An own property is
    written; failing that, a write to [__proto__] that meets the inherited
    accessor runs the setter and defines nothing; any other write defines
    an own property (every other property met on the chain is a writable
    data property). *)
Definition Set_property (o : object) (k : jstring) (v : value) : object :=
  if negb (has_key k (own o)) && jstring_eqb k proto_key
     && inherits_setter (proto o)
  then set_prototype o v
  else {| own := obj_set (own o) k v; proto := proto o |}.

(** [Object.assign(target, source)]: the own enumerable properties of the
    source are written to the target, in order. *)
Definition Object_assign (target : object) (source : value) : result object :=
  es <- Object_entries source ;;
  Ok (fold_left (fun o kv => Set_property o (fst kv) (snd kv)) es target).

(** *** Conversion to string *)

Fixpoint join (sep : jstring) (l : list jstring) : jstring :=
  match l with
  | [] => []
  | [x] => x
  | x :: r => x ++ sep ++ join sep r
  end.

(** [ToString(v)], as a template literal applies it. *)
Fixpoint ToString (v : value) : result jstring :=
  match v with
  | Undefined => Ok (lit "undefined")
  | Null => Ok (lit "null")
  | Bool true => Ok (lit "true")
  | Bool false => Ok (lit "false")
  | Num z => Ok (dec_of_Z z)
  | Str s => Ok s
  | Arr l =>
      parts <- (fix elems (l : list value) : result (list jstring) :=
                  match l with
                  | [] => Ok []
                  | x :: r =>
                      s <- match x with
                           | Undefined | Null => Ok []
                           | _ => ToString x
                           end ;;
                      ss <- elems r ;;
                      Ok (s :: ss)
                  end) l ;;
      Ok (join (lit ",") parts)
  | Obj ps =>
      if has_key (lit "toString") ps then Fail TypeError
      else Ok (lit "[object Object]")
  end.

(** [v.toString()] *)
Definition toString (v : value) : result jstring :=
  match v with
  | Undefined | Null => Fail TypeError
  | _ => ToString v
  end.

(** [arr.join(sep)] *)
Definition Array_join (sep : jstring) (l : list value) : result jstring :=
  parts <- mapM (fun x => match x with
                          | Undefined | Null => Ok []
                          | _ => ToString x
                          end) l ;;
  Ok (join sep parts).

(** *** Conversion to number and comparison *)

(** [ToNumber(v)]; [None] is NaN. *)
Definition ToNumber (v : value) : result (option Z) :=
  match v with
  | Undefined => Ok None
  | Null => Ok (Some 0%Z)
  | Bool b => Ok (Some (if b then 1 else 0)%Z)
  | Num z => Ok (Some z)
  | Str _ | Arr _ => Fail Unmodelled
  | Obj ps => if has_key (lit "toString") ps then Fail TypeError else Ok None
  end.

(** [v <= n] and [v > n] for a number literal [n] *)
Definition le_num (v : value) (n : Z) : result bool :=
  x <- ToNumber v ;;
  Ok (match x with Some z => (z <=? n)%Z | None => false end).

Definition gt_num (v : value) (n : Z) : result bool :=
  x <- ToNumber v ;;
  Ok (match x with Some z => (n <? z)%Z | None => false end).

(** *** String methods *)

Fixpoint prefix_of (p s : jstring) : bool :=
  match p, s with
  | [], _ => true
  | _ :: _, [] => false
  | a :: p', b :: s' => (a =? b)%N && prefix_of p' s'
  end.

Fixpoint substring_of (p s : jstring) : bool :=
  prefix_of p s || match s with [] => false | _ :: s' => substring_of p s' end.

(** [required.includes(key)] for a string [key] *)
Definition includes (required : value) (key : jstring) : result bool :=
  match required with
  | Arr l => Ok (existsb (fun e => is_str e key) l)
  | Str s => Ok (substring_of key s)
  | _ => Fail TypeError
  end.

(** [s.replace(/c/g, rep)] *)
Definition replace_all (c : N) (rep : jstring) (s : jstring) : jstring :=
  flat_map (fun x => if (x =? c)%N then rep else [x]) s.

End JS.

Import JS.
Open Scope js_scope.
Open Scope string_scope.
Open Scope list_scope.

(** Characters outside ASCII used by the encoder, and the double quote. *)
Definition ge_sign : jstring := [8805%N].       (* U+2265 *)
Definition le_sign : jstring := [8804%N].       (* U+2264 *)
Definition times_sign : jstring := [215%N].     (* U+00D7 *)
Definition infinity_sign : jstring := [8734%N]. (* U+221E *)
Definition quot : jstring := [34%N].

(** The elements of a value known to be an array. *)
Definition elements (v : value) : list value :=
  match v with Arr l => l | _ => [] end.

(** [s.slice(0, n)] on a string or an array *)
Definition slice0 (n : nat) (v : value) : result value :=
  match v with
  | Str s => Ok (Str (firstn n s))
  | Arr l => Ok (Arr (firstn n l))
  | _ => Fail TypeError
  end.

(** The nesting depth of a value bounds the recursion of the type encoder. *)
Fixpoint depth (v : value) : nat :=
  match v with
  | Arr l => S (fold_right (fun x acc => Nat.max (depth x) acc) 0%nat l)
  | Obj ps =>
      S (fold_right (fun kv acc => Nat.max (depth (snd kv)) acc) 0%nat ps)
  | _ => 0%nat
  end.

(** [escapeXml]: the five global replacements, in the order of the source. *)
Definition escapeXml (text : jstring) : jstring :=
  replace_all 39 (lit "&apos;")
    (replace_all 34 (lit "&quot;")
       (replace_all 62 (lit "&gt;")
          (replace_all 60 (lit "&lt;")
             (replace_all 38 (lit "&amp;") text)))).

Definition ENUM_DISPLAY_THRESHOLD : Z := 3.

(** ** The richest encoder *)

Module Rich.

(** [mergeAllOfProperties]: the loop body assigns the properties of each
    member, in member order, onto the accumulated object. *)
Fixpoint mergeAllOfProperties_from (merged : object) (allOf : list value)
  : result object :=
  match allOf with
  | [] => Ok merged
  | schema :: rest =>
      properties <- get schema (lit "properties") ;;
      merged' <- (if truthy properties then Object_assign merged properties
                  else Ok merged) ;;
      mergeAllOfProperties_from merged' rest
  end.

(** The callers enumerate the merged object ([Object.keys],
    [Object.entries]): what they see of it is its own properties. *)
Definition mergeAllOfProperties (allOf : list value)
  : result (list (jstring * value)) :=
  merged <- mergeAllOfProperties_from fresh_object allOf ;;
  Ok (own merged).

(** One constraint of a constraint list: pushed when the field is defined. *)
Definition constraint (sign : jstring) (field : value)
  : result (list jstring) :=
  if defined field then s <- ToString field ;; Ok [sign ++ s] else Ok [].

Definition with_constraints (base : jstring) (constraints : list jstring)
  : jstring :=
  match constraints with
  | [] => base
  | _ => base ++ lit "(" ++ join (lit ",") constraints ++ lit ")"
  end.

Section Body.
(** The recursive call. *)
Variable getCompactType : value -> result value.

(** [`${escapeXml(k)}:${getCompactType(v)}`] *)
Definition nested_prop (kv : jstring * value) : result jstring :=
  t <- getCompactType (snd kv) ;;
  s <- ToString t ;;
  Ok (escapeXml (fst kv) ++ lit ":" ++ s).

(** The callback of [unionArray.map]. *)
Definition union_part (p : value) : result value :=
  p_enum <- get p (lit "enum") ;;
  if truthy p_enum then
    len <- get p_enum (lit "length") ;;
    small <- le_num len 3 ;;
    if small then
      match p_enum with
      | Arr vs =>
          enumValues <-
            mapM (fun v => s <- toString v ;; Ok (escapeXml s)) vs ;;
          Ok (Str (lit "enum(" ++ join (lit "|") enumValues ++ lit ")"))
      | _ => Fail TypeError
      end
    else
      n <- ToString len ;;
      Ok (Str (lit "enum(" ++ n ++ lit ")"))
  else
  p_type <- get p (lit "type") ;;
  if is_str p_type (lit "number") || is_str p_type (lit "integer") then
    minimum <- get p (lit "minimum") ;;
    maximum <- get p (lit "maximum") ;;
    c1 <- constraint ge_sign minimum ;;
    c2 <- constraint le_sign maximum ;;
    Ok (Str (with_constraints (lit "number") (c1 ++ c2)))
  else
  p_properties <- get p (lit "properties") ;;
  if is_str p_type (lit "object") && truthy p_properties then
    propCount <- Object_keys_length p_properties ;;
    if (propCount <=? 2)%Z
    then Ok (Str (lit "object(" ++ dec_of_Z propCount ++ lit ")"))
    else Ok (Str (lit "object"))
  else
  getCompactType p.

Definition getCompactType_body (prop : value) : result value :=
  if negb (truthy prop) || negb (typeof_object prop) then Ok (Str (lit "any"))
  else
  type <- get prop (lit "type") ;;
  (* array types with constraints *)
  if is_str type (lit "array") then
    items <- get prop (lit "items") ;;
    arrayType <-
      (if truthy items then
         if Array_isArray items then
           ts <- mapM getCompactType (elements items) ;;
           itemTypes <- Array_join (lit ",") ts ;;
           Ok (lit "tuple[" ++ itemTypes ++ lit "]")
         else
           t <- getCompactType items ;;
           itemType <- ToString t ;;
           Ok (lit "array[" ++ itemType ++ lit "]")
       else Ok (lit "array[any]")) ;;
    minItems <- get prop (lit "minItems") ;;
    maxItems <- get prop (lit "maxItems") ;;
    if defined minItems || defined maxItems then
      min <- ToString (or_else minItems (Num 0)) ;;
      max <- ToString (or_else maxItems (Str infinity_sign)) ;;
      Ok (Str (arrayType ++ lit "{" ++ min ++ lit ".." ++ max ++ lit "}"))
    else Ok (Str arrayType)
  else
  (* const *)
  const <- get prop (lit "const") ;;
  if defined const then
    s <- toString const ;;
    Ok (Str (lit "const(" ++ escapeXml s ++ lit ")"))
  else
  (* enum *)
  enum <- get prop (lit "enum") ;;
  if truthy enum && Array_isArray enum then
    if (Z_length (elements enum) <=? ENUM_DISPLAY_THRESHOLD)%Z then
      safeEnumValues <-
        mapM (fun v => s <- toString v ;; Ok (escapeXml s)) (elements enum) ;;
      Ok (Str (lit "enum(" ++ join (lit "|") safeEnumValues ++ lit ")"))
    else Ok (Str (lit "enum"))
  else
  (* allOf *)
  allOf <- get prop (lit "allOf") ;;
  if truthy allOf && Array_isArray allOf then
    mergedProps <- mergeAllOfProperties (elements allOf) ;;
    if (0 <? Z_length mergedProps)%Z then
      nestedProps <- mapM nested_prop mergedProps ;;
      Ok (Str (lit "merged{" ++ join (lit ",") nestedProps ++ lit "}"))
    else Ok (Str (lit "merged"))
  else
  (* object *)
  if is_str type (lit "object") then
    properties <- get prop (lit "properties") ;;
    small <- (if truthy properties
              then n <- Object_keys_length properties ;; Ok (n <=? 2)%Z
              else Ok false) ;;
    if small then
      entries <- Object_entries properties ;;
      nestedProps <- mapM nested_prop entries ;;
      Ok (Str (lit "object{" ++ join (lit ",") nestedProps ++ lit "}"))
    else Ok (Str (lit "object"))
  else
  (* oneOf / anyOf *)
  oneOf <- get prop (lit "oneOf") ;;
  anyOf <- get prop (lit "anyOf") ;;
  if truthy oneOf || truthy anyOf then
    match or_else oneOf (or_else anyOf (Arr [])) with
    | Arr unionArray =>
        parts <- mapM union_part unionArray ;;
        s <- Array_join (lit "|") parts ;;
        Ok (Str s)
    | _ => Fail TypeError
    end
  else
  (* basic types *)
  if is_str type (lit "string") then
    format <- get prop (lit "format") ;;
    let stringType :=
      if is_str format (lit "date") then lit "date"
      else if is_str format (lit "date-time") then lit "datetime"
      else if is_str format (lit "email") then lit "email"
      else if is_str format (lit "uri") || is_str format (lit "url")
           then lit "url"
      else if is_str format (lit "uuid") then lit "uuid"
      else if is_str format (lit "ipv4") then lit "ipv4"
      else if is_str format (lit "ipv6") then lit "ipv6"
      else lit "string" in
    minLength <- get prop (lit "minLength") ;;
    maxLength <- get prop (lit "maxLength") ;;
    pattern <- get prop (lit "pattern") ;;
    c1 <- constraint ge_sign minLength ;;
    c2 <- constraint le_sign maxLength ;;
    c3 <- (if truthy pattern then
             len <- get pattern (lit "length") ;;
             long <- gt_num len 10 ;;
             shortPattern <- (if long then slice0 10 pattern else Ok pattern) ;;
             s <- ToString shortPattern ;;
             Ok [lit "/" ++ s ++ lit "/"]
           else Ok []) ;;
    let finalType := with_constraints stringType (c1 ++ c2 ++ c3) in
    default <- get prop (lit "default") ;;
    if defined default then
      s <- toString default ;;
      Ok (Str (finalType ++ lit "=" ++ quot ++ escapeXml s ++ quot))
    else Ok (Str finalType)
  else if is_str type (lit "number") || is_str type (lit "integer") then
    minimum <- get prop (lit "minimum") ;;
    maximum <- get prop (lit "maximum") ;;
    multipleOf <- get prop (lit "multipleOf") ;;
    c1 <- constraint ge_sign minimum ;;
    c2 <- constraint le_sign maximum ;;
    c3 <- constraint times_sign multipleOf ;;
    let finalType := with_constraints (lit "number") (c1 ++ c2 ++ c3) in
    default <- get prop (lit "default") ;;
    if defined default then
      s <- ToString default ;;
      Ok (Str (finalType ++ lit "=" ++ s))
    else Ok (Str finalType)
  else if is_str type (lit "boolean") then
    default <- get prop (lit "default") ;;
    if defined default then
      s <- ToString default ;;
      Ok (Str (lit "boolean" ++ lit "=" ++ s))
    else Ok (Str (lit "boolean"))
  else if is_str type (lit "null") then Ok (Str (lit "null"))
  else Ok (or_else type (Str (lit "any"))).
End Body.

Fixpoint getCompactType_fuel (fuel : nat) (prop : value) : result value :=
  match fuel with
  | O => Fail OutOfFuel
  | S n => getCompactType_body (getCompactType_fuel n) prop
  end.

Definition getCompactType (prop : value) : result value :=
  getCompactType_fuel (S (depth prop)) prop.

(** The text a template literal embeds for [getCompactType(prop)]. *)
Definition encodeType (prop : value) : result jstring :=
  t <- getCompactType prop ;; ToString t.

(** [`${safeKey}${isRequired}:${type}`], the callback of the two
    [Object.entries(...).map] at the root. *)
Definition param (required : value) (kv : jstring * value) : result jstring :=
  isReq <- includes required (fst kv) ;;
  let isRequired := if isReq : bool then lit "*" else lit "?" in
  type <- getCompactType (snd kv) ;;
  let safeKey := escapeXml (fst kv) in
  t <- ToString type ;;
  Ok (safeKey ++ isRequired ++ lit ":" ++ t).

Definition jsonSchemaToXml (schema : value) : result jstring :=
  if negb (truthy schema) || negb (typeof_object schema)
  then Ok (lit "<schema></schema>")
  else
  type <- get schema (lit "type") ;;
  items <- get schema (lit "items") ;;
  (* array schemas at root level *)
  if is_str type (lit "array") && truthy items then
    if Array_isArray items then
      ts <- mapM getCompactType (elements items) ;;
      itemTypes <- Array_join (lit ",") ts ;;
      Ok (lit "<schema>tuple[" ++ itemTypes ++ lit "]</schema>")
    else
      t <- getCompactType items ;;
      itemType <- ToString t ;;
      Ok (lit "<schema>array[" ++ itemType ++ lit "]</schema>")
  else
  let properties_branch :=
    properties <- get schema (lit "properties") ;;
    empty <- (if truthy properties
              then n <- Object_keys_length properties ;; Ok (n =? 0)%Z
              else Ok true) ;;
    if empty then Ok (lit "<schema></schema>")
    else
      required <- get schema (lit "required") ;;
      entries <- Object_entries properties ;;
      params <- mapM (param (or_else required (Arr []))) entries ;;
      Ok (lit "<schema>" ++ join (lit ", ") params ++ lit "</schema>") in
  (* allOf at root level *)
  allOf <- get schema (lit "allOf") ;;
  if truthy allOf && Array_isArray allOf then
    mergedProps <- mergeAllOfProperties (elements allOf) ;;
    if (0 <? Z_length mergedProps)%Z then
      required <- get schema (lit "required") ;;
      params <- mapM (param (or_else required (Arr []))) mergedProps ;;
      Ok (lit "<schema>merged{" ++ join (lit ", ") params ++ lit "}</schema>")
    else properties_branch
  else properties_branch.

End Rich.

(** ** JSON.stringify(v, null, 2) and the arithmetic of the metrics *)

Module Runtime.

Definition hex_digit (n : N) : N :=
  if (n <? 10)%N then (48 + n)%N else (87 + n)%N.

(** [\uXXXX], lower-case digits *)
Definition unicode_escape (c : N) : jstring :=
  lit "\u" ++ [hex_digit (c / 4096 mod 16); hex_digit (c / 256 mod 16);
               hex_digit (c / 16 mod 16); hex_digit (c mod 16)]%N.

Definition is_high_surrogate (c : N) : bool :=
  ((55296 <=? c) && (c <=? 56319))%N.
Definition is_low_surrogate (c : N) : bool :=
  ((56320 <=? c) && (c <=? 57343))%N.

Definition quote_unit (c : N) : jstring :=
  if (c =? 8)%N then lit "\b"
  else if (c =? 9)%N then lit "\t"
  else if (c =? 10)%N then lit "\n"
  else if (c =? 12)%N then lit "\f"
  else if (c =? 13)%N then lit "\r"
  else if (c =? 34)%N then lit "\" ++ quot
  else if (c =? 92)%N then lit "\\"
  else if (c <? 32)%N || is_low_surrogate c || is_high_surrogate c
       then unicode_escape c
  else [c].

(** The body of [QuoteJSONString]: a surrogate pair is kept, a lone surrogate
    is escaped. *)
Fixpoint quote_units (s : jstring) : jstring :=
  match s with
  | [] => []
  | c :: r =>
      if is_high_surrogate c then
        match r with
        | d :: r' =>
            if is_low_surrogate d then c :: d :: quote_units r'
            else quote_unit c ++ quote_units r
        | [] => quote_unit c
        end
      else quote_unit c ++ quote_units r
  end.

Definition QuoteJSONString (s : jstring) : jstring :=
  quot ++ quote_units s ++ quot.

Definition newline : jstring := [10%N].
Definition gap : jstring := lit "  ".

Definition wrap (open close stepback : jstring) (partial : list jstring)
  : jstring :=
  match partial with
  | [] => open ++ close
  | _ =>
      let indent := stepback ++ gap in
      open ++ newline ++ indent
        ++ join (lit "," ++ newline ++ indent) partial
        ++ newline ++ stepback ++ close
  end.

(** [SerializeJSONProperty]; [None] is undefined. *)
Fixpoint serialize (stepback : jstring) (v : value) : option jstring :=
  match v with
  | Undefined => None
  | Null => Some (lit "null")
  | Bool true => Some (lit "true")
  | Bool false => Some (lit "false")
  | Num z => Some (dec_of_Z z)
  | Str s => Some (QuoteJSONString s)
  | Arr l =>
      let partial :=
        (fix elems (l : list value) : list jstring :=
           match l with
           | [] => []
           | x :: r =>
               match serialize (stepback ++ gap) x with
               | Some s => s
               | None => lit "null"
               end :: elems r
           end) l in
      Some (wrap (lit "[") (lit "]") stepback partial)
  | Obj ps =>
      let partial :=
        (fix members (ps : list (jstring * value)) : list jstring :=
           match ps with
           | [] => []
           | (k, x) :: r =>
               match serialize (stepback ++ gap) x with
               | Some s => (QuoteJSONString k ++ lit ": " ++ s) :: members r
               | None => members r
               end
           end) ps in
      Some (wrap (lit "{") (lit "}") stepback partial)
  end.

(** [JSON.stringify(v, null, 2)]: a string, or undefined. *)
Definition JSON_stringify (v : value) : value :=
  match serialize [] v with
  | Some s => Str s
  | None => Undefined
  end.

(** *** Numbers

    A number is the rational it denotes.  [Math.ceil] and [Math.round] are
    exact on it; [Math.round] rounds a half towards plus infinity. *)
Definition Math_ceil (q : Q) : Z := Qceiling q.
Definition Math_round (q : Q) : Z := Qfloor (q + (1 # 2)).

(** The result of a division or of a product is the double nearest to the
    exact one (IEEE 754 binary64, round to nearest, ties to even): 53
    significant bits at the exponent of the exact result.  The exponent is
    not bounded: the numbers rounded here are ratios and percentages of
    token counts, far from the ends of the range.  Token counts are
    integers a double holds exactly, and so is their difference.  The
    estimators take the ceiling of an exact quotient or weighted sum. *)
Definition pow2 (e : Z) : Q := 2 ^ e.

(** The integer nearest to [q], the even one of two equally near. *)
Definition nearest_even (q : Q) : Z :=
  let f := Qfloor q in
  match Qcompare (q - inject_Z f) (1 # 2) with
  | Lt => f
  | Eq => if Z.even f then f else (f + 1)%Z
  | Gt => (f + 1)%Z
  end.

(** The exponent [e] of a positive rational: [2^e <= q < 2^(e+1)]. *)
Definition exponent (q : Q) : Z :=
  let k := (Z.log2 (Qnum q) - Z.log2 (Z.pos (Qden q)))%Z in
  if Qle_bool (pow2 k) q then k else (k - 1)%Z.

(** A positive rational rounded to 53 significant bits. *)
Definition round53 (q : Q) : Q :=
  let e := (exponent q - 52)%Z in
  inject_Z (nearest_even (q / pow2 e)) * pow2 e.

Definition to_double (q : Q) : Q :=
  match Qnum q with
  | Z0 => 0
  | Zpos _ => round53 q
  | Zneg _ => - round53 (- q)
  end.

(** [x / y] and [x * y] on doubles *)
Definition fdiv (x y : Q) : Q := to_double (x / y).
Definition fmul (x y : Q) : Q := to_double (x * y).

(** [\s] of a regular expression *)
Definition is_space (c : N) : bool :=
  ((9 <=? c) && (c <=? 13) || (c =? 32) || (c =? 160) || (c =? 5760)
   || (8192 <=? c) && (c <=? 8202) || (c =? 8232) || (c =? 8233)
   || (c =? 8239) || (c =? 8287) || (c =? 12288) || (c =? 65279))%N.

(** [text.split(/\s+/)], the piece being read kept in reverse *)
Fixpoint split_spaces (piece : jstring) (in_space : bool) (text : jstring)
  : list jstring :=
  match text with
  | [] => [rev piece]
  | c :: r =>
      if is_space c then
        if in_space then split_spaces [] true r
        else rev piece :: split_spaces [] true r
      else split_spaces (c :: piece) false r
  end.

(** [/[{}[\],:]/] *)
Definition is_json_punct (c : N) : bool :=
  ((c =? 123) || (c =? 125) || (c =? 91) || (c =? 93) || (c =? 44)
   || (c =? 58))%N.

End Runtime.
Import Runtime.

Record SchemaCompressionResult : Type := {
  compressed : jstring;
  originalTokens : Z;
  compressedTokens : Z;
  reduction : Z
}.

Record Tool : Type := { name : jstring; inputSchema : value }.

Record CompressedTool : Type := {
  tool_name : jstring;
  compressedSchema : jstring
}.

Record BatchResult : Type := {
  compressedTools : list CompressedTool;
  totalReduction : Z;
  totalOriginalTokens : Z;
  totalCompressedTokens : Z
}.

(** The running totals of [compressToolSchemas]: the callback of [tools.map]
    adds to them and yields the entry of the tool. *)
Section Batch.
Variable compressSchemaWithMetrics : value -> result SchemaCompressionResult.

Fixpoint compress_each (tools : list Tool) (totals : Z * Z)
  : result (list CompressedTool * (Z * Z)) :=
  match tools with
  | [] => Ok ([], totals)
  | tool :: rest =>
      r <- compressSchemaWithMetrics (inputSchema tool) ;;
      let totals' :=
        (fst totals + originalTokens r, snd totals + compressedTokens r)%Z in
      out <- compress_each rest totals' ;;
      Ok ({| tool_name := name tool; compressedSchema := compressed r |}
            :: fst out, snd out)
  end.
End Batch.

(** ** The snapshot with escaping, root arrays and the clamped metrics *)

Module Clamped.

(** [escapeXml] handed an enum entry by [prop.enum.map(escapeXml)]: only a
    string has a [replace] method. *)
Definition escapeXml_entry (text : value) : result jstring :=
  match text with
  | Str s => Ok (escapeXml s)
  | _ => Fail TypeError
  end.

Section Body.
Variable getCompactType : value -> result value.

Definition nested_prop (kv : jstring * value) : result jstring :=
  t <- getCompactType (snd kv) ;;
  s <- ToString t ;;
  Ok (escapeXml (fst kv) ++ lit ":" ++ s).

Definition getCompactType_body (prop : value) : result value :=
  if negb (truthy prop) || negb (typeof_object prop) then Ok (Str (lit "any"))
  else
  type <- get prop (lit "type") ;;
  (* array types *)
  if is_str type (lit "array") then
    items <- get prop (lit "items") ;;
    if truthy items then
      t <- getCompactType items ;;
      itemType <- ToString t ;;
      Ok (Str (lit "array[" ++ itemType ++ lit "]"))
    else Ok (Str (lit "array[any]"))
  else
  (* enum types *)
  enum <- get prop (lit "enum") ;;
  if truthy enum && Array_isArray enum then
    if (Z_length (elements enum) <=? ENUM_DISPLAY_THRESHOLD)%Z then
      safeEnumValues <- mapM escapeXml_entry (elements enum) ;;
      Ok (Str (lit "enum(" ++ join (lit "|") safeEnumValues ++ lit ")"))
    else Ok (Str (lit "enum"))
  else
  (* object types *)
  if is_str type (lit "object") then
    properties <- get prop (lit "properties") ;;
    small <- (if truthy properties
              then n <- Object_keys_length properties ;; Ok (n <=? 2)%Z
              else Ok false) ;;
    if small then
      entries <- Object_entries properties ;;
      nestedProps <- mapM nested_prop entries ;;
      Ok (Str (lit "object{" ++ join (lit ",") nestedProps ++ lit "}"))
    else Ok (Str (lit "object"))
  else
  (* union types *)
  oneOf <- get prop (lit "oneOf") ;;
  anyOf <- get prop (lit "anyOf") ;;
  if truthy oneOf || truthy anyOf then
    match or_else oneOf (or_else anyOf (Arr [])) with
    | Arr unionArray =>
        all <- mapM (fun p => get p (lit "type")) unionArray ;;
        let types := filter truthy all in
        if (0 <? Z_length types)%Z then
          s <- Array_join (lit "|") types ;;
          Ok (Str s)
        else Ok (Str (lit "union"))
    | _ => Fail TypeError
    end
  else
  (* string types with formats *)
  if is_str type (lit "string") then
    format <- get prop (lit "format") ;;
    if is_str format (lit "date") then Ok (Str (lit "date"))
    else if is_str format (lit "date-time") then Ok (Str (lit "datetime"))
    else if is_str format (lit "email") then Ok (Str (lit "email"))
    else if is_str format (lit "uri") || is_str format (lit "url")
         then Ok (Str (lit "url"))
    else if is_str format (lit "uuid") then Ok (Str (lit "uuid"))
    else if is_str format (lit "ipv4") then Ok (Str (lit "ipv4"))
    else if is_str format (lit "ipv6") then Ok (Str (lit "ipv6"))
    else Ok (Str (lit "string"))
  else if is_str type (lit "number") || is_str type (lit "integer")
       then Ok (Str (lit "number"))
  else if is_str type (lit "boolean") then Ok (Str (lit "boolean"))
  else if is_str type (lit "null") then Ok (Str (lit "null"))
  else Ok (or_else type (Str (lit "any"))).
End Body.

Fixpoint getCompactType_fuel (fuel : nat) (prop : value) : result value :=
  match fuel with
  | O => Fail OutOfFuel
  | S n => getCompactType_body (getCompactType_fuel n) prop
  end.

Definition getCompactType (prop : value) : result value :=
  getCompactType_fuel (S (depth prop)) prop.

Definition encodeType (prop : value) : result jstring :=
  t <- getCompactType prop ;; ToString t.

Definition param (required : value) (kv : jstring * value) : result jstring :=
  isReq <- includes required (fst kv) ;;
  let isRequired := if isReq : bool then lit "*" else lit "?" in
  type <- getCompactType (snd kv) ;;
  let safeKey := escapeXml (fst kv) in
  t <- ToString type ;;
  Ok (safeKey ++ isRequired ++ lit ":" ++ t).

Definition jsonSchemaToXml (schema : value) : result jstring :=
  if negb (truthy schema) || negb (typeof_object schema)
  then Ok (lit "<schema></schema>")
  else
  type <- get schema (lit "type") ;;
  items <- get schema (lit "items") ;;
  (* array schemas at root level *)
  if is_str type (lit "array") && truthy items then
    t <- getCompactType items ;;
    itemType <- ToString t ;;
    Ok (lit "<schema>array[" ++ itemType ++ lit "]</schema>")
  else
  properties <- get schema (lit "properties") ;;
  empty <- (if truthy properties
            then n <- Object_keys_length properties ;; Ok (n =? 0)%Z
            else Ok true) ;;
  if empty then Ok (lit "<schema></schema>")
  else
    required <- get schema (lit "required") ;;
    entries <- Object_entries properties ;;
    params <- mapM (param (or_else required (Arr []))) entries ;;
    Ok (lit "<schema>" ++ join (lit ", ") params ++ lit "</schema>").

(** [estimateTokens]; the argument is what [JSON.stringify] returned, or a
    compressed string. *)
Definition estimateTokens (text : value) : result Z :=
  if negb (truthy text) then Ok 0%Z
  else
    match text with
    | Str s =>
        let words :=
          Z_length (filter (fun w => (0 <? Z_length w)%Z)
                           (split_spaces [] false s)) in
        let jsonTokens := Z_length (filter is_json_punct s) in
        if (Z_length s <? 20)%Z then Ok (Math_ceil (inject_Z (Z_length s) / 3))
        else Ok (Math_ceil (inject_Z words * (13 # 10)
                            + inject_Z jsonTokens * (1 # 2)))
    | _ => Fail TypeError
    end.

Definition compressSchemaWithMetrics (schema : value)
  : result SchemaCompressionResult :=
  let originalJson := JSON_stringify schema in
  compressed <- jsonSchemaToXml schema ;;
  originalTokens <- estimateTokens originalJson ;;
  compressedTokens <- estimateTokens (Str compressed) ;;
  (* reduction, never negative *)
  let reduction :=
    if (0 <? originalTokens)%Z && (compressedTokens <? originalTokens)%Z
    then fmul (fdiv (inject_Z (originalTokens - compressedTokens))
                    (inject_Z originalTokens)) 100
    else 0 in
  Ok {| compressed := compressed;
        originalTokens := originalTokens;
        compressedTokens := compressedTokens;
        reduction := Math_round reduction |}.

Definition compressToolSchemas (tools : list Tool) : result BatchResult :=
  out <- compress_each compressSchemaWithMetrics tools (0, 0)%Z ;;
  let compressedTools := fst out in
  let totalOriginalTokens := fst (snd out) in
  let totalCompressedTokens := snd (snd out) in
  let totalReduction :=
    if (0 <? totalOriginalTokens)%Z
       && (totalCompressedTokens <? totalOriginalTokens)%Z
    then Math_round
           (fmul (fdiv (inject_Z (totalOriginalTokens - totalCompressedTokens))
                       (inject_Z totalOriginalTokens)) 100)
    else 0%Z in
  Ok {| compressedTools := compressedTools;
        totalReduction := totalReduction;
        totalOriginalTokens := totalOriginalTokens;
        totalCompressedTokens := totalCompressedTokens |}.

End Clamped.

(** ** The first snapshot *)

Module Early.

(** [items?.name] *)
Definition get_opt (v : value) (name : jstring) : result value :=
  match v with
  | Undefined | Null => Ok Undefined
  | _ => get v name
  end.

Definition getCompactType (prop : value) : result value :=
  if negb (truthy prop) || negb (typeof_object prop) then Ok (Str (lit "any"))
  else
  type <- get prop (lit "type") ;;
  if is_str type (lit "array") then
    items <- get prop (lit "items") ;;
    items_type <- get_opt items (lit "type") ;;
    if truthy items_type then
      s <- ToString items_type ;;
      Ok (Str (lit "array[" ++ s ++ lit "]"))
    else
      items_enum <- get_opt items (lit "enum") ;;
      if truthy items_enum then Ok (Str (lit "array[enum]"))
      else Ok (Str (lit "array[any]"))
  else
  enum <- get prop (lit "enum") ;;
  if truthy enum && Array_isArray enum then
    if (Z_length (elements enum) <=? 3)%Z then
      s <- Array_join (lit "|") (elements enum) ;;
      Ok (Str (lit "enum(" ++ s ++ lit ")"))
    else Ok (Str (lit "enum"))
  else
  if is_str type (lit "object") then Ok (Str (lit "object"))
  else
  oneOf <- get prop (lit "oneOf") ;;
  anyOf <- get prop (lit "anyOf") ;;
  if truthy oneOf || truthy anyOf then
    match or_else oneOf anyOf with
    | Arr unionArray =>
        all <- mapM (fun p => get p (lit "type")) unionArray ;;
        let types := filter truthy all in
        if (0 <? Z_length types)%Z then
          s <- Array_join (lit "|") types ;;
          Ok (Str s)
        else Ok (Str (lit "union"))
    | _ => Fail TypeError
    end
  else
  if is_str type (lit "string") then
    format <- get prop (lit "format") ;;
    if is_str format (lit "date") then Ok (Str (lit "date"))
    else if is_str format (lit "date-time") then Ok (Str (lit "datetime"))
    else if is_str format (lit "email") then Ok (Str (lit "email"))
    else if is_str format (lit "uri") then Ok (Str (lit "url"))
    else Ok (Str (lit "string"))
  else if is_str type (lit "number") || is_str type (lit "integer")
       then Ok (Str (lit "number"))
  else if is_str type (lit "boolean") then Ok (Str (lit "boolean"))
  else Ok (or_else type (Str (lit "any"))).

Definition param (required : value) (kv : jstring * value) : result jstring :=
  isReq <- includes required (fst kv) ;;
  let isRequired := if isReq : bool then lit "*" else lit "?" in
  type <- getCompactType (snd kv) ;;
  t <- ToString type ;;
  Ok (fst kv ++ isRequired ++ lit ":" ++ t).

Definition jsonSchemaToXml (schema : value) : result jstring :=
  if negb (truthy schema) || negb (typeof_object schema)
  then Ok (lit "<schema></schema>")
  else
  properties <- get schema (lit "properties") ;;
  empty <- (if truthy properties
            then n <- Object_keys_length properties ;; Ok (n =? 0)%Z
            else Ok true) ;;
  if empty then Ok (lit "<schema></schema>")
  else
    required <- get schema (lit "required") ;;
    entries <- Object_entries properties ;;
    params <- mapM (param (or_else required (Arr []))) entries ;;
    Ok (lit "<schema>" ++ join (lit ", ") params ++ lit "</schema>").

(** [Math.ceil(text.length / 4)]; only a string or undefined reaches it. *)
Definition estimateTokens (text : value) : result Z :=
  match text with
  | Str s => Ok (Math_ceil (inject_Z (Z_length s) / 4))
  | Undefined | Null => Fail TypeError
  | _ => Fail Unmodelled
  end.

Definition compressSchemaWithMetrics (schema : value)
  : result SchemaCompressionResult :=
  let originalJson := JSON_stringify schema in
  compressed <- jsonSchemaToXml schema ;;
  originalTokens <- estimateTokens originalJson ;;
  compressedTokens <- estimateTokens (Str compressed) ;;
  let reduction :=
    if (0 <? originalTokens)%Z
    then fmul (fdiv (inject_Z (originalTokens - compressedTokens))
                    (inject_Z originalTokens)) 100
    else 0 in
  Ok {| compressed := compressed;
        originalTokens := originalTokens;
        compressedTokens := compressedTokens;
        reduction := Math_round reduction |}.

Definition compressToolSchemas (tools : list Tool) : result BatchResult :=
  out <- compress_each compressSchemaWithMetrics tools (0, 0)%Z ;;
  let compressedTools := fst out in
  let totalOriginalTokens := fst (snd out) in
  let totalCompressedTokens := snd (snd out) in
  let totalReduction :=
    if (0 <? totalOriginalTokens)%Z
    then Math_round
           (fmul (fdiv (inject_Z (totalOriginalTokens - totalCompressedTokens))
                       (inject_Z totalOriginalTokens)) 100)
    else 0%Z in
  Ok {| compressedTools := compressedTools;
        totalReduction := totalReduction;
        totalOriginalTokens := totalOriginalTokens;
        totalCompressedTokens := totalCompressedTokens |}.

End Early.

(** ** Vocabulary of the statements *)

Definition sentinel : jstring := lit "<schema></schema>".

(** The entries [Object.entries] lists; a missing object has none. *)
Definition own_entries (v : value) : list (jstring * value) :=
  match Object_entries v with Ok es => es | Fail _ => [] end.

(** The marker of a key against a [required] array. *)
Definition marker (required : list value) (key : jstring) : jstring :=
  if existsb (fun e => is_str e key) required then lit "*" else lit "?".

(** One emitted parameter: escaped key, marker, colon, encoded type. *)
Definition emit (required : list value) (kv : jstring * value) (type : jstring)
  : jstring :=
  escapeXml (fst kv) ++ marker required (fst kv) ++ lit ":" ++ type.

Definition emit_all (required : list value) (entries : list (jstring * value))
    (types : list jstring) : list jstring :=
  List.map (fun p => emit required (fst p) (snd p)) (combine entries types).


Definition total (l : list Z) : Z := fold_right Z.add 0%Z l.

(** The clamped percentage of the metrics:
    [round(max(0, (original - compressed) / original * 100))], in the
    arithmetic of the code. *)
Definition clamped_reduction (original compressed : Z) : Z :=
  if (original =? 0)%Z then 0%Z
  else Math_round
         (Qmax 0 (fmul (fdiv (inject_Z (original - compressed))
                             (inject_Z original)) 100)).

(** *** Literals for the examples *)

Definition props (l : list (string * value)) : list (jstring * value) :=
  List.map (fun kv => (lit (fst kv), snd kv)) l.
Definition obj (l : list (string * value)) : value := Obj (props l).
Definition str (s : string) : value := Str (lit s).
Definition typed (t : string) : value := obj [("type", str t)].

Definition entries_of (tools : list Tool) (rs : list SchemaCompressionResult)
  : list CompressedTool :=
  List.map (fun p => {| tool_name := name (fst p);
                        compressedSchema := compressed (snd p) |})
           (combine tools rs).

(** What the metrics wrapper returns for an absent schema. *)
Definition absent_result : SchemaCompressionResult :=
  {| compressed := sentinel; originalTokens := 0; compressedTokens := 6;
     reduction := 0 |}.

Definition nullish (v : value) : bool :=
  match v with Undefined | Null => true | _ => false end.

Definition depth_below (d : nat) (ps : list (jstring * value)) : Prop :=
  forall kv, In kv ps -> (depth (snd kv) <= d)%nat.

(** The characters [escapeXml] removes from a text. *)
Definition markup (c : N) : bool :=
  ((c =? 60) || (c =? 62) || (c =? 34) || (c =? 39))%N.

(** *** Example schemas *)

Definition marker_schema : list (jstring * value) :=
  props [("type", str "object");
         ("properties", obj [("a", typed "string"); ("b", typed "number")]);
         ("required", Arr [str "a"])].

Definition null_const_schema : value :=
  obj [("properties", obj [("x", obj [("const", Null)])])].

Definition numeric_enum_schema : value :=
  obj [("properties", obj [("n", obj [("enum", Arr [Num 1; Num 2])])])].

Definition pattern_schema : value :=
  obj [("properties",
        obj [("a", obj [("type", str "string"); ("pattern", str "<b>")])])].

Definition raw_type_schema : value :=
  obj [("properties", obj [("a", typed "<i>")])].

Definition array_root : list (jstring * value) :=
  props [("type", str "array"); ("items", typed "string")].

Definition tuple_root : list (jstring * value) :=
  props [("type", str "array");
         ("items", Arr [typed "string"; typed "number"])].

Definition array_root_with_properties : value :=
  obj [("type", str "array"); ("items", typed "string");
       ("properties", obj [("a", typed "string")])].

Definition allOf_root_with_properties : value :=
  obj [("allOf", Arr [obj [("properties", obj [("x", typed "number")])]]);
       ("properties", obj [("a", typed "string")])].

Definition ampersand_key_schema : value :=
  obj [("properties", obj [("a&b", typed "string")])].

(** The properties object obtained by writing [b] and then [1]. *)
Definition index_key_schema : value :=
  Obj [(lit "properties",
        Obj (obj_set (obj_set [] (lit "b") (typed "string"))
                     (lit "1") (typed "number")))].

Definition allOf_members : list value :=
  [obj [("properties", obj [("a", typed "string"); ("b", typed "number")])];
   obj [("properties", obj [("a", typed "boolean")])]].



Definition three_formats : list value := [str "json"; str "xml"; str "csv"].
Definition five_sizes : list value :=
  [str "small"; str "medium"; str "large"; str "xlarge"; str "xxlarge"].

Definition query_schema : value :=
  obj [("type", str "object");
       ("properties",
        obj [("query", obj [("type", str "string");
                            ("description", str "The search query")])]);
       ("required", Arr [str "query"])].

Definition two_tools : list Tool :=
  [{| name := lit "search"; inputSchema := query_schema |};
   {| name := lit "ping"; inputSchema := Undefined |}].

(** *** Schemas of the repository's test suite *)

Definition test_multiple : value :=
  obj [("type", str "object");
       ("properties",
        obj [("topic", obj [("type", str "string");
                            ("description", str "The topic to search")]);
             ("count", obj [("type", str "number");
                            ("description", str "Number of results")]);
             ("include_examples",
              obj [("type", str "boolean");
                   ("description", str "Whether to include examples")])]);
       ("required", Arr [str "topic"; str "count"])].

Definition test_arrays : value :=
  obj [("type", str "object");
       ("properties",
        obj [("tech_stack", obj [("type", str "array");
                                 ("items", typed "string")]);
             ("numbers", obj [("type", str "array");
                              ("items", typed "number")])]);
       ("required", Arr [str "tech_stack"])].

Definition test_enums : value :=
  obj [("type", str "object");
       ("properties",
        obj [("format", obj [("type", str "string");
                             ("enum", Arr three_formats)]);
             ("size", obj [("type", str "string");
                           ("enum", Arr five_sizes)])]);
       ("required", Arr [str "format"])].

Definition test_object : value :=
  obj [("type", str "object");
       ("properties",
        obj [("requirements",
              obj [("type", str "object");
                   ("properties",
                    obj [("description", typed "string");
                         ("scale", typed "string")])])]);
       ("required", Arr [str "requirements"])].

Definition test_formats : value :=
  obj [("type", str "object");
       ("properties",
        obj [("created_date", obj [("type", str "string");
                                   ("format", str "date")]);
             ("website", obj [("type", str "string");
                              ("format", str "uri")]);
             ("email", obj [("type", str "string");
                            ("format", str "email")])])].

Definition test_tools : list Tool :=
  [{| name := lit "search";
      inputSchema :=
        obj [("type", str "object");
             ("properties", obj [("query", typed "string")]);
             ("required", Arr [str "query"])] |};
   {| name := lit "translate";
      inputSchema :=
        obj [("type", str "object");
             ("properties",
              obj [("text", typed "string");
                   ("target_lang", typed "string");
                   ("source_lang", typed "string")]);
             ("required", Arr [str "text"; str "target_lang"])] |}].

(** What the metrics wrapper returns for [query_schema]. *)
Definition query_result : SchemaCompressionResult :=
  {| compressed := lit "<schema>query*:string</schema>";
     originalTokens := 35; compressedTokens := 2; reduction := 94 |}.

(** ** Vocabulary of the further properties *)

(** *** Escaped text *)

(** The entity [escapeXml] writes for a character; a character it keeps
    stands for itself. *)
Definition entity (c : N) : jstring :=
  if (c =? 38)%N then lit "&amp;"
  else if (c =? 60)%N then lit "&lt;"
  else if (c =? 62)%N then lit "&gt;"
  else if (c =? 34)%N then lit "&quot;"
  else if (c =? 39)%N then lit "&apos;"
  else [c].

(** A character [escapeXml] keeps. *)
Definition plain (c : N) : bool :=
  negb ((c =? 38) || (c =? 60) || (c =? 62) || (c =? 34) || (c =? 39))%N.

(** The names of the five entities, after the ampersand. *)
Definition entity_names : list jstring :=
  [lit "amp;"; lit "lt;"; lit "gt;"; lit "quot;"; lit "apos;"].

(** Escaped text: none of [<], [>] and the quotes, and every ampersand
    opens one of the five entities. *)
Fixpoint well_escaped (s : jstring) : bool :=
  match s with
  | [] => true
  | c :: r =>
      (if (c =? 38)%N then existsb (fun e => prefix_of e r) entity_names
       else negb (markup c))
      && well_escaped r
  end.

(** The characters that could open or close a tag. *)
Definition angle (c : N) : bool := ((c =? 60) || (c =? 62))%N.

(** A text without angle brackets. *)
Definition angle_free (s : jstring) : bool :=
  forallb (fun c => negb (angle c)) s.

(** *** Merged properties *)

(** The properties a member of an [allOf] brings to the merge. *)
Definition member_entries (m : value) : list (jstring * value) :=
  match get m (lit "properties") with
  | Ok properties => if truthy properties then own_entries properties else []
  | Fail _ => []
  end.

(** The keys the members of an [allOf] define, member after member. *)
Definition member_keys (members : list value) : list jstring :=
  flat_map (fun m => List.map fst (member_entries m)) members.

(** The keys of a list in the order of their first occurrence, those in
    [seen] left out. *)
Fixpoint first_occurrences (seen ks : list jstring) : list jstring :=
  match ks with
  | [] => []
  | k :: r =>
      if existsb (jstring_eqb k) seen then first_occurrences seen r
      else k :: first_occurrences (k :: seen) r
  end.

(** *** The branch of the type encoder a node reaches *)

(** The node is no array and has no [const], no enum and no allOf: the
    encoder reaches the test on [type === "object"]. *)
Definition reaches_object_branch (fields : list (jstring * value)) : Prop :=
  is_str (lookup (lit "type") fields) (lit "array") = false
  /\ lookup (lit "const") fields = Undefined
  /\ truthy (lookup (lit "enum") fields)
     && Array_isArray (lookup (lit "enum") fields) = false
  /\ truthy (lookup (lit "allOf") fields)
     && Array_isArray (lookup (lit "allOf") fields) = false.

(** The node is no object either: the encoder reaches the unions. *)
Definition reaches_union_branch (fields : list (jstring * value)) : Prop :=
  reaches_object_branch fields
  /\ is_str (lookup (lit "type") fields) (lit "object") = false.

(** The node has no union: the encoder reaches the switch on [type]. *)
Definition reaches_basic_types (fields : list (jstring * value)) : Prop :=
  reaches_union_branch fields
  /\ truthy (lookup (lit "oneOf") fields) = false
  /\ truthy (lookup (lit "anyOf") fields) = false.

(** [`${escapeXml(k)}:${type}`] for the entries of a nested object. *)
Definition nested_all (entries : list (jstring * value)) (types : list jstring)
  : list jstring :=
  List.map (fun p => escapeXml (fst (fst p)) ++ lit ":" ++ snd p)
           (combine entries types).

(** The upper bound shown for [maxItems]: the code reads
    [prop.maxItems || "∞"], and zero is falsy. *)
Definition shown_max (maxItems : Z) : jstring :=
  if (maxItems =? 0)%Z then infinity_sign else dec_of_Z maxItems.

(** *** Kinds of values *)

(** A plain object. *)
Definition is_object (v : value) : bool :=
  match v with Obj _ => true | _ => false end.

(** The values with an [includes] method: arrays and strings. *)
Definition has_includes (v : value) : bool :=
  match v with Arr _ | Str _ => true | _ => false end.

(** *** Schemas the encoders accept *)

(** What a field of a schema node must hold for the richest encoder to read
    it: [enum], [oneOf] and [anyOf] an array, [pattern] a string; and no
    field is named [toString]. *)
Definition keyword_ok (k : jstring) (x : value) : bool :=
  if jstring_eqb k (lit "enum") || jstring_eqb k (lit "oneOf")
     || jstring_eqb k (lit "anyOf")
  then Array_isArray x
  else if jstring_eqb k (lit "pattern")
       then match x with Str _ => true | _ => false end
       else negb (jstring_eqb k (lit "toString")).

(** A document without null whose objects keep to [keyword_ok]; under
    [properties] the keys are parameter names, and free. *)
Fixpoint node_ok (v : value) : bool :=
  match v with
  | Undefined | Null => false
  | Bool _ | Num _ | Str _ => true
  | Arr l => forallb node_ok l
  | Obj ps =>
      forallb (fun kv =>
                 if jstring_eqb (fst kv) (lit "properties") then
                   match snd kv with
                   | Obj qs => forallb (fun q => node_ok (snd q)) qs
                   | _ => node_ok (snd kv)
                   end
                 else keyword_ok (fst kv) (snd kv) && node_ok (snd kv)) ps
  end.

(** A field that is absent, or holds what its keyword must. *)
Definition absent_or_ok (k : jstring) (x : value) : bool :=
  match x with
  | Undefined => true
  | _ => keyword_ok k x && node_ok x
  end.

(** A [required] the root can read: absent or falsy, an array or a string. *)
Definition required_ok (schema : value) : bool :=
  match schema with
  | Obj fields =>
      let required := lookup (lit "required") fields in
      negb (truthy required) || has_includes required
  | _ => true
  end.

(** For the encoder that maps [escapeXml] over the entries of an enum: the
    entries are strings. *)
Definition strings_only (x : value) : bool :=
  match x with
  | Arr l => forallb (fun e => match e with Str _ => true | _ => false end) l
  | _ => true
  end.

(** *** Where raw text can come from *)

(** A value whose conversion to a string has no angle bracket: its strings
    have none, at any depth of arrays; an object converts to
    [[object Object]]. *)
Fixpoint text_clean (v : value) : bool :=
  match v with
  | Str s => angle_free s
  | Arr l => forallb text_clean l
  | _ => true
  end.

(** The fields the richest encoder embeds as they are, and those holding
    nodes. *)
Definition raw_keys : list jstring :=
  [lit "type"; lit "minItems"; lit "maxItems"; lit "minimum"; lit "maximum";
   lit "multipleOf"; lit "minLength"; lit "maxLength"; lit "pattern"].

Definition node_keys : list jstring :=
  [lit "items"; lit "allOf"; lit "oneOf"; lit "anyOf"].

(** A [default] is embedded as it is for these types; for a string it is
    escaped. *)
Definition default_is_raw (type : value) : bool :=
  is_str type (lit "number") || is_str type (lit "integer")
  || is_str type (lit "boolean").

(** A schema whose raw fields have no angle bracket.  Keys, [const], the
    values of an [enum], string defaults, [description] and the like are
    free; an [enum] is no plain object. *)
Fixpoint raw_clean (v : value) : bool :=
  match v with
  | Arr l => forallb raw_clean l
  | Obj ps =>
      forallb
        (fun kv =>
           if existsb (jstring_eqb (fst kv)) raw_keys then text_clean (snd kv)
           else if jstring_eqb (fst kv) (lit "default")
           then negb (default_is_raw (lookup (lit "type") ps))
                || text_clean (snd kv)
           else if jstring_eqb (fst kv) (lit "enum")
           then negb (is_object (snd kv))
           else if existsb (jstring_eqb (fst kv)) node_keys
           then raw_clean (snd kv)
           else if jstring_eqb (fst kv) (lit "properties") then
             match snd kv with
             | Obj qs => forallb (fun q => raw_clean (snd q)) qs
             | _ => raw_clean (snd kv)
             end
           else true) ps
  | _ => true
  end.

(** The entries of a [properties] field are clean nodes. *)
Definition entries_clean (x : value) : bool :=
  match x with
  | Obj qs => forallb (fun q => raw_clean (snd q)) qs
  | _ => raw_clean x
  end.

(** What [raw_clean] asks of one field of an object. *)
Definition field_clean (ps : list (jstring * value)) (kv : jstring * value)
  : bool :=
  if existsb (jstring_eqb (fst kv)) raw_keys then text_clean (snd kv)
  else if jstring_eqb (fst kv) (lit "default")
  then negb (default_is_raw (lookup (lit "type") ps)) || text_clean (snd kv)
  else if jstring_eqb (fst kv) (lit "enum") then negb (is_object (snd kv))
  else if existsb (jstring_eqb (fst kv)) node_keys then raw_clean (snd kv)
  else if jstring_eqb (fst kv) (lit "properties") then entries_clean (snd kv)
  else true.

(** *** The text the estimator reads *)

(** The words [estimateTokens] counts: the non-empty pieces of the text
    split at white space. *)
Definition words (s : jstring) : Z :=
  Z_length (filter (fun w => (0 <? Z_length w)%Z) (split_spaces [] false s)).

(** The JSON punctuation [estimateTokens] counts. *)
Definition punctuation (s : jstring) : Z := Z_length (filter is_json_punct s).

Definition nonempty (w : jstring) : bool := (0 <? Z_length w)%Z.

(** A text that starts with a character other than white space. *)
Definition starts_visibly (s : jstring) : bool :=
  match s with c :: _ => negb (is_space c) | [] => false end.

(** *** Further example schemas *)

Definition bounded_array : list (jstring * value) :=
  props [("type", str "array"); ("minItems", Num 1); ("maxItems", Num 0)].

Definition array_of_arrays : list (jstring * value) :=
  props [("type", str "array"); ("items", Obj array_root)].

Definition empty_object : list (jstring * value) :=
  props [("type", str "object"); ("properties", Obj [])].

Definition string_or_size : list (jstring * value) :=
  props [("oneOf", Arr [typed "string"; obj [("enum", Arr five_sizes)]])].

Definition long_pattern : list (jstring * value) :=
  props [("type", str "string"); ("pattern", str "0123456789abcdef")].

Definition null_default : list (jstring * value) :=
  props [("type", str "string"); ("default", Null)].

Definition tagged_default : list (jstring * value) :=
  props [("type", str "number"); ("default", str "<b>")].

Definition required_true : list (jstring * value) :=
  props [("type", str "object");
         ("properties", obj [("q", typed "string")]);
         ("required", Bool true)].

(** Every [enum] of the schema holds strings only: the middle snapshot
    hands the entries to [escapeXml] as they are. *)
Fixpoint enum_strings (v : value) : bool :=
  match v with
  | Arr l => forallb enum_strings l
  | Obj ps =>
      forallb (fun kv =>
                 if jstring_eqb (fst kv) (lit "properties") then
                   match snd kv with
                   | Obj qs => forallb (fun q => enum_strings (snd q)) qs
                   | _ => enum_strings (snd kv)
                   end
                 else (if jstring_eqb (fst kv) (lit "enum")
                       then strings_only (snd kv) else true)
                      && enum_strings (snd kv)) ps
  | _ => true
  end.

(** What [enum_strings] asks of a field. *)
Definition enum_field_ok (k : jstring) (x : value) : bool :=
  (if jstring_eqb k (lit "enum") then strings_only x else true)
  && enum_strings x.

Definition tagged_names : list (jstring * value) :=
  props [("type", str "object");
         ("properties", obj [("<b>", obj [("enum", Arr [str "<i>"])])])].

(** The fields of the middle snapshot that hold nodes. *)
Definition nested_keys : list jstring :=
  [lit "items"; lit "oneOf"; lit "anyOf"].

(** What [types_clean] asks of one field of an object, [sub] the test of
    the nodes below. *)
Definition type_field_clean (sub : value -> bool) (kv : jstring * value)
  : bool :=
  if jstring_eqb (fst kv) (lit "type") then text_clean (snd kv)
  else if existsb (jstring_eqb (fst kv)) nested_keys then sub (snd kv)
  else if jstring_eqb (fst kv) (lit "properties") then
    match snd kv with
    | Obj qs => forallb (fun q => sub (snd q)) qs
    | _ => sub (snd kv)
    end
  else true.

(** A schema whose [type] fields have no angle bracket, at every node the
    middle snapshot visits. *)
Fixpoint types_clean (v : value) : bool :=
  match v with
  | Arr l => forallb types_clean l
  | Obj ps => forallb (type_field_clean types_clean) ps
  | _ => true
  end.

Definition tagged_type : list (jstring * value) :=
  props [("type", str "object");
         ("properties",
          obj [("<b>", obj [("enum", Arr [str "<i>"])]);
               ("n", obj [("type", str "number"); ("default", str "<u>")])])].

(** Two batches of one tool. *)
Definition search_tool : list Tool :=
  [{| name := lit "search"; inputSchema := query_schema |}].

Definition ping_tool : list Tool :=
  [{| name := lit "ping"; inputSchema := Undefined |}].

(** * Properties *)

(** ** The repository's test suite, run on the three snapshots *)

Example test_empty_schema :
  Forall (fun f => f Null = Ok sentinel /\ f (obj []) = Ok sentinel
                   /\ f (obj [("properties", obj [])]) = Ok sentinel)
         [Early.jsonSchemaToXml; Clamped.jsonSchemaToXml; Rich.jsonSchemaToXml].
Proof. repeat constructor; vm_compute; repeat split; reflexivity. Qed.

Example test_multiple_parameters :
  Forall (fun f =>
            f test_multiple
            = Ok (lit "<schema>topic*:string, count*:number, include_examples?:boolean</schema>"))
         [Early.jsonSchemaToXml; Clamped.jsonSchemaToXml; Rich.jsonSchemaToXml].
Proof. repeat constructor; vm_compute; repeat split; reflexivity. Qed.

Example test_array_types :
  Forall (fun f =>
            f test_arrays
            = Ok (lit "<schema>tech_stack*:array[string], numbers?:array[number]</schema>"))
         [Early.jsonSchemaToXml; Clamped.jsonSchemaToXml; Rich.jsonSchemaToXml].
Proof. repeat constructor; vm_compute; repeat split; reflexivity. Qed.

Example test_enum_types :
  Forall (fun f =>
            f test_enums
            = Ok (lit "<schema>format*:enum(json|xml|csv), size?:enum</schema>"))
         [Early.jsonSchemaToXml; Clamped.jsonSchemaToXml; Rich.jsonSchemaToXml].
Proof. repeat constructor; vm_compute; repeat split; reflexivity. Qed.

Example test_date_and_url_formats :
  Forall (fun f =>
            f test_formats
            = Ok (lit "<schema>created_date?:date, website?:url, email?:email</schema>"))
         [Early.jsonSchemaToXml; Clamped.jsonSchemaToXml; Rich.jsonSchemaToXml].
Proof. repeat constructor; vm_compute; repeat split; reflexivity. Qed.

(** The test on object types is the one of the first snapshot; the later
    ones expand an object of at most two properties. *)
Example test_object_types :
  Early.jsonSchemaToXml test_object
  = Ok (lit "<schema>requirements*:object</schema>")
  /\ Forall (fun f =>
               f test_object
               = Ok (lit "<schema>requirements*:object{description:string,scale:string}</schema>"))
            [Clamped.jsonSchemaToXml; Rich.jsonSchemaToXml].
Proof. split; repeat constructor; vm_compute; reflexivity. Qed.

Example test_compress_tools :
  Forall (fun f =>
            exists b,
              f test_tools = Ok b
              /\ List.map compressedSchema (compressedTools b)
                 = [lit "<schema>query*:string</schema>";
                    lit "<schema>text*:string, target_lang*:string, source_lang?:string</schema>"]
              /\ (0 < totalReduction b)%Z
              /\ (totalCompressedTokens b < totalOriginalTokens b)%Z)
         [Early.compressToolSchemas; Clamped.compressToolSchemas].
Proof.
  repeat constructor; eexists; (split; [vm_compute; reflexivity|]);
    vm_compute; repeat split; reflexivity.
Qed.

(** ** Strings, [mapM] *)

Lemma jstring_eqb_eq (a b : jstring) : jstring_eqb a b = true <-> a = b.
Proof.
  unfold jstring_eqb. destruct (list_eq_dec N.eq_dec a b); split; congruence.
Qed.


Lemma mapM_length {A B} (f : A -> result B) (l : list A) (ys : list B) :
  mapM f l = Ok ys -> List.length ys = List.length l.
Proof.
  revert ys. induction l as [|x l IH]; simpl; intros ys H.
  - inversion H; reflexivity.
  - destruct (f x) as [y|e]; simpl in *; [|discriminate].
    destruct (mapM f l) as [zs|e]; simpl in *; [|discriminate].
    inversion H; subst. simpl. f_equal. auto.
Qed.

Lemma mapM_app {A B} (f : A -> result B) (l1 l2 : list A) :
  mapM f (l1 ++ l2)
  = (ys1 <- mapM f l1 ;; ys2 <- mapM f l2 ;; Ok (ys1 ++ ys2)).
Proof.
  induction l1 as [|x l1 IH]; cbn [app mapM bind].
  - destruct (mapM f l2); reflexivity.
  - destruct (f x); cbn [bind]; [|reflexivity]. rewrite IH.
    destruct (mapM f l1); cbn [bind]; [|reflexivity].
    destruct (mapM f l2); reflexivity.
Qed.

Lemma mapM_ext_in {A B} (f g : A -> result B) (l : list A) :
  (forall x, In x l -> f x = g x) -> mapM f l = mapM g l.
Proof.
  induction l as [|x l IH]; intros H; cbn [mapM]; [reflexivity|].
  rewrite (H x (or_introl eq_refl)), IH; [reflexivity|].
  intros y Hy. apply H. right; exact Hy.
Qed.

(** ** What [escapeXml] leaves in a text *)

Lemma replace_all_In c rep s x :
  In x (replace_all c rep s) -> In x rep \/ (x <> c /\ In x s).
Proof.
  unfold replace_all. rewrite in_flat_map. intros (y & Hy & Hx).
  destruct (N.eqb_spec y c) as [->|Hne]; [left; exact Hx|].
  destruct Hx as [<-|[]]. right; auto.
Qed.

(** No [<], [>], double or single quote survives [escapeXml]. *)
Lemma escapeXml_no_markup (text : jstring) (c : N) :
  In c (escapeXml text) -> markup c = false.
Proof.
  unfold escapeXml. intros H.
  repeat (apply replace_all_In in H; destruct H as [H | [? H]];
          [cbn in H; repeat (destruct H as [<-|H]; [reflexivity|]); destruct H
          |]).
  unfold markup.
  repeat match goal with
         | Hne : c <> _ |- _ => apply N.eqb_neq in Hne; rewrite ?Hne; clear Hne
         end.
  reflexivity.
Qed.

(** ** The encoder never yields null or undefined *)

Lemma truthy_not_nullish v : truthy v = true -> nullish v = false.
Proof. destruct v; simpl; congruence. Qed.

Lemma or_else_not_nullish a b :
  nullish b = false -> nullish (or_else a b) = false.
Proof.
  unfold or_else. destruct (truthy a) eqn:E; auto using truthy_not_nullish.
Qed.

(** Head-directed case analysis of a computation known to succeed. *)
Ltac run H :=
  repeat
    (match type of H with
     | Ok _ = Ok _ => inversion H; subst; clear H
     | Fail _ = Ok _ => discriminate H
     | bind ?m _ = Ok _ =>
         let E := fresh "E" in destruct m eqn:E; cbn [bind] in H
     | (if ?b then _ else _) = Ok _ =>
         let E := fresh "E" in destruct b eqn:E
     | match ?x with _ => _ end = Ok _ =>
         let E := fresh "E" in destruct x eqn:E
     end).

Lemma Rich_body_not_nullish self p v :
  Rich.getCompactType_body self p = Ok v -> nullish v = false.
Proof.
  unfold Rich.getCompactType_body. intros H.
  run H; try reflexivity.
  apply or_else_not_nullish; reflexivity.
Qed.

Lemma Rich_not_nullish p v : Rich.getCompactType p = Ok v -> nullish v = false.
Proof. unfold Rich.getCompactType. simpl. apply Rich_body_not_nullish. Qed.

(** [xs.map(getCompactType).join(sep)] joins the encoded types. *)
Lemma Array_join_encoded (gct : value -> result value) sep l ts :
  (forall p v, gct p = Ok v -> nullish v = false) ->
  mapM (fun p => t <- gct p ;; ToString t) l = Ok ts ->
  (vs <- mapM gct l ;; Array_join sep vs) = Ok (join sep ts).
Proof.
  intros Hg. unfold Array_join.
  enough (forall ts, mapM (fun p => t <- gct p ;; ToString t) l = Ok ts ->
            exists vs, mapM gct l = Ok vs /\
              mapM (fun x => match x with
                             | Undefined | Null => Ok []
                             | _ => ToString x
                             end) vs = Ok ts) as K.
  { intros H. destruct (K ts H) as (vs & -> & E). cbn [bind]. rewrite E.
    reflexivity. }
  clear ts. induction l as [|x l IH]; intros ts H.
  - inversion H. exists []. split; reflexivity.
  - cbn [mapM] in H.
    destruct (gct x) as [v|] eqn:Ev; cbn [bind] in H; [|discriminate].
    destruct (ToString v) as [t|] eqn:Et; cbn [bind] in H; [|discriminate].
    destruct (mapM (fun p => t <- gct p ;; ToString t) l) as [ts'|] eqn:El;
      cbn [bind] in H; [|discriminate].
    inversion H; subst; clear H.
    destruct (IH ts' eq_refl) as (vs & Evs & Ets).
    exists (v :: vs). cbn [mapM]. rewrite Ev, Evs. cbn [bind].
    split; [reflexivity|].
    assert (match v with Undefined | Null => Ok [] | _ => ToString v end
            = Ok t) as ->.
    { pose proof (Hg _ _ Ev) as Hn.
      destruct v; simpl in Hn; try discriminate; exact Et. }
    cbn [bind]. rewrite Ets. reflexivity.
Qed.

(** ** The recursion bound is adequate *)

Lemma depth_Arr_In x l : In x l -> (depth x <= pred (depth (Arr l)))%nat.
Proof.
  cbn [depth pred]. induction l as [|y l IH]; cbn [In fold_right]; [tauto|].
  intros [->|H]; [lia | specialize (IH H); lia].
Qed.

Lemma depth_Obj_In kv ps :
  In kv ps -> (depth (snd kv) <= pred (depth (Obj ps)))%nat.
Proof.
  cbn [depth pred]. induction ps as [|y l IH]; cbn [In fold_right]; [tauto|].
  intros [->|H]; [lia | specialize (IH H); lia].
Qed.

Lemma find_key_In {V} k (ps : list (jstring * V)) v :
  find_key k ps = Some v -> exists k', In (k', v) ps.
Proof.
  induction ps as [|[k0 v0] r IH]; cbn [find_key In]; [discriminate|].
  destruct (jstring_eqb k0 k).
  - intros H; inversion H; subst. eauto.
  - intros H. destruct (IH H) as [k' Hk]. eauto.
Qed.

Lemma indexed_In {A} (l : list A) :
  forall i kv, In kv (indexed i l) -> In (snd kv) l.
Proof.
  induction l as [|x l IH]; intros i kv; cbn [indexed In]; [tauto|].
  intros [<-|H]; [left; reflexivity | right; eauto].
Qed.

Lemma depth_entries p es :
  Object_entries p = Ok es -> depth_below (pred (depth p)) es.
Proof.
  destruct p as [| |b|z|s|l|ps]; cbn [Object_entries]; intros H;
    inversion H; subst; clear H; intros kv Hin.
  - destruct Hin.
  - destruct Hin.
  - apply indexed_In, in_map_iff in Hin. destruct Hin as (c & <- & _).
    cbn. lia.
  - apply indexed_In in Hin. apply depth_Arr_In. exact Hin.
  - apply depth_Obj_In. exact Hin.
Qed.

Lemma depth_lookup name ps d :
  depth_below d ps -> (depth (lookup name ps) <= d)%nat.
Proof.
  intros H. unfold lookup. destruct (find_key name ps) as [v|] eqn:E.
  - destruct (find_key_In _ _ E) as [k' Hk]. apply (H _ Hk).
  - cbn. lia.
Qed.

Lemma depth_get p name v :
  get p name = Ok v -> (depth v <= pred (depth p))%nat.
Proof.
  destruct p as [| |b|z|s|l|ps]; cbn [get]; intros H; try discriminate.
  - inversion H; cbn; lia.
  - inversion H; cbn; lia.
  - destruct (jstring_eqb name (lit "length")); inversion H; subst.
    + cbn; lia.
    + apply depth_lookup. apply (@depth_entries (Str s)). reflexivity.
  - destruct (jstring_eqb name (lit "length")); inversion H; subst.
    + cbn; lia.
    + apply depth_lookup. apply (@depth_entries (Arr l)). reflexivity.
  - inversion H; subst. apply depth_lookup.
    apply (@depth_entries (Obj ps)). reflexivity.
Qed.

Lemma depth_elements x v :
  In x (elements v) -> (depth x <= pred (depth v))%nat.
Proof.
  destruct v; cbn [elements In]; try tauto. apply depth_Arr_In.
Qed.

Section ObjSetIn.
Variable V : Type.
Implicit Types (ps : list (jstring * V)).

Lemma replace_key_In k v ps kv :
  In kv (replace_key k v ps) -> snd kv = v \/ In kv ps.
Proof.
  induction ps as [|[k0 v0] r IH]; cbn [replace_key In]; [tauto|].
  destruct (jstring_eqb k0 k); cbn [In].
  - intros [<-|H]; [left; reflexivity | right; right; exact H].
  - intros [<-|H]; [right; left; reflexivity|].
    destruct (IH H); [left | right; right]; assumption.
Qed.

Lemma insert_index_In i k v ps kv :
  In kv (insert_index i k v ps) -> snd kv = v \/ In kv ps.
Proof.
  induction ps as [|[k0 v0] r IH]; cbn [insert_index In].
  - intros [<-|[]]. left; reflexivity.
  - destruct (array_index k0) as [j|]; [destruct (j <? i)%N|]; cbn [In].
    + intros [<-|H]; [right; left; reflexivity|].
      destruct (IH H); [left | right; right]; assumption.
    + intros [<-|H]; [left; reflexivity | right; exact H].
    + intros [<-|H]; [left; reflexivity | right; exact H].
Qed.

Lemma obj_set_In k v ps kv :
  In kv (obj_set ps k v) -> snd kv = v \/ In kv ps.
Proof.
  unfold obj_set. destruct (has_key k ps).
  - apply replace_key_In.
  - destruct (array_index k).
    + apply insert_index_In.
    + intros H. apply in_app_or in H. destruct H as [H|[<-|[]]]; auto.
Qed.
End ObjSetIn.

(** A write defines the key among the own properties, or leaves them as
    they are. *)
Lemma Set_property_own o k v :
  own (Set_property o k v) = obj_set (own o) k v
  \/ own (Set_property o k v) = own o.
Proof.
  unfold Set_property, set_prototype.
  destruct (negb (has_key k (own o)) && jstring_eqb k proto_key
            && inherits_setter (proto o)); [|left; reflexivity].
  right. destruct v; reflexivity.
Qed.

(** A write to another key than [__proto__] defines it. *)
Lemma Set_property_defines o k v :
  jstring_eqb k proto_key = false ->
  Set_property o k v = {| own := obj_set (own o) k v; proto := proto o |}.
Proof.
  intros H. unfold Set_property. rewrite H, andb_false_r. reflexivity.
Qed.

(** What holds of the own properties and is kept by the definition of a
    key of the source holds after the assignment. *)
Lemma assign_invariant (P : list (jstring * value) -> Prop)
    (es : list (jstring * value)) : forall o,
  P (own o) ->
  (forall ps kv, In kv es -> P ps -> P (obj_set ps (fst kv) (snd kv))) ->
  P (own (fold_left (fun o kv => Set_property o (fst kv) (snd kv)) es o)).
Proof.
  induction es as [|e es IH]; intros o Ho Hstep; cbn [fold_left];
    [exact Ho|].
  apply IH.
  - destruct (Set_property_own o (fst e) (snd e)) as [-> | ->];
      [apply Hstep; [left; reflexivity | exact Ho] | exact Ho].
  - intros ps kv Hin. apply Hstep. right; exact Hin.
Qed.

(** The same for the merge of the members of an [allOf]. *)
Lemma merge_invariant (P : list (jstring * value) -> Prop) members :
  forall acc merged,
    Rich.mergeAllOfProperties_from acc members = Ok merged ->
    P (own acc) ->
    (forall m ps kv, In m members -> In kv (member_entries m) -> P ps ->
                     P (obj_set ps (fst kv) (snd kv))) ->
    P (own merged).
Proof.
  induction members as [|m rest IH]; intros acc merged H Hacc Hstep;
    cbn [Rich.mergeAllOfProperties_from] in H.
  - inversion H; subst; exact Hacc.
  - destruct (get m (lit "properties")) as [properties|] eqn:Eg;
      cbn [bind] in H; [|discriminate].
    assert (forall m' ps kv, In m' rest -> In kv (member_entries m') ->
                             P ps -> P (obj_set ps (fst kv) (snd kv)))
      as Hrest by (intros m' ps kv Hin; apply Hstep; right; exact Hin).
    destruct (truthy properties) eqn:Et; cbn [bind] in H;
      [|exact (IH _ _ H Hacc Hrest)].
    unfold Object_assign in H.
    destruct (Object_entries properties) as [es|] eqn:Ee; cbn [bind] in H;
      [|discriminate].
    apply (IH _ _ H); [|exact Hrest].
    apply assign_invariant; [exact Hacc|].
    intros ps kv Hin. apply (Hstep m); [left; reflexivity|].
    unfold member_entries, own_entries. rewrite Eg, Et, Ee. exact Hin.
Qed.

(** The object [mergeAllOfProperties] returns, by its own properties. *)
Lemma merged_object allOf merged :
  Rich.mergeAllOfProperties allOf = Ok merged ->
  exists o, Rich.mergeAllOfProperties_from fresh_object allOf = Ok o
            /\ own o = merged.
Proof.
  unfold Rich.mergeAllOfProperties. intros H.
  destruct (Rich.mergeAllOfProperties_from fresh_object allOf) as [o|];
    cbn [bind] in H; [|discriminate].
  exists o. split; [reflexivity | congruence].
Qed.

(** What holds of the values the members bring holds of the merged values. *)
Lemma merged_values (Q : value -> Prop) members merged :
  Rich.mergeAllOfProperties members = Ok merged ->
  (forall m kv, In m members -> In kv (member_entries m) -> Q (snd kv)) ->
  forall kv, In kv merged -> Q (snd kv).
Proof.
  intros H HQ. destruct (merged_object _ H) as (o & Ho & <-).
  apply (@merge_invariant (fun ps => forall kv, In kv ps -> Q (snd kv))
           _ _ _ Ho).
  - intros ? [].
  - intros m ps kv Hm Hkv Hps x Hx.
    destruct (obj_set_In _ _ _ _ Hx) as [->|Hx']; [|apply Hps, Hx'].
    exact (HQ m kv Hm Hkv).
Qed.

(** The entries a member brings are entries of its [properties]. *)
Lemma member_entries_In m kv :
  In kv (member_entries m) ->
  exists properties,
    get m (lit "properties") = Ok properties /\ In kv (own_entries properties).
Proof.
  unfold member_entries.
  destruct (get m (lit "properties")) as [properties|]; [|intros []].
  destruct (truthy properties); [|intros []]. eauto.
Qed.

Lemma depth_member_entries m kv :
  In kv (member_entries m) -> (depth (snd kv) <= pred (pred (depth m)))%nat.
Proof.
  unfold member_entries, own_entries.
  destruct (get m (lit "properties")) as [properties|] eqn:Eg; [|intros []].
  destruct (truthy properties); [|intros []].
  destruct (Object_entries properties) as [es|] eqn:Ee; [|intros []].
  intros Hin. pose proof (depth_get _ _ Eg).
  pose proof (depth_entries _ Ee kv Hin). lia.
Qed.

Lemma depth_merged allOf merged kv :
  Rich.mergeAllOfProperties (elements allOf) = Ok merged ->
  In kv merged -> (depth (snd kv) <= pred (depth allOf))%nat.
Proof.
  intros H. destruct (merged_object _ H) as (o & Ho & <-). revert kv.
  apply (@merge_invariant (depth_below (pred (depth allOf))) _ _ _ Ho).
  - intros ? [].
  - intros m ps kv Hm Hkv Hps x Hx.
    destruct (obj_set_In _ _ _ _ Hx) as [->|Hx']; [|apply Hps, Hx'].
    apply depth_elements in Hm. apply depth_member_entries in Hkv. lia.
Qed.

Lemma depth_union a b l x :
  truthy a || truthy b = true ->
  or_else a (or_else b (Arr [])) = Arr l ->
  In x l -> (depth x <= pred (Nat.max (depth a) (depth b)))%nat.
Proof.
  unfold or_else. intros Ht E Hin.
  destruct (truthy a); cbn [orb] in Ht.
  - subst a. apply depth_Arr_In in Hin. lia.
  - rewrite Ht in E. subst b. apply depth_Arr_In in Hin. lia.
Qed.

Lemma object_depth_pos p :
  negb (truthy p) || negb (typeof_object p) = false -> (1 <= depth p)%nat.
Proof.
  destruct p; cbn; try discriminate; intros; lia.
Qed.

Lemma Rich_nested_prop_ext (f g : value -> result value) kv :
  f (snd kv) = g (snd kv) -> Rich.nested_prop f kv = Rich.nested_prop g kv.
Proof. unfold Rich.nested_prop. intros ->. reflexivity. Qed.

Lemma Rich_union_part_ext (f g : value -> result value) p :
  f p = g p -> Rich.union_part f p = Rich.union_part g p.
Proof. unfold Rich.union_part. intros ->. reflexivity. Qed.

Lemma Clamped_nested_prop_ext (f g : value -> result value) kv :
  f (snd kv) = g (snd kv) ->
  Clamped.nested_prop f kv = Clamped.nested_prop g kv.
Proof. unfold Clamped.nested_prop. intros ->. reflexivity. Qed.

(** Facts on depths gathered from the equations of a branch. *)
Ltac depth_facts :=
  repeat match goal with
    | E : Object_entries _ = Ok ?es, H : In _ ?es |- _ =>
        apply (@depth_entries _ _ E) in H
    | E : Rich.mergeAllOfProperties (elements _) = Ok ?m, H : In _ ?m |- _ =>
        apply (@depth_merged _ _ _ E) in H
    | T : truthy ?a || truthy ?b = true,
      E : or_else ?a (or_else ?b _) = Arr ?l, H : In _ ?l |- _ =>
        apply (@depth_union _ _ _ _ T E) in H
    | H : In _ (elements _) |- _ => apply depth_elements in H
    | E : get _ _ = Ok _ |- _ => apply depth_get in E
    end.

Ltac smaller Hfg := intros; apply Hfg; depth_facts; cbn [depth pred] in *; lia.

(** Both sides run the same code and differ in the recursive call only. *)
Ltac same_branch f g Hfg :=
  repeat
    first
      [ reflexivity
      | match goal with
        | |- context [mapM f ?l] =>
            rewrite (mapM_ext_in f g l) by smaller Hfg
        | |- context [mapM (Rich.nested_prop f) ?l] =>
            rewrite (mapM_ext_in (Rich.nested_prop f) (Rich.nested_prop g) l)
              by (intros; apply Rich_nested_prop_ext; smaller Hfg)
        | |- context [mapM (Clamped.nested_prop f) ?l] =>
            rewrite (mapM_ext_in (Clamped.nested_prop f)
                                 (Clamped.nested_prop g) l)
              by (intros; apply Clamped_nested_prop_ext; smaller Hfg)
        | |- context [mapM (Rich.union_part f) ?l] =>
            rewrite (mapM_ext_in (Rich.union_part f) (Rich.union_part g) l)
              by (intros; apply Rich_union_part_ext; smaller Hfg)
        | |- context [f ?q] => rewrite (Hfg q) by (depth_facts; lia)
        end
      | match goal with
        | |- bind ?m _ = bind ?m' _ =>
            unify m m'; let E := fresh "E" in
            destruct m eqn:E; cbn [bind]; [|reflexivity]
        | |- (if ?b then _ else _) = (if ?b' then _ else _) =>
            unify b b'; let E := fresh "E" in destruct b eqn:E
        | |- match ?x with _ => _ end = match ?x' with _ => _ end =>
            unify x x'; let E := fresh "E" in destruct x eqn:E
        | |- bind (if ?b then _ else _) _ = _ =>
            let E := fresh "E" in destruct b eqn:E
        end ].

(** The body reads its recursive call at strictly shallower values only. *)
Lemma Rich_body_ext (f g : value -> result value) p :
  (forall q, (depth q < depth p)%nat -> f q = g q) ->
  Rich.getCompactType_body f p = Rich.getCompactType_body g p.
Proof.
  intros Hfg. unfold Rich.getCompactType_body.
  destruct (negb (truthy p) || negb (typeof_object p)) eqn:Hobj; [reflexivity|].
  apply object_depth_pos in Hobj.
  same_branch f g Hfg.
Qed.

Lemma Rich_fuel_stable : forall n p,
  (depth p < n)%nat -> Rich.getCompactType_fuel n p = Rich.getCompactType p.
Proof.
  induction n as [n IH] using lt_wf_ind. intros p Hp.
  destruct n as [|n]; [lia|].
  unfold Rich.getCompactType. cbn [Rich.getCompactType_fuel].
  apply Rich_body_ext. intros q Hq.
  rewrite (IH n) by lia. rewrite (IH (depth p)) by lia. reflexivity.
Qed.

(** [getCompactType] is the function the recursive definition of the source
    denotes: it satisfies the equation of its body. *)
Lemma Rich_getCompactType_unfold p :
  Rich.getCompactType p = Rich.getCompactType_body Rich.getCompactType p.
Proof.
  unfold Rich.getCompactType at 1. cbn [Rich.getCompactType_fuel].
  apply Rich_body_ext. intros q Hq. apply Rich_fuel_stable. exact Hq.
Qed.

Lemma Clamped_body_ext (f g : value -> result value) p :
  (forall q, (depth q < depth p)%nat -> f q = g q) ->
  Clamped.getCompactType_body f p = Clamped.getCompactType_body g p.
Proof.
  intros Hfg. unfold Clamped.getCompactType_body.
  destruct (negb (truthy p) || negb (typeof_object p)) eqn:Hobj; [reflexivity|].
  apply object_depth_pos in Hobj.
  same_branch f g Hfg.
Qed.

Lemma Clamped_fuel_stable : forall n p,
  (depth p < n)%nat ->
  Clamped.getCompactType_fuel n p = Clamped.getCompactType p.
Proof.
  induction n as [n IH] using lt_wf_ind. intros p Hp.
  destruct n as [|n]; [lia|].
  unfold Clamped.getCompactType. cbn [Clamped.getCompactType_fuel].
  apply Clamped_body_ext. intros q Hq.
  rewrite (IH n) by lia. rewrite (IH (depth p)) by lia. reflexivity.
Qed.

Lemma Clamped_getCompactType_unfold p :
  Clamped.getCompactType p
  = Clamped.getCompactType_body Clamped.getCompactType p.
Proof.
  unfold Clamped.getCompactType at 1. cbn [Clamped.getCompactType_fuel].
  apply Clamped_body_ext. intros q Hq. apply Clamped_fuel_stable. exact Hq.
Qed.

(** ** No fuel is lost *)

Create HintDb fuel.

(** Head-directed case analysis of a computation assumed out of fuel: what is
    left is the sub-computation that would have run out. *)
Ltac lost H :=
  lazymatch type of H with
  | Ok _ = Fail _ => discriminate H
  | Fail TypeError = Fail OutOfFuel => discriminate H
  | Fail Unmodelled = Fail OutOfFuel => discriminate H
  | bind ?m _ = Fail _ =>
      let E := fresh "E" in
      destruct m eqn:E; cbn [bind] in H;
      [ lost H | inversion H; subst; clear H; lost E ]
  | (if ?b then _ else _) = Fail _ =>
      let E := fresh "E" in destruct b eqn:E; lost H
  | match ?x with _ => _ end = Fail _ =>
      let E := fresh "E" in destruct x eqn:E; lost H
  | _ => idtac
  end.

Ltac fuelled H := lost H; solve [eauto with fuel].

Lemma mapM_lost {A B} (f : A -> result B) l :
  mapM f l = Fail OutOfFuel -> exists x, In x l /\ f x = Fail OutOfFuel.
Proof.
  induction l as [|x l IH]; cbn [mapM]; intros H; [discriminate|].
  destruct (f x) as [y|e] eqn:E; cbn [bind] in H.
  - destruct (mapM f l) as [ys|e]; cbn [bind] in H; [discriminate|].
    destruct (IH H) as (z & Hz & Ez). exists z. split; [right|]; assumption.
  - exists x. split; [left; reflexivity | congruence].
Qed.

Lemma mapM_fuelled {A B} (f : A -> result B) l :
  (forall x, f x = Fail OutOfFuel -> False) ->
  mapM f l = Fail OutOfFuel -> False.
Proof. intros Hf H. destruct (mapM_lost _ _ H) as (x & _ & E). eauto. Qed.

Lemma get_fuelled p n : get p n = Fail OutOfFuel -> False.
Proof.
  destruct p; cbn [get]; try discriminate;
    destruct (jstring_eqb n (lit "length")); discriminate.
Qed.

Lemma ToString_fuelled : forall v, ToString v = Fail OutOfFuel -> False.
Proof.
  enough (forall n v, (depth v < n)%nat -> ToString v = Fail OutOfFuel -> False)
    as K by (intros v; apply (K (S (depth v))); lia).
  induction n as [|n IH]; intros v Hd H; [lia|].
  destruct v as [| |[|]|z|s|l|ps]; cbn [ToString] in H; try discriminate.
  - assert (forall x, In x l -> (depth x < n)%nat) as Hl.
    { intros x Hx. apply depth_Arr_In in Hx. cbn [depth pred] in *. lia. }
    clear Hd. revert H Hl.
    generalize (join (lit ",")). intros j.
    match goal with
    | |- bind (?elems l) _ = _ -> _ => set (go := elems)
    end.
    assert (forall l, (forall x, In x l -> (depth x < n)%nat) ->
                      go l = Fail OutOfFuel -> False) as Hgo.
    { clear l. induction l as [|x l IHl]; intros Hl H; cbn in H;
        [discriminate|].
      fold go in H.
      assert (match x with Undefined | Null => Ok [] | _ => ToString x end
              = Fail OutOfFuel -> False) as Hx.
      { intros Ex. destruct x; try discriminate;
          exact (IH _ (Hl _ (or_introl eq_refl)) Ex). }
      lost H; eauto. apply IHl; auto. intros y Hy. apply Hl. right; exact Hy. }
    intros H Hl. lost H. eauto.
  - destruct (has_key (lit "toString") ps); discriminate.
Qed.
#[local] Hint Resolve get_fuelled ToString_fuelled : fuel.

Lemma toString_fuelled v : toString v = Fail OutOfFuel -> False.
Proof. destruct v; cbn [toString]; try discriminate; eauto with fuel. Qed.

Lemma Array_join_fuelled sep l : Array_join sep l = Fail OutOfFuel -> False.
Proof.
  unfold Array_join. intros H. lost H.
  apply mapM_fuelled in E; [exact E|].
  intros x Hx. destruct x; try discriminate; eauto with fuel.
Qed.

Lemma ToNumber_fuelled v : ToNumber v = Fail OutOfFuel -> False.
Proof.
  destruct v as [| |b|z|s|l|ps]; cbn [ToNumber]; try discriminate.
  destruct (has_key (lit "toString") ps); discriminate.
Qed.
#[local] Hint Resolve toString_fuelled Array_join_fuelled ToNumber_fuelled
  : fuel.

Lemma le_num_fuelled v n : le_num v n = Fail OutOfFuel -> False.
Proof. unfold le_num. intros H. fuelled H. Qed.

Lemma gt_num_fuelled v n : gt_num v n = Fail OutOfFuel -> False.
Proof. unfold gt_num. intros H. fuelled H. Qed.

Lemma Object_entries_fuelled v : Object_entries v = Fail OutOfFuel -> False.
Proof. destruct v; discriminate. Qed.
#[local] Hint Resolve le_num_fuelled gt_num_fuelled Object_entries_fuelled
  : fuel.

Lemma Object_keys_length_fuelled v :
  Object_keys_length v = Fail OutOfFuel -> False.
Proof. unfold Object_keys_length. intros H. fuelled H. Qed.

Lemma Object_assign_fuelled t s : Object_assign t s = Fail OutOfFuel -> False.
Proof. unfold Object_assign. intros H. fuelled H. Qed.
#[local] Hint Resolve Object_keys_length_fuelled Object_assign_fuelled : fuel.

Lemma merge_fuelled members : forall acc,
  Rich.mergeAllOfProperties_from acc members = Fail OutOfFuel -> False.
Proof.
  induction members as [|m rest IH]; intros acc H;
    cbn [Rich.mergeAllOfProperties_from] in H; [discriminate|].
  lost H; eauto with fuel.
Qed.

Lemma mergeAllOfProperties_fuelled members :
  Rich.mergeAllOfProperties members = Fail OutOfFuel -> False.
Proof.
  unfold Rich.mergeAllOfProperties. intros H.
  destruct (Rich.mergeAllOfProperties_from fresh_object members) eqn:E;
    cbn [bind] in H; [discriminate|].
  inversion H; subst. exact (merge_fuelled _ _ E).
Qed.

Lemma constraint_fuelled sign field :
  Rich.constraint sign field = Fail OutOfFuel -> False.
Proof. unfold Rich.constraint. intros H. fuelled H. Qed.

Lemma slice0_fuelled n v : slice0 n v = Fail OutOfFuel -> False.
Proof. destruct v; discriminate. Qed.

Lemma escaped_strings_fuelled vs :
  mapM (fun v => s <- toString v ;; Ok (escapeXml s)) vs = Fail OutOfFuel ->
  False.
Proof.
  apply mapM_fuelled. intros x H. fuelled H.
Qed.

Lemma escapeXml_entries_fuelled vs :
  mapM Clamped.escapeXml_entry vs = Fail OutOfFuel -> False.
Proof.
  apply mapM_fuelled. intros x H. destruct x; discriminate.
Qed.

Lemma types_fuelled l :
  mapM (fun p => get p (lit "type")) l = Fail OutOfFuel -> False.
Proof. apply mapM_fuelled. intros x. apply get_fuelled. Qed.
#[local] Hint Resolve mergeAllOfProperties_fuelled constraint_fuelled
  slice0_fuelled escaped_strings_fuelled escapeXml_entries_fuelled
  types_fuelled : fuel.

Lemma Rich_nested_prop_lost (f : value -> result value) kv :
  Rich.nested_prop f kv = Fail OutOfFuel -> f (snd kv) = Fail OutOfFuel.
Proof.
  unfold Rich.nested_prop. intros H.
  lost H; [exfalso; eauto with fuel | reflexivity].
Qed.

Lemma Clamped_nested_prop_lost (f : value -> result value) kv :
  Clamped.nested_prop f kv = Fail OutOfFuel -> f (snd kv) = Fail OutOfFuel.
Proof.
  unfold Clamped.nested_prop. intros H.
  lost H; [exfalso; eauto with fuel | reflexivity].
Qed.

Lemma Rich_union_part_lost (f : value -> result value) q :
  Rich.union_part f q = Fail OutOfFuel -> f q = Fail OutOfFuel.
Proof.
  unfold Rich.union_part. intros H.
  lost H; try (exfalso; eauto with fuel; fail); assumption || reflexivity.
Qed.

(** The sub-computation that ran out is a recursive call on a shallower
    value, which the hypothesis [Hf] excludes. *)
Ltac recursive_call_lost f Hf :=
  try solve [exfalso; eauto with fuel];
  try match goal with
      | E : mapM (Rich.nested_prop f) _ = Fail OutOfFuel |- _ =>
          apply mapM_lost in E; destruct E as (? & ? & E);
          apply Rich_nested_prop_lost in E
      | E : mapM (Clamped.nested_prop f) _ = Fail OutOfFuel |- _ =>
          apply mapM_lost in E; destruct E as (? & ? & E);
          apply Clamped_nested_prop_lost in E
      | E : mapM (Rich.union_part f) _ = Fail OutOfFuel |- _ =>
          apply mapM_lost in E; destruct E as (? & ? & E);
          apply Rich_union_part_lost in E
      | E : mapM f _ = Fail OutOfFuel |- _ =>
          apply mapM_lost in E; destruct E as (? & ? & E)
      end;
  match goal with
  | E : f ?q = Fail OutOfFuel |- _ =>
      apply (Hf q); [depth_facts; cbn [depth pred] in *; lia | exact E]
  end.

Lemma Rich_body_fuelled (f : value -> result value) p :
  (forall q, (depth q < depth p)%nat -> f q = Fail OutOfFuel -> False) ->
  Rich.getCompactType_body f p = Fail OutOfFuel -> False.
Proof.
  intros Hf H. unfold Rich.getCompactType_body in H.
  destruct (negb (truthy p) || negb (typeof_object p)) eqn:Hobj;
    [discriminate|].
  apply object_depth_pos in Hobj.
  lost H; recursive_call_lost f Hf.
Qed.

(** The encoder never runs out of fuel. *)
Lemma Rich_never_out_of_fuel : forall p,
  Rich.getCompactType p <> Fail OutOfFuel.
Proof.
  enough (forall n p, (depth p < n)%nat ->
                      Rich.getCompactType p = Fail OutOfFuel -> False) as K
    by (intros p H; apply (K (S (depth p)) p); [lia | exact H]).
  induction n as [|n IH]; intros p Hp H; [lia|].
  rewrite Rich_getCompactType_unfold in H.
  apply (@Rich_body_fuelled Rich.getCompactType p); [|exact H].
  intros q Hq. apply IH. lia.
Qed.

Lemma Clamped_body_fuelled (f : value -> result value) p :
  (forall q, (depth q < depth p)%nat -> f q = Fail OutOfFuel -> False) ->
  Clamped.getCompactType_body f p = Fail OutOfFuel -> False.
Proof.
  intros Hf H. unfold Clamped.getCompactType_body in H.
  destruct (negb (truthy p) || negb (typeof_object p)) eqn:Hobj;
    [discriminate|].
  apply object_depth_pos in Hobj.
  lost H; recursive_call_lost f Hf.
Qed.

Lemma Clamped_never_out_of_fuel : forall p,
  Clamped.getCompactType p <> Fail OutOfFuel.
Proof.
  enough (forall n p, (depth p < n)%nat ->
                      Clamped.getCompactType p = Fail OutOfFuel -> False) as K
    by (intros p H; apply (K (S (depth p)) p); [lia | exact H]).
  induction n as [|n IH]; intros p Hp H; [lia|].
  rewrite Clamped_getCompactType_unfold in H.
  apply (@Clamped_body_fuelled Clamped.getCompactType p); [|exact H].
  intros q Hq. apply IH. lia.
Qed.


(** ** Totality and escaping *)

(** C1 (totality).  The encoder raises on inputs the claim lists as safe: a
    property whose [const] is null, at the property level and through the
    root encoder, and an enum holding null; in the snapshot that maps
    [escapeXml] over the enum entries, an enum of numbers. *)
Theorem totality_fails_on_null_const :
  Rich.getCompactType (obj [("const", Null)]) = Fail TypeError
  /\ Rich.jsonSchemaToXml null_const_schema = Fail TypeError
  /\ Rich.getCompactType (obj [("enum", Arr [Null])]) = Fail TypeError
  /\ Clamped.jsonSchemaToXml numeric_enum_schema = Fail TypeError.
Proof. repeat split; reflexivity. Qed.

(** C3 (escaping).  Keys, enum values and string defaults go through
    [escapeXml], a [pattern] does not: its [<] and [>] reach the output as
    they are.  So does a [type] the encoder does not know. *)
Theorem pattern_is_not_escaped :
  Rich.jsonSchemaToXml pattern_schema
  = Ok (lit "<schema>a?:string(/<b>/)</schema>")
  /\ Rich.jsonSchemaToXml raw_type_schema = Ok (lit "<schema>a?:<i></schema>").
Proof. split; reflexivity. Qed.

(** ** The enum display threshold *)

Lemma mapM_map_eq {A B C} (f : A -> result B) (g : B -> C) (l : list A) :
  mapM (fun x => y <- f x ;; Ok (g y)) l
  = (ys <- mapM f l ;; Ok (List.map g ys)).
Proof.
  induction l as [|x l IH]; cbn [mapM bind List.map]; [reflexivity|].
  destruct (f x) as [y|e]; cbn [bind]; [|reflexivity].
  rewrite IH. destruct (mapM f l); reflexivity.
Qed.

Lemma Z_length_leb {A} (l : list A) :
  (Z_length l <=? 3)%Z = (List.length l <=? 3)%nat.
Proof.
  unfold Z_length.
  destruct (Nat.leb_spec (List.length l) 3);
    [apply Z.leb_le | apply Z.leb_gt]; lia.
Qed.

(** C9 (enum threshold), amended.  For a property that the array and const
    branches do not take first, an enum of at most three values renders each
    value converted to a string and escaped, joined by [|] inside
    [enum(...)]; a longer enum renders the bare token [enum].  In the
    snapshot without [const], the entries are escaped as they are and must
    be strings. *)
Theorem enum_display_threshold :
  (forall (fields : list (jstring * value)) (vs : list value),
      is_str (lookup (lit "type") fields) (lit "array") = false ->
      lookup (lit "const") fields = Undefined ->
      lookup (lit "enum") fields = Arr vs ->
      Rich.getCompactType (Obj fields)
      = if (List.length vs <=? 3)%nat
        then ss <- mapM toString vs ;;
             Ok (Str (lit "enum(" ++ join (lit "|") (List.map escapeXml ss)
                        ++ lit ")"))
        else Ok (Str (lit "enum")))
  /\ (forall (fields : list (jstring * value)) (vs : list value),
      is_str (lookup (lit "type") fields) (lit "array") = false ->
      lookup (lit "enum") fields = Arr vs ->
      Clamped.getCompactType (Obj fields)
      = if (List.length vs <=? 3)%nat
        then ss <- mapM Clamped.escapeXml_entry vs ;;
             Ok (Str (lit "enum(" ++ join (lit "|") ss ++ lit ")"))
        else Ok (Str (lit "enum"))).
Proof.
  split.
  - intros fields vs Htype Hconst Henum.
    unfold Rich.getCompactType. cbn [Rich.getCompactType_fuel].
    unfold Rich.getCompactType_body.
    cbn [truthy typeof_object negb orb get bind].
    rewrite Htype, Hconst, Henum.
    cbn [defined truthy Array_isArray andb elements bind].
    unfold ENUM_DISPLAY_THRESHOLD. rewrite Z_length_leb.
    destruct (List.length vs <=? 3)%nat; [|reflexivity].
    rewrite mapM_map_eq. destruct (mapM toString vs); reflexivity.
  - intros fields vs Htype Henum.
    unfold Clamped.getCompactType. cbn [Clamped.getCompactType_fuel].
    unfold Clamped.getCompactType_body.
    cbn [truthy typeof_object negb orb get bind].
    rewrite Htype, Henum.
    cbn [truthy Array_isArray andb elements bind].
    unfold ENUM_DISPLAY_THRESHOLD. rewrite Z_length_leb.
    destruct (List.length vs <=? 3)%nat; reflexivity.
Qed.

Lemma enum_display_threshold_witness :
  (is_str (lookup (lit "type") (props [("enum", Arr three_formats)]))
          (lit "array") = false
   /\ lookup (lit "const") (props [("enum", Arr three_formats)]) = Undefined
   /\ Rich.getCompactType (Obj (props [("enum", Arr three_formats)]))
      = Ok (str "enum(json|xml|csv)"))
  /\ (is_str (lookup (lit "type") (props [("enum", Arr five_sizes)]))
             (lit "array") = false
      /\ Clamped.getCompactType (Obj (props [("enum", Arr five_sizes)]))
         = Ok (str "enum")).
Proof.
  split.
  - split; [reflexivity|]. split; [reflexivity|].
    rewrite (proj1 enum_display_threshold
               (props [("enum", Arr three_formats)]) three_formats
               eq_refl eq_refl eq_refl).
    reflexivity.
  - split; [reflexivity|].
    rewrite (proj2 enum_display_threshold
               (props [("enum", Arr five_sizes)]) five_sizes
               eq_refl eq_refl).
    reflexivity.
Defined.

(** Against C9 as stated: an array-typed property and a property with a
    [const] are encoded by the earlier branches whatever their enum holds,
    and a value with a special character is rendered escaped, not literally. *)
Lemma enum_display_threshold_counterexample :
  Rich.getCompactType (obj [("type", str "array"); ("enum", Arr three_formats)])
  = Ok (str "array[any]")
  /\ Rich.getCompactType (obj [("type", str "array"); ("enum", Arr five_sizes)])
     = Ok (str "array[any]")
  /\ Rich.getCompactType (obj [("const", str "x"); ("enum", Arr [str "x"])])
     = Ok (str "const(x)")
  /\ Rich.getCompactType (obj [("enum", Arr [str "a&b"])])
     = Ok (str "enum(a&amp;b)")
  /\ Rich.getCompactType
       (obj [("type", str "array"); ("enum", Arr three_formats)])
     <> Ok (str "enum(json|xml|csv)")
  /\ Rich.getCompactType
       (obj [("type", str "array"); ("enum", Arr five_sizes)])
     <> Ok (str "enum").
Proof.
  repeat split; try reflexivity; intros H; vm_compute in H; discriminate H.
Qed.

(** C10 (empty enum), amended.  For a property that the array and const
    branches do not take first, an empty enum renders as [enum()]. *)
Theorem empty_enum_renders_empty_parentheses :
  (forall fields : list (jstring * value),
      is_str (lookup (lit "type") fields) (lit "array") = false ->
      lookup (lit "const") fields = Undefined ->
      lookup (lit "enum") fields = Arr [] ->
      Rich.getCompactType (Obj fields) = Ok (str "enum()"))
  /\ (forall fields : list (jstring * value),
      is_str (lookup (lit "type") fields) (lit "array") = false ->
      lookup (lit "enum") fields = Arr [] ->
      Clamped.getCompactType (Obj fields) = Ok (str "enum()")).
Proof.
  split.
  - intros fields Htype Hconst Henum.
    unfold Rich.getCompactType. cbn [Rich.getCompactType_fuel].
    unfold Rich.getCompactType_body.
    cbn [truthy typeof_object negb orb get bind].
    rewrite Htype, Hconst, Henum. reflexivity.
  - intros fields Htype Henum.
    unfold Clamped.getCompactType. cbn [Clamped.getCompactType_fuel].
    unfold Clamped.getCompactType_body.
    cbn [truthy typeof_object negb orb get bind].
    rewrite Htype, Henum. reflexivity.
Qed.

Lemma empty_enum_renders_empty_parentheses_witness :
  is_str (lookup (lit "type") (props [("type", str "string"); ("enum", Arr [])]))
         (lit "array") = false
  /\ lookup (lit "const") (props [("type", str "string"); ("enum", Arr [])])
     = Undefined
  /\ lookup (lit "enum") (props [("type", str "string"); ("enum", Arr [])])
     = Arr []
  /\ Rich.getCompactType (obj [("type", str "string"); ("enum", Arr [])])
     = Ok (str "enum()")
  /\ Clamped.getCompactType (obj [("type", str "string"); ("enum", Arr [])])
     = Ok (str "enum()").
Proof.
  split; [reflexivity|]. split; [reflexivity|]. split; [reflexivity|]. split.
  - apply (proj1 empty_enum_renders_empty_parentheses
             (props [("type", str "string"); ("enum", Arr [])]));
      reflexivity.
  - apply (proj2 empty_enum_renders_empty_parentheses
             (props [("type", str "string"); ("enum", Arr [])]));
      reflexivity.
Defined.

(** Against C10 as stated: with an empty enum, an array-typed property is
    [array[any]] and a property with a [const] is [const(...)]. *)
Lemma empty_enum_counterexample :
  Rich.getCompactType (obj [("type", str "array"); ("enum", Arr [])])
  = Ok (str "array[any]")
  /\ Rich.getCompactType (obj [("const", Num 0); ("enum", Arr [])])
     = Ok (str "const(0)")
  /\ Rich.getCompactType (obj [("type", str "array"); ("enum", Arr [])])
     <> Ok (str "enum()").
Proof.
  repeat split; try reflexivity. intros H; vm_compute in H; discriminate H.
Qed.

(** ** Writing order and enumeration order *)

Lemma has_key_In {V} k (ps : list (jstring * V)) :
  has_key k ps = true -> In k (List.map fst ps).
Proof.
  induction ps as [|[k' v'] r IH]; cbn [has_key List.map In fst];
    [discriminate|].
  intros H. apply orb_true_iff in H. destruct H as [H|H].
  - left. apply jstring_eqb_eq. exact H.
  - right. auto.
Qed.

(** An object written key after key, the keys distinct and none an array
    index, enumerates its properties in the order they were written. *)
Lemma written_order_is_enumeration_order {V} (l : list (jstring * V)) :
  NoDup (List.map fst l) ->
  (forall kv, In kv l -> array_index (fst kv) = None) ->
  fold_left (fun acc kv => obj_set acc (fst kv) (snd kv)) l [] = l.
Proof.
  enough (forall acc,
             NoDup (List.map fst (acc ++ l)) ->
             (forall kv, In kv l -> array_index (fst kv) = None) ->
             fold_left (fun acc kv => obj_set acc (fst kv) (snd kv)) l acc
             = acc ++ l) as K by (apply (K [])).
  induction l as [|[k v] r IH]; intros acc Hnd Hidx; cbn [fold_left fst snd].
  - symmetry. apply app_nil_r.
  - assert (obj_set acc k v = acc ++ [(k, v)]) as ->.
    { unfold obj_set. destruct (has_key k acc) eqn:Eh.
      - exfalso. apply has_key_In in Eh.
        rewrite map_app in Hnd. cbn [List.map fst] in Hnd.
        apply NoDup_remove_2 in Hnd. apply Hnd.
        apply in_or_app. left. exact Eh.
      - pose proof (Hidx (k, v) (or_introl eq_refl)) as Hk.
        cbn [fst] in Hk. rewrite Hk. reflexivity. }
    rewrite IH.
    + rewrite <- app_assoc. reflexivity.
    + rewrite <- app_assoc. exact Hnd.
    + intros kv Hin. apply Hidx. right. exact Hin.
Qed.

(** ** The parameter list at the root *)

Lemma mapM_param_rich req entries :
  mapM (Rich.param (Arr req)) entries
  = (types <- mapM Rich.encodeType (List.map snd entries) ;;
     Ok (emit_all req entries types)).
Proof.
  induction entries as [|[k p] es IH]; [reflexivity|].
  cbn [List.map mapM snd]. rewrite IH.
  unfold Rich.param at 1. cbn [includes bind fst snd].
  change (Rich.encodeType p) with (t <- Rich.getCompactType p ;; ToString t).
  destruct (Rich.getCompactType p) as [v|]; cbn [bind]; [|reflexivity].
  destruct (ToString v) as [t|]; cbn [bind]; [|reflexivity].
  destruct (mapM Rich.encodeType (List.map snd es)); reflexivity.
Qed.

Lemma mapM_param_clamped req entries :
  mapM (Clamped.param (Arr req)) entries
  = (types <- mapM Clamped.encodeType (List.map snd entries) ;;
     Ok (emit_all req entries types)).
Proof.
  induction entries as [|[k p] es IH]; [reflexivity|].
  cbn [List.map mapM snd]. rewrite IH.
  unfold Clamped.param at 1. cbn [includes bind fst snd].
  change (Clamped.encodeType p)
    with (t <- Clamped.getCompactType p ;; ToString t).
  destruct (Clamped.getCompactType p) as [v|]; cbn [bind]; [|reflexivity].
  destruct (ToString v) as [t|]; cbn [bind]; [|reflexivity].
  destruct (mapM Clamped.encodeType (List.map snd es)); reflexivity.
Qed.

(** Entries of a value that is not truthy: there are none. *)
Lemma falsy_entries v :
  truthy v = false -> own_entries v = [].
Proof.
  destruct v as [| |b|z|s|l|ps]; cbn [truthy own_entries Object_entries];
    intros Ht; try discriminate; try reflexivity.
  destruct s; [reflexivity | discriminate].
Qed.

Lemma truthy_entries v :
  truthy v = true -> Object_entries v = Ok (own_entries v).
Proof.
  destruct v as [| |b|z|s|l|ps]; cbn [truthy own_entries Object_entries];
    intros Ht; try discriminate; reflexivity.
Qed.

(** The text of a parameter list. *)
Lemma listing_text (m : result (list jstring)) required entries :
  (params <- (types <- m ;; Ok (emit_all required entries types)) ;;
   Ok (lit "<schema>" ++ join (lit ", ") params ++ lit "</schema>"))
  = (types <- m ;;
     Ok (lit "<schema>" ++ join (lit ", ") (emit_all required entries types)
           ++ lit "</schema>")).
Proof. destruct m; reflexivity. Qed.

(** The last stretch of the root encoder, shared by its two ways in. *)
Lemma listing_of_entries (param : value -> jstring * value -> result jstring)
    fields req :
  or_else (lookup (lit "required") fields) (Arr []) = Arr req ->
  (properties <- get (Obj fields) (lit "properties") ;;
   empty <- (if truthy properties
             then n <- Object_keys_length properties ;; Ok (n =? 0)%Z
             else Ok true) ;;
   if empty then Ok (lit "<schema></schema>")
   else
     required <- get (Obj fields) (lit "required") ;;
     entries <- Object_entries properties ;;
     params <- mapM (param (or_else required (Arr []))) entries ;;
     Ok (lit "<schema>" ++ join (lit ", ") params ++ lit "</schema>"))
  = (params <- mapM (param (Arr req))
                    (own_entries (lookup (lit "properties") fields)) ;;
     Ok (lit "<schema>" ++ join (lit ", ") params ++ lit "</schema>")).
Proof.
  intros Hreq.
  cbn [get bind]. unfold Object_keys_length.
  set (properties := lookup (lit "properties") fields) in *.
  destruct (truthy properties) eqn:Et.
  - rewrite (truthy_entries _ Et). cbn [bind].
    destruct (Z_length (own_entries properties) =? 0)%Z eqn:En.
    + destruct (own_entries properties); [reflexivity|].
      unfold Z_length in En. cbn [List.length] in En.
      apply Z.eqb_eq in En. lia.
    + rewrite Hreq. reflexivity.
  - cbn [bind]. rewrite (falsy_entries _ Et). reflexivity.
Qed.

(** C2 (required markers), amended.  The example schema yields exactly
    [<schema>a*:string, b?:number</schema>].  In general, when the root is
    not taken by the array branch nor by a merging allOf, each entry of
    [properties], in the order the object enumerates its keys, is emitted as
    the escaped key, [*] if the key is in [required] and [?] otherwise, a
    colon and the encoded type; entries are joined by a comma and a space
    inside [<schema>...</schema>].  The encoder fails only as the encoding
    of a property does. *)
Theorem required_marker_listing :
  (Rich.jsonSchemaToXml (Obj marker_schema)
   = Ok (lit "<schema>a*:string, b?:number</schema>")
   /\ Clamped.jsonSchemaToXml (Obj marker_schema)
      = Ok (lit "<schema>a*:string, b?:number</schema>"))
  /\ (forall (fields : list (jstring * value)) (req : list value),
      let entries := own_entries (lookup (lit "properties") fields) in
      is_str (lookup (lit "type") fields) (lit "array")
        && truthy (lookup (lit "items") fields) = false ->
      truthy (lookup (lit "allOf") fields)
        && Array_isArray (lookup (lit "allOf") fields) = false
      \/ Rich.mergeAllOfProperties (elements (lookup (lit "allOf") fields))
         = Ok [] ->
      or_else (lookup (lit "required") fields) (Arr []) = Arr req ->
      Rich.jsonSchemaToXml (Obj fields)
      = (types <- mapM Rich.encodeType (List.map snd entries) ;;
         Ok (lit "<schema>" ++ join (lit ", ") (emit_all req entries types)
               ++ lit "</schema>")))
  /\ (forall (fields : list (jstring * value)) (req : list value),
      let entries := own_entries (lookup (lit "properties") fields) in
      is_str (lookup (lit "type") fields) (lit "array")
        && truthy (lookup (lit "items") fields) = false ->
      or_else (lookup (lit "required") fields) (Arr []) = Arr req ->
      Clamped.jsonSchemaToXml (Obj fields)
      = (types <- mapM Clamped.encodeType (List.map snd entries) ;;
         Ok (lit "<schema>" ++ join (lit ", ") (emit_all req entries types)
               ++ lit "</schema>"))).
Proof.
  split; [split; reflexivity|]. split.
  - intros fields req entries Harr HallOf Hreq.
    pose proof (@listing_of_entries Rich.param fields req Hreq) as Hbranch.
    rewrite mapM_param_rich, listing_text in Hbranch.
    unfold Rich.jsonSchemaToXml.
    cbn [truthy typeof_object negb orb].
    change (get (Obj fields) (lit "type"))
      with (Ok (lookup (lit "type") fields)).
    change (get (Obj fields) (lit "items"))
      with (Ok (lookup (lit "items") fields)).
    change (get (Obj fields) (lit "allOf"))
      with (Ok (lookup (lit "allOf") fields)).
    cbn [bind]. rewrite Harr.
    destruct HallOf as [Hno | Hempty].
    + rewrite Hno. exact Hbranch.
    + destruct (truthy (lookup (lit "allOf") fields)
                && Array_isArray (lookup (lit "allOf") fields)).
      * rewrite Hempty. cbn [bind]. exact Hbranch.
      * exact Hbranch.
  - intros fields req entries Harr Hreq.
    pose proof (@listing_of_entries Clamped.param fields req Hreq) as Hbranch.
    rewrite mapM_param_clamped, listing_text in Hbranch.
    unfold Clamped.jsonSchemaToXml.
    cbn [truthy typeof_object negb orb].
    change (get (Obj fields) (lit "type"))
      with (Ok (lookup (lit "type") fields)).
    change (get (Obj fields) (lit "items"))
      with (Ok (lookup (lit "items") fields)).
    cbn [bind]. rewrite Harr. exact Hbranch.
Qed.

Lemma required_marker_listing_witness :
  is_str (lookup (lit "type") marker_schema) (lit "array")
    && truthy (lookup (lit "items") marker_schema) = false
  /\ truthy (lookup (lit "allOf") marker_schema)
       && Array_isArray (lookup (lit "allOf") marker_schema) = false
  /\ or_else (lookup (lit "required") marker_schema) (Arr []) = Arr [str "a"]
  /\ own_entries (lookup (lit "properties") marker_schema)
     = props [("a", typed "string"); ("b", typed "number")]
  /\ mapM Rich.encodeType [typed "string"; typed "number"]
     = Ok [lit "string"; lit "number"]
  /\ Rich.jsonSchemaToXml (Obj marker_schema)
     = Ok (lit "<schema>"
             ++ join (lit ", ")
                  (emit_all [str "a"]
                     (props [("a", typed "string"); ("b", typed "number")])
                     [lit "string"; lit "number"])
             ++ lit "</schema>").
Proof.
  repeat (split; [reflexivity|]).
  rewrite (proj1 (proj2 required_marker_listing) marker_schema [str "a"]
             eq_refl (or_introl eq_refl) eq_refl).
  reflexivity.
Defined.

(** Against C2 as stated: with [properties] present, an array root and a
    merging allOf emit no entry of it; a key is emitted escaped; and a
    properties object written [b] first, [1] second lists [1] first. *)
Lemma required_marker_listing_counterexample :
  Rich.jsonSchemaToXml array_root_with_properties
  = Ok (lit "<schema>array[string]</schema>")
  /\ Rich.jsonSchemaToXml allOf_root_with_properties
     = Ok (lit "<schema>merged{x?:number}</schema>")
  /\ Rich.jsonSchemaToXml ampersand_key_schema
     = Ok (lit "<schema>a&amp;b?:string</schema>")
  /\ Rich.jsonSchemaToXml index_key_schema
     = Ok (lit "<schema>1?:number, b?:string</schema>")
  /\ Rich.jsonSchemaToXml array_root_with_properties
     <> Ok (lit "<schema>a?:string</schema>")
  /\ Rich.jsonSchemaToXml ampersand_key_schema
     <> Ok (lit "<schema>a&b?:string</schema>")
  /\ Rich.jsonSchemaToXml index_key_schema
     <> Ok (lit "<schema>b?:string, 1?:number</schema>").
Proof.
  repeat split; try reflexivity; intros H; vm_compute in H; discriminate H.
Qed.

(** ** Arrays at the root *)

(** C7 (root-level array), amended.  A root of type [array] with a truthy
    [items] skips the parameter list: a single items node is encoded and
    wrapped as [array[...]], a sequence of items nodes as
    [tuple[t1,t2,...]], inside [<schema>...</schema>]. *)
Theorem root_array_bypass :
  forall (fields : list (jstring * value)) (items : value),
    is_str (lookup (lit "type") fields) (lit "array") = true ->
    lookup (lit "items") fields = items ->
    truthy items = true ->
    (Array_isArray items = false ->
     forall t, Rich.encodeType items = Ok t ->
       Rich.jsonSchemaToXml (Obj fields)
       = Ok (lit "<schema>array[" ++ t ++ lit "]</schema>"))
    /\ (forall l ts, items = Arr l ->
          mapM Rich.encodeType l = Ok ts ->
          Rich.jsonSchemaToXml (Obj fields)
          = Ok (lit "<schema>tuple[" ++ join (lit ",") ts
                  ++ lit "]</schema>")).
Proof.
  intros fields items Htype Hitems Htruthy.
  unfold Rich.jsonSchemaToXml.
  cbn [truthy typeof_object negb orb get bind].
  rewrite Htype, Hitems, Htruthy. cbn [andb].
  split.
  - intros Harr t Ht. rewrite Harr.
    unfold Rich.encodeType in Ht.
    destruct (Rich.getCompactType items) as [v|]; cbn [bind] in *;
      [|discriminate].
    rewrite Ht. reflexivity.
  - intros l ts -> Hts. cbn [Array_isArray elements].
    pose proof (@Array_join_encoded Rich.getCompactType (lit ",") l ts
                  Rich_not_nullish Hts) as E.
    destruct (mapM Rich.getCompactType l) as [vs|]; cbn [bind] in *;
      [|discriminate].
    rewrite E. reflexivity.
Qed.

Lemma root_array_bypass_witness :
  (is_str (lookup (lit "type") array_root) (lit "array") = true
   /\ truthy (typed "string") = true
   /\ Array_isArray (typed "string") = false
   /\ Rich.encodeType (typed "string") = Ok (lit "string")
   /\ Rich.jsonSchemaToXml (Obj array_root)
      = Ok (lit "<schema>array[" ++ lit "string" ++ lit "]</schema>"))
  /\ (is_str (lookup (lit "type") tuple_root) (lit "array") = true
      /\ mapM Rich.encodeType [typed "string"; typed "number"]
         = Ok [lit "string"; lit "number"]
      /\ Rich.jsonSchemaToXml (Obj tuple_root)
         = Ok (lit "<schema>tuple["
                 ++ join (lit ",") [lit "string"; lit "number"]
                 ++ lit "]</schema>")).
Proof.
  split.
  - repeat (split; [reflexivity|]).
    apply (proj1 (@root_array_bypass array_root (typed "string")
                    eq_refl eq_refl eq_refl) eq_refl (lit "string")).
    reflexivity.
  - repeat (split; [reflexivity|]).
    apply (proj2 (@root_array_bypass tuple_root
                    (Arr [typed "string"; typed "number"])
                    eq_refl eq_refl eq_refl)
             [typed "string"; typed "number"] [lit "string"; lit "number"]);
      reflexivity.
Defined.

(** Against C7 as stated: the items node [{type: "string"}] encodes as
    [string], and the root is [<schema>array[string]</schema>], not
    [<schema>] followed by that encoding and [</schema>]. *)
Lemma root_array_bypass_counterexample :
  Rich.encodeType (typed "string") = Ok (lit "string")
  /\ Rich.jsonSchemaToXml (Obj array_root)
     = Ok (lit "<schema>array[string]</schema>")
  /\ Rich.jsonSchemaToXml (Obj array_root)
     <> Ok (lit "<schema>" ++ lit "string" ++ lit "</schema>").
Proof.
  split; [reflexivity|]. split; [reflexivity|].
  intros H; vm_compute in H; discriminate H.
Qed.

(** ** allOf at the root *)

Section FindKey.
Variable V : Type.
Implicit Types (ps : list (jstring * V)) (k : jstring) (v : V).





End FindKey.







(** A member's own key [__proto__] is written through the setter the merged
    object inherits: the write changes the prototype and defines no key, so
    that an [allOf] with that key alone merges to the empty object and the
    root goes on to its [properties].  Once the prototype is null the
    setter is out of reach, and the key is defined as any other. *)
Lemma proto_key_runs_the_setter :
  Rich.mergeAllOfProperties
    [obj [("properties", obj [("__proto__", typed "string")])]]
  = Ok []
  /\ Rich.jsonSchemaToXml
       (obj [("allOf",
              Arr [obj [("properties", obj [("__proto__", typed "string")])]])])
     = Ok sentinel
  /\ Rich.mergeAllOfProperties
       [obj [("properties", obj [("__proto__", Null)])];
        obj [("properties", obj [("__proto__", typed "string")])]]
     = Ok (props [("__proto__", typed "string")]).
Proof. repeat split; reflexivity. Qed.

(** ** The metrics *)

Lemma Math_ceil_nonneg (q : Q) : (0 <= q)%Q -> (0 <= Math_ceil q)%Z.
Proof.
  intros H. unfold Math_ceil. rewrite Zle_Qle.
  apply Qle_trans with q; [exact H | apply Qle_ceiling].
Qed.

Lemma Z_length_nonneg {A} (l : list A) : (0 <= Z_length l)%Z.
Proof. unfold Z_length. lia. Qed.

Lemma inject_Z_nonneg z : (0 <= z)%Z -> (0 <= inject_Z z)%Q.
Proof. intros H. change 0%Q with (inject_Z 0). rewrite <- Zle_Qle. exact H. Qed.

Lemma estimateTokens_Str (s : jstring) :
  exists n, Clamped.estimateTokens (Str s) = Ok n /\ (0 <= n)%Z.
Proof.
  unfold Clamped.estimateTokens. destruct s as [|c s'].
  - exists 0%Z. split; [reflexivity | lia].
  - cbn [truthy negb].
    destruct (Z_length (c :: s') <? 20)%Z; eexists; (split; [reflexivity|]);
      apply Math_ceil_nonneg.
    + apply Qle_shift_div_l; [reflexivity|].
      rewrite Qmult_0_l. apply inject_Z_nonneg, Z_length_nonneg.
    + apply Qle_trans with (0 + 0)%Q; [discriminate|].
      apply Qplus_le_compat; apply Qmult_le_0_compat;
        try apply inject_Z_nonneg, Z_length_nonneg; discriminate.
Qed.

Lemma estimateTokens_JSON (v : value) :
  exists n, Clamped.estimateTokens (JSON_stringify v) = Ok n /\ (0 <= n)%Z.
Proof.
  unfold JSON_stringify. destruct (serialize [] v) as [s|].
  - apply estimateTokens_Str.
  - exists 0%Z. split; [reflexivity | lia].
Qed.

Lemma Math_round_0 : Math_round 0 = 0%Z.
Proof. reflexivity. Qed.

Section Doubles.
Local Open Scope Q_scope.

(** *** Rounding to a double is monotone *)

Lemma pow2_pos e : 0 < pow2 e.
Proof. apply Qpower_0_lt. reflexivity. Qed.

Lemma pow2_plus a b : pow2 (a + b) == pow2 a * pow2 b.
Proof. apply Qpower_plus. discriminate. Qed.

Lemma pow2_le a b : (a <= b)%Z -> pow2 a <= pow2 b.
Proof. intros H. apply Qpower_le_compat_l; [exact H | discriminate]. Qed.

Lemma pow2_lt_inv a b : pow2 a < pow2 b -> (a < b)%Z.
Proof. intros H. apply (Qpower_lt_compat_l_inv _ _ _ H). reflexivity. Qed.

Lemma pow2_inject n : (0 <= n)%Z -> inject_Z (2 ^ n) == pow2 n.
Proof. intros H. apply Zpower_Qpower. exact H. Qed.

(** The floor and the nearest integer. *)
Lemma nearest_even_floor q :
  (Qfloor q <= nearest_even q <= Qfloor q + 1)%Z.
Proof.
  unfold nearest_even.
  destruct (Qcompare _ _); [destruct (Z.even _)| |]; lia.
Qed.

Lemma nearest_even_ge q m : inject_Z m <= q -> (m <= nearest_even q)%Z.
Proof.
  intros H. apply Z.le_trans with (Qfloor q); [|apply nearest_even_floor].
  rewrite <- (Qfloor_Z m). apply Qfloor_resp_le. exact H.
Qed.

Lemma nearest_even_le q m : q <= inject_Z m -> (nearest_even q <= m)%Z.
Proof.
  intros H.
  assert (Qfloor q <= m)%Z as Hf
    by (rewrite <- (Qfloor_Z m); apply Qfloor_resp_le; exact H).
  destruct (Z.eq_dec (Qfloor q) m) as [E|E].
  - assert (q == inject_Z (Qfloor q)) as Hq.
    { apply Qle_antisym; [rewrite E; exact H | apply Qfloor_le]. }
    unfold nearest_even.
    assert (q - inject_Z (Qfloor q) == 0) as H0 by (rewrite <- Hq; ring).
    rewrite H0. cbn. lia.
  - pose proof (nearest_even_floor q). lia.
Qed.

Lemma Qfloor_eq_le x y :
  x <= y -> Qfloor x = Qfloor y ->
  x - inject_Z (Qfloor x) <= y - inject_Z (Qfloor y).
Proof.
  intros H E. rewrite E. apply Qplus_le_compat; [exact H | apply Qle_refl].
Qed.

Lemma nearest_even_mono x y : x <= y -> (nearest_even x <= nearest_even y)%Z.
Proof.
  intros H.
  pose proof (Qfloor_resp_le _ _ H) as Hf.
  destruct (Z.eq_dec (Qfloor x) (Qfloor y)) as [E|E].
  - pose proof (Qfloor_eq_le H E) as Hr.
    unfold nearest_even. rewrite <- E in *.
    destruct (Qcompare_spec (x - inject_Z (Qfloor x)) (1 # 2)) as [Hx|Hx|Hx];
      destruct (Qcompare_spec (y - inject_Z (Qfloor x)) (1 # 2)) as [Hy|Hy|Hy];
      try destruct (Z.even (Qfloor x)); try lia; exfalso.
    all: apply (Qlt_irrefl (1 # 2)).
    all: first
      [ rewrite Hx in Hr;
        apply Qle_lt_trans with (y - inject_Z (Qfloor x)); assumption
      | rewrite Hy in Hr;
        apply Qlt_le_trans with (x - inject_Z (Qfloor x)); assumption
      | apply Qlt_trans with (x - inject_Z (Qfloor x)); [assumption|];
        apply Qle_lt_trans with (y - inject_Z (Qfloor x)); assumption ].
  - pose proof (nearest_even_floor x). pose proof (nearest_even_floor y). lia.
Qed.

Lemma Qmake_div n d : n # d == inject_Z n / inject_Z (Z.pos d).
Proof. apply Qmake_Qdiv. Qed.

(** The exponent brackets the rational. *)
Lemma exponent_spec q :
  0 < q -> pow2 (exponent q) <= q /\ q < pow2 (exponent q + 1).
Proof.
  intros Hq. destruct q as [n d]. unfold exponent. cbn [Qnum Qden].
  assert (0 < n)%Z as Hn by (unfold Qlt in Hq; cbn in Hq; lia).
  set (a := Z.log2 n). set (b := Z.log2 (Z.pos d)).
  assert (0 <= a)%Z as Ha by apply Z.log2_nonneg.
  assert (0 <= b)%Z as Hb by apply Z.log2_nonneg.
  destruct (Z.log2_spec n Hn) as [Hn1 Hn2]. fold a in Hn1, Hn2.
  destruct (Z.log2_spec (Z.pos d) (Pos2Z.is_pos d)) as [Hd1 Hd2].
  fold b in Hd1, Hd2.
  assert (inject_Z n < pow2 (a + 1)) as Un.
  { rewrite <- pow2_inject by lia. rewrite <- Zlt_Qlt.
    replace (a + 1)%Z with (Z.succ a) by lia. exact Hn2. }
  assert (pow2 a <= inject_Z n) as Ln.
  { rewrite <- pow2_inject by lia. rewrite <- Zle_Qle. exact Hn1. }
  assert (inject_Z (Z.pos d) < pow2 (b + 1)) as Ud.
  { rewrite <- pow2_inject by lia. rewrite <- Zlt_Qlt.
    replace (b + 1)%Z with (Z.succ b) by lia. exact Hd2. }
  assert (pow2 b <= inject_Z (Z.pos d)) as Ld.
  { rewrite <- pow2_inject by lia. rewrite <- Zle_Qle. exact Hd1. }
  assert (0 < inject_Z (Z.pos d)) as Pd by reflexivity.
  assert (n # d < pow2 (a - b + 1)) as Upper.
  { rewrite Qmake_div. apply Qlt_shift_div_r; [exact Pd|].
    apply Qlt_le_trans with (pow2 (a + 1)); [exact Un|].
    replace (a + 1)%Z with ((a - b + 1) + b)%Z by lia.
    rewrite pow2_plus. apply Qmult_le_l; [apply pow2_pos | exact Ld]. }
  assert (pow2 (a - b - 1) <= n # d) as Lower.
  { rewrite Qmake_div. apply Qle_shift_div_l; [exact Pd|].
    apply Qle_trans with (pow2 a); [|exact Ln].
    replace a with ((a - b - 1) + (b + 1))%Z at 2 by lia.
    rewrite pow2_plus. apply Qmult_le_l; [apply pow2_pos|].
    apply Qlt_le_weak. exact Ud. }
  destruct (Qle_bool (pow2 (a - b)) (n # d)) eqn:E.
  - apply Qle_bool_iff in E. split; assumption.
  - split; [exact Lower|].
    replace (a - b - 1 + 1)%Z with (a - b)%Z by lia.
    apply Qnot_le_lt. intros H. apply Qle_bool_iff in H. congruence.
Qed.

Lemma exponent_mono x y : 0 < x -> x <= y -> (exponent x <= exponent y)%Z.
Proof.
  intros Hx Hxy.
  assert (0 < y) as Hy by (apply Qlt_le_trans with x; assumption).
  destruct (exponent_spec Hx) as [Lx _]. destruct (exponent_spec Hy) as [_ Uy].
  enough (exponent x < exponent y + 1)%Z by lia.
  apply pow2_lt_inv. apply Qle_lt_trans with x; [exact Lx|].
  apply Qle_lt_trans with y; assumption.
Qed.

(** A rounded positive rational stays in the binade of the rational. *)
Lemma round53_bounds q :
  0 < q ->
  pow2 (exponent q) <= round53 q /\ round53 q <= pow2 (exponent q + 1).
Proof.
  intros Hq. destruct (exponent_spec Hq) as [L U]. unfold round53.
  set (e := (exponent q - 52)%Z).
  assert (pow2 52 <= q / pow2 e) as Ls.
  { apply Qle_shift_div_l; [apply pow2_pos|]. rewrite <- pow2_plus.
    replace (52 + e)%Z with (exponent q) by (unfold e; lia). exact L. }
  assert (q / pow2 e <= pow2 53) as Us.
  { apply Qle_shift_div_r; [apply pow2_pos|]. rewrite <- pow2_plus.
    replace (53 + e)%Z with (exponent q + 1)%Z by (unfold e; lia).
    apply Qlt_le_weak. exact U. }
  split.
  - replace (exponent q) with (52 + e)%Z at 1 by (unfold e; lia).
    rewrite pow2_plus. apply Qmult_le_compat_r; [|apply Qlt_le_weak, pow2_pos].
    rewrite <- (@pow2_inject 52) by lia. rewrite <- Zle_Qle.
    apply nearest_even_ge. rewrite (@pow2_inject 52) by lia. exact Ls.
  - replace (exponent q + 1)%Z with (53 + e)%Z by (unfold e; lia).
    rewrite pow2_plus. apply Qmult_le_compat_r; [|apply Qlt_le_weak, pow2_pos].
    rewrite <- (@pow2_inject 53) by lia. rewrite <- Zle_Qle.
    apply nearest_even_le. rewrite (@pow2_inject 53) by lia. exact Us.
Qed.

Lemma round53_mono x y : 0 < x -> x <= y -> round53 x <= round53 y.
Proof.
  intros Hx Hxy.
  assert (0 < y) as Hy by (apply Qlt_le_trans with x; assumption).
  pose proof (exponent_mono Hx Hxy) as He.
  destruct (Z.eq_dec (exponent x) (exponent y)) as [E|E].
  - unfold round53. rewrite E.
    apply Qmult_le_compat_r; [|apply Qlt_le_weak, pow2_pos].
    rewrite <- Zle_Qle. apply nearest_even_mono.
    apply Qmult_le_compat_r; [exact Hxy|].
    apply Qlt_le_weak, Qinv_lt_0_compat, pow2_pos.
  - apply Qle_trans with (pow2 (exponent x + 1));
      [apply (round53_bounds Hx)|].
    apply Qle_trans with (pow2 (exponent y)); [|apply (round53_bounds Hy)].
    apply pow2_le. lia.
Qed.

Lemma round53_pos q : 0 < q -> 0 < round53 q.
Proof.
  intros Hq. apply Qlt_le_trans with (pow2 (exponent q));
    [apply pow2_pos | apply (round53_bounds Hq)].
Qed.

Lemma to_double_nonneg q : 0 <= q -> 0 <= to_double q.
Proof.
  intros H. unfold to_double. destruct q as [[|n|n] d]; cbn [Qnum].
  - apply Qle_refl.
  - apply Qlt_le_weak, round53_pos. reflexivity.
  - exfalso. unfold Qle in H. cbn in H. lia.
Qed.

Lemma to_double_nonpos q : q <= 0 -> to_double q <= 0.
Proof.
  intros H. unfold to_double. destruct q as [[|n|n] d]; cbn [Qnum].
  - apply Qle_refl.
  - exfalso. unfold Qle in H. cbn in H. lia.
  - apply (Qopp_le_compat 0). apply Qlt_le_weak, round53_pos. reflexivity.
Qed.

(** Rounding to a double is monotone. *)
Lemma to_double_mono x y : x <= y -> to_double x <= to_double y.
Proof.
  intros H. destruct (Qlt_le_dec 0 x) as [Hx|Hx].
  - assert (0 < y) as Hy by (apply Qlt_le_trans with x; assumption).
    unfold to_double.
    destruct x as [[|n|n] d]; try (exfalso; unfold Qlt in Hx; cbn in Hx; lia).
    destruct y as [[|m|m] c]; try (exfalso; unfold Qlt in Hy; cbn in Hy; lia).
    cbn [Qnum]. apply round53_mono; assumption.
  - destruct (Qlt_le_dec y 0) as [Hy|Hy].
    + unfold to_double.
      destruct y as [[|m|m] c]; try (exfalso; unfold Qlt in Hy; cbn in Hy; lia).
      assert (Z.neg m # c < 0) as Hy' by exact Hy.
      destruct x as [[|n|n] d].
      * exfalso. apply (Qlt_irrefl 0). apply Qle_lt_trans with (Z.neg m # c);
          assumption.
      * exfalso. unfold Qle in Hx. cbn in Hx. lia.
      * cbn [Qnum]. apply Qopp_le_compat. apply round53_mono; [reflexivity|].
        apply Qopp_le_compat. exact H.
    + apply Qle_trans with 0;
        [apply to_double_nonpos | apply to_double_nonneg]; assumption.
Qed.

Lemma to_double_comp x y : x == y -> to_double x == to_double y.
Proof.
  intros H. apply Qle_antisym; apply to_double_mono; rewrite H; apply Qle_refl.
Qed.

Lemma to_double_1 : to_double 1 == 1.
Proof. vm_compute. reflexivity. Qed.

Lemma to_double_100 : to_double 100 == 100.
Proof. vm_compute. reflexivity. Qed.

(** A ratio in [0, 1] gives a percentage in [0, 100], and a ratio that is
    not positive one that is not positive. *)
Lemma percentage_bounds x :
  0 <= x -> x <= 1 -> 0 <= fmul (to_double x) 100 <= 100.
Proof.
  intros H0 H1.
  assert (0 <= to_double x) as L by (apply to_double_nonneg; exact H0).
  assert (to_double x <= 1) as U
    by (rewrite <- to_double_1; apply to_double_mono; exact H1).
  unfold fmul. split.
  - apply to_double_nonneg. apply Qmult_le_0_compat; [exact L | discriminate].
  - rewrite <- to_double_100 at 2. apply to_double_mono.
    setoid_replace 100 with (1 * 100) at 2 by reflexivity.
    apply Qmult_le_compat_r; [exact U | discriminate].
Qed.

Lemma percentage_nonpos x : x <= 0 -> fmul (to_double x) 100 <= 0.
Proof.
  intros H. unfold fmul. apply to_double_nonpos.
  setoid_replace 0 with (0 * 100) by reflexivity.
  apply Qmult_le_compat_r; [apply to_double_nonpos; exact H | discriminate].
Qed.

Lemma ratio_bounds (o c : Z) :
  (0 <= c)%Z -> (c < o)%Z ->
  0 <= inject_Z (o - c) / inject_Z o /\ inject_Z (o - c) / inject_Z o <= 1.
Proof.
  intros Hc Hlt.
  destruct o as [|p|p]; try lia.
  unfold Qle, Qdiv, Qmult, Qinv, inject_Z. cbn [Qnum Qden].
  split; nia.
Qed.

Lemma ratio_at_most_1 (o c : Z) :
  (0 < o)%Z -> (0 <= c)%Z -> inject_Z (o - c) / inject_Z o <= 1.
Proof.
  intros Ho Hc.
  destruct o as [|p|p]; try lia.
  unfold Qle, Qdiv, Qmult, Qinv, inject_Z. cbn [Qnum Qden]. nia.
Qed.

Lemma ratio_below_minus_one_percent (o c : Z) :
  (0 < o)%Z -> (o <= 100 * (c - o))%Z ->
  inject_Z (o - c) / inject_Z o <= - (1 # 100).
Proof.
  intros Ho Hpc.
  destruct o as [|p|p]; try lia.
  unfold Qle, Qdiv, Qmult, Qinv, Qopp, inject_Z. cbn [Qnum Qden]. nia.
Qed.

Lemma percentage_mono x y :
  x <= y -> fmul (to_double x) 100 <= fmul (to_double y) 100.
Proof.
  intros H. unfold fmul. apply to_double_mono.
  apply Qmult_le_compat_r; [apply to_double_mono; exact H | discriminate].
Qed.

Lemma percentage_at_most_100 x : x <= 1 -> fmul (to_double x) 100 <= 100.
Proof.
  intros H. rewrite <- to_double_100 at 2. unfold fmul. apply to_double_mono.
  setoid_replace 100 with (1 * 100) at 2 by reflexivity.
  apply Qmult_le_compat_r; [|discriminate].
  rewrite <- to_double_1. apply to_double_mono. exact H.
Qed.

Lemma Math_round_mono x y : x <= y -> (Math_round x <= Math_round y)%Z.
Proof.
  intros H. unfold Math_round. apply Qfloor_resp_le.
  apply Qplus_le_compat; [exact H | apply Qle_refl].
Qed.

Lemma ratio_nonpos (o c : Z) :
  (0 < o)%Z -> (o <= c)%Z -> inject_Z (o - c) / inject_Z o <= 0.
Proof.
  intros Ho Hle.
  destruct o as [|p|p]; try lia.
  unfold Qle, Qdiv, Qmult, Qinv, inject_Z. cbn [Qnum Qden]. nia.
Qed.
End Doubles.

(** The percentage of a positive saving lies in [0, 100]. *)
Lemma saving_bounds (o c : Z) :
  (0 <= c)%Z -> (c < o)%Z ->
  (0 <= fmul (fdiv (inject_Z (o - c)) (inject_Z o)) 100)%Q
  /\ (fmul (fdiv (inject_Z (o - c)) (inject_Z o)) 100 <= 100)%Q.
Proof.
  intros Hc Hlt. destruct (ratio_bounds Hc Hlt) as [H0 H1].
  apply percentage_bounds; assumption.
Qed.

Lemma saving_nonpos (o c : Z) :
  (0 < o)%Z -> (o <= c)%Z ->
  (fmul (fdiv (inject_Z (o - c)) (inject_Z o)) 100 <= 0)%Q.
Proof.
  intros Ho Hle. apply percentage_nonpos, ratio_nonpos; assumption.
Qed.

Lemma Math_round_comp (x y : Q) : (x == y)%Q -> Math_round x = Math_round y.
Proof. intros H. unfold Math_round. rewrite H. reflexivity. Qed.

Lemma Math_round_bounds (x : Q) :
  (0 <= x)%Q -> (x <= 100)%Q -> (0 <= Math_round x <= 100)%Z.
Proof.
  intros H0 H100. unfold Math_round. split.
  - change 0%Z with (Qfloor 0). apply Qfloor_resp_le.
    apply Qle_trans with (0 + 0)%Q; [discriminate|].
    apply Qplus_le_compat; [exact H0 | discriminate].
  - change 100%Z with (Qfloor (100 + (1 # 2))). apply Qfloor_resp_le.
    apply Qplus_le_compat; [exact H100 | apply Qle_refl].
Qed.

(** The guarded assignment of the source is the clamped percentage. *)
Lemma guarded_reduction (o c : Z) :
  (0 <= o)%Z -> (0 <= c)%Z ->
  Math_round (if (0 <? o)%Z && (c <? o)%Z
              then fmul (fdiv (inject_Z (o - c)) (inject_Z o)) 100
              else 0)
  = clamped_reduction o c
  /\ (0 <= clamped_reduction o c <= 100)%Z.
Proof.
  intros Ho Hc. unfold clamped_reduction.
  destruct (Z.eqb_spec o 0) as [->|Hne].
  - cbn [Z.ltb Z.compare andb]. split; [reflexivity | lia].
  - replace (0 <? o)%Z with true by (symmetry; apply Z.ltb_lt; lia).
    cbn [andb]. destruct (Z.ltb_spec c o) as [Hlt|Hge].
    + destruct (saving_bounds Hc Hlt) as [H0 H100].
      rewrite (Math_round_comp (Q.max_r _ _ H0)).
      split; [reflexivity | apply Math_round_bounds; assumption].
    + assert (0 < o)%Z as Hpos by lia.
      rewrite (Math_round_comp (Q.max_l _ _ (saving_nonpos Hpos Hge))).
      split; [reflexivity | rewrite Math_round_0; lia].
Qed.

(** The percentage is that of the doubles: for 40 tokens against 17 the
    exact percentage is 57.5, the double below it, and the reduction 57. *)
Lemma reduction_rounds_the_double :
  clamped_reduction 40 17 = 57%Z
  /\ Math_round ((inject_Z (40 - 17) / inject_Z 40) * 100) = 58%Z.
Proof. split; vm_compute; reflexivity. Qed.

(** The whole percentages are reached exactly. *)
Lemma whole_percentage (k : Z) :
  (0 <= k <= 100)%Z ->
  Math_round (fmul (to_double (inject_Z k / 100)) 100) = k.
Proof.
  intros Hk.
  assert (forallb
            (fun n => (Math_round
                         (fmul (to_double (inject_Z (Z.of_nat n) / 100)) 100)
                       =? Z.of_nat n)%Z) (seq 0 101) = true) as Hall
    by (vm_compute; reflexivity).
  rewrite forallb_forall in Hall.
  specialize (Hall (Z.to_nat k)). rewrite Z2Nat.id in Hall by lia.
  apply Z.eqb_eq, Hall, in_seq. lia.
Qed.

(** Rounded to doubles, the reduction is still the exact percentage rounded
    to a whole number, up or down: it is at least every whole percentage
    the exact one reaches and at most every one it does not exceed. *)
Lemma reduction_brackets_the_exact_percentage (o c k : Z) :
  (0 < o)%Z -> (0 <= c)%Z -> (0 <= k <= 100)%Z ->
  ((k * o <= 100 * (o - c))%Z -> (k <= clamped_reduction o c)%Z)
  /\ ((100 * (o - c) <= k * o)%Z -> (clamped_reduction o c <= k)%Z).
Proof.
  intros Ho Hc Hk. unfold clamped_reduction.
  replace (o =? 0)%Z with false by (symmetry; apply Z.eqb_neq; lia).
  assert (forall x, (0 <= x)%Q -> Math_round (Qmax 0 x) = Math_round x) as Hmax
    by (intros x Hx; apply Math_round_comp, Q.max_r, Hx).
  assert (0 <= fmul (to_double (inject_Z k / 100)) 100)%Q as Hk0.
  { apply percentage_bounds.
    - unfold Qle, Qdiv, Qmult, Qinv, inject_Z. cbn [Qnum Qden]. lia.
    - unfold Qle, Qdiv, Qmult, Qinv, inject_Z. cbn [Qnum Qden]. lia. }
  split; intros H.
  - rewrite <- (whole_percentage Hk) at 1. rewrite <- (Hmax _ Hk0).
    apply Math_round_mono, Q.max_le_compat_l, percentage_mono.
    destruct o as [|p|p]; try lia.
    unfold Qle, Qdiv, Qmult, Qinv, inject_Z. cbn [Qnum Qden]. nia.
  - rewrite <- (whole_percentage Hk) at 1. rewrite <- (Hmax _ Hk0).
    apply Math_round_mono, Q.max_le_compat_l. unfold fdiv.
    apply percentage_mono.
    destruct o as [|p|p]; try lia.
    unfold Qle, Qdiv, Qmult, Qinv, inject_Z. cbn [Qnum Qden]. nia.
Qed.

Lemma compress_each_spec (f : value -> result SchemaCompressionResult) tools :
  forall o c,
    compress_each f tools (o, c)
    = match mapM f (List.map inputSchema tools) with
      | Ok rs => Ok (entries_of tools rs,
                     (o + total (List.map originalTokens rs),
                      c + total (List.map compressedTokens rs))%Z)
      | Fail e => Fail e
      end.
Proof.
  induction tools as [|t rest IH]; intros o c;
    cbn [compress_each List.map mapM].
  - cbn [total List.map fold_right]. rewrite !Z.add_0_r. reflexivity.
  - destruct (f (inputSchema t)) as [r|e]; cbn [bind]; [|reflexivity].
    cbn [fst snd]. rewrite IH.
    destruct (mapM f (List.map inputSchema rest)) as [rs|e]; cbn [bind];
      [|reflexivity].
    cbn [fst snd List.map total fold_right]. unfold entries_of.
    cbn [combine List.map fst snd].
    fold (total (List.map originalTokens rs)).
    fold (total (List.map compressedTokens rs)).
    rewrite !Z.add_assoc. reflexivity.
Qed.

Lemma compress_ok schema c :
  Clamped.jsonSchemaToXml schema = Ok c ->
  exists o k,
    Clamped.compressSchemaWithMetrics schema
    = Ok {| compressed := c; originalTokens := o; compressedTokens := k;
            reduction := clamped_reduction o k |}
    /\ (0 <= o)%Z /\ (0 <= k)%Z.
Proof.
  intros Hc. unfold Clamped.compressSchemaWithMetrics. rewrite Hc. cbn [bind].
  destruct (estimateTokens_JSON schema) as (o & -> & Ho).
  destruct (estimateTokens_Str c) as (k & -> & Hk).
  cbn [bind]. exists o, k.
  rewrite (proj1 (guarded_reduction Ho Hk)). auto.
Qed.

Lemma compress_tokens_nonneg schema r :
  Clamped.compressSchemaWithMetrics schema = Ok r ->
  (0 <= originalTokens r)%Z /\ (0 <= compressedTokens r)%Z.
Proof.
  intros H.
  destruct (Clamped.jsonSchemaToXml schema) as [c|e] eqn:Ec.
  - destruct (compress_ok _ Ec) as (o & k & E & Ho & Hk).
    rewrite E in H. inversion H; subst. cbn. auto.
  - unfold Clamped.compressSchemaWithMetrics in H. rewrite Ec in H. discriminate.
Qed.

Lemma mapM_tokens_nonneg schemas : forall rs,
  mapM Clamped.compressSchemaWithMetrics schemas = Ok rs ->
  (0 <= total (List.map originalTokens rs))%Z
  /\ (0 <= total (List.map compressedTokens rs))%Z.
Proof.
  induction schemas as [|x l IH]; intros rs H; cbn [mapM] in H.
  - inversion H. cbn. lia.
  - destruct (Clamped.compressSchemaWithMetrics x) as [r|] eqn:Er;
      cbn [bind] in H; [|discriminate].
    destruct (mapM Clamped.compressSchemaWithMetrics l) as [rs'|];
      cbn [bind] in H; [|discriminate].
    inversion H; subst. cbn [List.map total fold_right].
    destruct (compress_tokens_nonneg _ Er), (IH rs' eq_refl).
    unfold total in *. lia.
Qed.

Lemma batch_of_results tools rs :
  mapM Clamped.compressSchemaWithMetrics (List.map inputSchema tools) = Ok rs ->
  Clamped.compressToolSchemas tools
  = Ok {| compressedTools := entries_of tools rs;
          totalReduction :=
            clamped_reduction (total (List.map originalTokens rs))
                              (total (List.map compressedTokens rs));
          totalOriginalTokens := total (List.map originalTokens rs);
          totalCompressedTokens := total (List.map compressedTokens rs) |}.
Proof.
  intros H. unfold Clamped.compressToolSchemas.
  rewrite compress_each_spec, H. cbn [bind fst snd]. rewrite !Z.add_0_l.
  destruct (mapM_tokens_nonneg _ H) as [Ho Hk].
  rewrite <- (proj1 (guarded_reduction Ho Hk)).
  destruct ((0 <? total (List.map originalTokens rs))%Z
            && (total (List.map compressedTokens rs)
                <? total (List.map originalTokens rs))%Z);
    [reflexivity | rewrite Math_round_0; reflexivity].
Qed.

Lemma entries_of_app pre post rs1 rs2 :
  List.length rs1 = List.length pre ->
  entries_of (pre ++ post) (rs1 ++ rs2)
  = entries_of pre rs1 ++ entries_of post rs2.
Proof.
  unfold entries_of. revert rs1.
  induction pre as [|t pre IH]; intros [|r rs1] H; try discriminate.
  - reflexivity.
  - cbn [app combine List.map]. f_equal. apply IH. injection H; auto.
Qed.

Lemma entries_of_length tools rs :
  List.length rs = List.length tools ->
  List.length (entries_of tools rs) = List.length tools.
Proof.
  intros H. unfold entries_of. rewrite length_map, length_combine. lia.
Qed.

Lemma total_app l1 l2 : total (l1 ++ l2) = (total l1 + total l2)%Z.
Proof.
  unfold total. induction l1 as [|x l1 IH]; cbn [app fold_right]; [reflexivity|].
  rewrite IH. lia.
Qed.

Lemma compress_absent :
  Clamped.compressSchemaWithMetrics Undefined = Ok absent_result.
Proof. reflexivity. Qed.

(** Failure of the wrapper is failure of the encoder. *)
Lemma compress_fails schema e :
  Clamped.jsonSchemaToXml schema = Fail e ->
  Clamped.compressSchemaWithMetrics schema = Fail e.
Proof.
  intros H. unfold Clamped.compressSchemaWithMetrics. rewrite H. reflexivity.
Qed.

(** C4 (clamped reduction).  For every schema the metrics wrapper fails only
    as the encoder does; the result it returns carries the encoder's string
    and a [reduction] that is the rounded percentage saved, clamped at zero,
    and zero when the original counts no token: it lies between 0 and 100.
    The percentage is that of the code, whose quotient and product are
    rounded to doubles.
    The same holds of [totalReduction] over the summed counts of a batch,
    which fails only as the compression of one of its tools does. *)
Theorem reduction_is_clamped :
  (forall schema,
      match Clamped.compressSchemaWithMetrics schema with
      | Ok r =>
          Clamped.jsonSchemaToXml schema = Ok (compressed r)
          /\ reduction r
             = clamped_reduction (originalTokens r) (compressedTokens r)
          /\ (0 <= reduction r <= 100)%Z
      | Fail e => Clamped.jsonSchemaToXml schema = Fail e
      end)
  /\ (forall tools,
      match Clamped.compressToolSchemas tools with
      | Ok b =>
          totalReduction b
          = clamped_reduction (totalOriginalTokens b) (totalCompressedTokens b)
          /\ (0 <= totalReduction b <= 100)%Z
      | Fail e =>
          mapM Clamped.compressSchemaWithMetrics (List.map inputSchema tools)
          = Fail e
      end).
Proof.
  split.
  - intros schema.
    destruct (Clamped.jsonSchemaToXml schema) as [c|e] eqn:Ec.
    + destruct (compress_ok _ Ec) as (o & k & -> & Ho & Hk). cbn.
      split; [reflexivity|]. split; [reflexivity|].
      apply (guarded_reduction Ho Hk).
    + rewrite (compress_fails _ Ec). reflexivity.
  - intros tools.
    destruct (mapM Clamped.compressSchemaWithMetrics
                (List.map inputSchema tools)) as [rs|e] eqn:Hrs.
    + rewrite (batch_of_results tools Hrs). cbn.
      split; [reflexivity|].
      destruct (mapM_tokens_nonneg _ Hrs) as [Ho Hk].
      apply (guarded_reduction Ho Hk).
    + unfold Clamped.compressToolSchemas.
      rewrite compress_each_spec, Hrs. reflexivity.
Qed.

(** On a null schema, where the sentinel is longer than the JSON text, and
    on a batch of two tools. *)
Lemma reduction_is_clamped_witness :
  (Clamped.compressSchemaWithMetrics Null
   = Ok {| compressed := sentinel; originalTokens := 2; compressedTokens := 6;
           reduction := 0 |}
   /\ (0 <= 0 <= 100)%Z)
  /\ (exists b,
        Clamped.compressToolSchemas two_tools = Ok b
        /\ totalReduction b
           = clamped_reduction (totalOriginalTokens b)
                               (totalCompressedTokens b)
        /\ (0 <= totalReduction b <= 100)%Z).
Proof.
  split.
  - split; [reflexivity|].
    exact (proj2 (proj2 (proj1 reduction_is_clamped Null))).
  - pose proof (proj2 reduction_is_clamped two_tools) as H.
    destruct (Clamped.compressToolSchemas two_tools) as [b|e] eqn:E.
    + exists b. split; [reflexivity | exact H].
    + vm_compute in E. discriminate E.
Defined.

(** The first snapshot does not clamp: a null schema, one token of JSON
    against five of sentinel, has reduction -400. *)
Lemma Early_reduction_negative :
  Early.compressSchemaWithMetrics Null
  = Ok {| compressed := sentinel; originalTokens := 1; compressedTokens := 5;
          reduction := -400 |}.
Proof. reflexivity. Qed.

(** C5 (batch aggregation).  For every sequence of tools, the batch fails
    only as the compression of one of its tools does; otherwise its result
    holds one entry per tool, in order, with the tool's name and compressed
    string, its token counts are the sums of the per-tool counts and its
    [totalReduction] is the clamped percentage of those sums. *)
Theorem batch_aggregation :
  forall tools : list Tool,
    match mapM Clamped.compressSchemaWithMetrics (List.map inputSchema tools)
    with
    | Ok rs =>
        List.length rs = List.length tools
        /\ Clamped.compressToolSchemas tools
           = Ok {| compressedTools := entries_of tools rs;
                   totalReduction :=
                     clamped_reduction (total (List.map originalTokens rs))
                                       (total (List.map compressedTokens rs));
                   totalOriginalTokens := total (List.map originalTokens rs);
                   totalCompressedTokens :=
                     total (List.map compressedTokens rs) |}
    | Fail e => Clamped.compressToolSchemas tools = Fail e
    end.
Proof.
  intros tools.
  destruct (mapM Clamped.compressSchemaWithMetrics
              (List.map inputSchema tools)) as [rs|e] eqn:H.
  - split.
    + rewrite (mapM_length _ _ H). apply length_map.
    + apply batch_of_results. exact H.
  - unfold Clamped.compressToolSchemas.
    rewrite compress_each_spec, H. reflexivity.
Qed.

(** Two tools with reductions 94 and 0: the batch reduction is 77, the
    percentage of the sums 35 and 8, not the average 47. *)
Lemma batch_aggregation_witness :
  mapM Clamped.compressSchemaWithMetrics (List.map inputSchema two_tools)
  = Ok [query_result; absent_result]
  /\ Clamped.compressToolSchemas two_tools
     = Ok {| compressedTools :=
               [{| tool_name := lit "search";
                   compressedSchema := lit "<schema>query*:string</schema>" |};
                {| tool_name := lit "ping"; compressedSchema := sentinel |}];
             totalReduction := 77;
             totalOriginalTokens := 35 + 0;
             totalCompressedTokens := 2 + 6 |}.
Proof.
  split; [reflexivity|].
  pose proof (batch_aggregation two_tools) as H.
  change (mapM Clamped.compressSchemaWithMetrics
            (List.map inputSchema two_tools))
    with (Ok [query_result; absent_result]) in H.
  exact (proj2 H).
Defined.

(** C6 (absent schema in a batch).  A tool without [inputSchema] compresses
    to the sentinel with 0 original and 6 compressed tokens.  Put anywhere
    in a batch, it makes no difference to whether the batch compresses; in
    the result its entry holds the sentinel and the totals have grown by
    those counts. *)
Theorem absent_schema_tolerated :
  Clamped.compressSchemaWithMetrics Undefined = Ok absent_result
  /\ forall (pre post : list Tool) (t : Tool),
       inputSchema t = Undefined ->
       match Clamped.compressToolSchemas (pre ++ post) with
       | Ok b =>
           exists b',
             Clamped.compressToolSchemas (pre ++ t :: post) = Ok b'
             /\ compressedTools b'
                = firstn (List.length pre) (compressedTools b)
                    ++ {| tool_name := name t; compressedSchema := sentinel |}
                    :: skipn (List.length pre) (compressedTools b)
             /\ totalOriginalTokens b' = (totalOriginalTokens b + 0)%Z
             /\ totalCompressedTokens b' = (totalCompressedTokens b + 6)%Z
       | Fail e => Clamped.compressToolSchemas (pre ++ t :: post) = Fail e
       end.
Proof.
  split; [exact compress_absent|].
  intros pre post t Ht.
  unfold Clamped.compressToolSchemas at 1 3.
  rewrite !compress_each_spec, !map_app, !mapM_app.
  cbn [List.map mapM]. rewrite Ht, compress_absent. cbn [bind].
  destruct (mapM Clamped.compressSchemaWithMetrics (List.map inputSchema pre))
    as [rs1|] eqn:E1; cbn [bind]; [|reflexivity].
  destruct (mapM Clamped.compressSchemaWithMetrics (List.map inputSchema post))
    as [rs2|] eqn:E2; cbn [bind]; [|reflexivity].
  assert (List.length rs1 = List.length pre) as L1
    by (rewrite (mapM_length _ _ E1); apply length_map).
  assert (mapM Clamped.compressSchemaWithMetrics
            (List.map inputSchema (pre ++ t :: post))
          = Ok (rs1 ++ absent_result :: rs2)) as E.
  { rewrite map_app, mapM_app, E1. cbn [List.map mapM bind].
    rewrite Ht, compress_absent, E2. reflexivity. }
  eexists. split; [exact (batch_of_results _ E)|].
  cbn [compressedTools totalOriginalTokens totalCompressedTokens fst snd].
  rewrite !entries_of_app by exact L1.
  rewrite !map_app, !total_app. cbn [List.map total fold_right originalTokens
    compressedTokens absent_result].
  fold (total (List.map originalTokens rs2)).
  fold (total (List.map compressedTokens rs2)).
  assert (List.length (entries_of pre rs1) = List.length pre) as L
    by (apply entries_of_length; exact L1).
  rewrite <- L, firstn_app, skipn_app, firstn_all, skipn_all, Nat.sub_diag.
  cbn [firstn skipn]. rewrite app_nil_r. cbn [app].
  split; [reflexivity|]. split; lia.
Qed.

Lemma absent_schema_tolerated_witness :
  inputSchema {| name := lit "ping"; inputSchema := Undefined |} = Undefined
  /\ Clamped.compressToolSchemas
       ([{| name := lit "search"; inputSchema := query_schema |}] ++ [])
     = Ok {| compressedTools :=
               [{| tool_name := lit "search";
                   compressedSchema := lit "<schema>query*:string</schema>" |}];
             totalReduction := 94;
             totalOriginalTokens := 35;
             totalCompressedTokens := 2 |}
  /\ exists b',
       Clamped.compressToolSchemas two_tools = Ok b'
       /\ compressedTools b'
          = [{| tool_name := lit "search";
                compressedSchema := lit "<schema>query*:string</schema>" |};
             {| tool_name := lit "ping"; compressedSchema := sentinel |}]
       /\ totalOriginalTokens b' = (35 + 0)%Z
       /\ totalCompressedTokens b' = (2 + 6)%Z.
Proof.
  split; [reflexivity|]. split; [reflexivity|].
  pose proof (proj2 absent_schema_tolerated
                [{| name := lit "search"; inputSchema := query_schema |}] []
                {| name := lit "ping"; inputSchema := Undefined |} eq_refl)
    as H.
  change (Clamped.compressToolSchemas
            ([{| name := lit "search"; inputSchema := query_schema |}] ++ []))
    with (Ok {| compressedTools :=
                  [{| tool_name := lit "search";
                      compressedSchema :=
                        lit "<schema>query*:string</schema>" |}];
                totalReduction := 94;
                totalOriginalTokens := 35;
                totalCompressedTokens := 2 |}) in H.
  exact H.
Defined.

(** The first snapshot raises on a tool without [inputSchema]: its estimator
    reads the length of what [JSON.stringify] returned, which is undefined. *)
Lemma Early_absent_schema_raises :
  Early.compressToolSchemas [{| name := lit "ping"; inputSchema := Undefined |}]
  = Fail TypeError.
Proof. reflexivity. Qed.

(** ** The first snapshot *)

(** The first snapshot emits keys as they are and has no array branch at
    the root. *)
Lemma Early_key_not_escaped :
  Early.jsonSchemaToXml (obj [("properties", obj [("<b>", typed "string")])])
  = Ok (lit "<schema><b>?:string</schema>").
Proof. reflexivity. Qed.

Lemma Early_no_root_array :
  Early.jsonSchemaToXml (Obj array_root) = Ok sentinel.
Proof. reflexivity. Qed.

(** * Further properties of the code *)

(** ** Outcomes, [mapM] and field access *)

Lemma Ok_inj {A} (a b : A) : Ok a = Ok b -> a = b.
Proof. congruence. Qed.

Lemma mapM_failed {A B} (f : A -> result B) l e :
  mapM f l = Fail e -> exists x, In x l /\ f x = Fail e.
Proof.
  induction l as [|x l IH]; cbn [mapM]; intros H; [discriminate|].
  destruct (f x) as [y|e'] eqn:E; cbn [bind] in H.
  - destruct (mapM f l) as [ys|e'']; cbn [bind] in H; [discriminate|].
    destruct (IH H) as (z & Hz & Ez). exists z. split; [right|]; assumption.
  - exists x. split; [left; reflexivity | congruence].
Qed.

Lemma mapM_In {A B} (f : A -> result B) l : forall ys y,
  mapM f l = Ok ys -> In y ys -> exists x, In x l /\ f x = Ok y.
Proof.
  induction l as [|x l IH]; cbn [mapM]; intros ys y H Hy.
  - apply Ok_inj in H. subst. destruct Hy.
  - destruct (f x) as [z|] eqn:E; cbn [bind] in H; [|discriminate].
    destruct (mapM f l) as [zs|]; cbn [bind] in H; [|discriminate].
    apply Ok_inj in H. subst ys. destruct Hy as [<-|Hy].
    + exists x. split; [left; reflexivity | exact E].
    + destruct (IH _ _ eq_refl Hy) as (x' & Hx' & E'). exists x'.
      split; [right|]; assumption.
Qed.

Lemma mapM_fails_at {A B} (f : A -> result B) l x e :
  In x l -> f x = Fail e -> exists e', mapM f l = Fail e'.
Proof.
  induction l as [|y l IH]; cbn [In mapM]; [tauto|].
  intros [->|Hin] Hx.
  - rewrite Hx. cbn [bind]. eauto.
  - destruct (f y); cbn [bind]; [|eauto].
    destruct (IH Hin Hx) as [e' ->]. cbn [bind]. eauto.
Qed.

(** As [run], the returned value kept as the source writes it. *)
Ltac returned H :=
  repeat
    (match type of H with
     | Fail _ = Ok _ => discriminate H
     | bind ?m _ = Ok _ =>
         let E := fresh "E" in destruct m eqn:E; cbn [bind] in H
     | (if ?b then _ else _) = Ok _ =>
         let E := fresh "E" in destruct b eqn:E
     | match ?x with _ => _ end = Ok _ =>
         let E := fresh "E" in destruct x eqn:E
     end);
  try (apply Ok_inj in H; subst).

(** The blocks that returned are taken apart as well. *)
Ltac blocks :=
  repeat match goal with
    | E : (if _ then _ else _) = Ok _ |- _ => progress returned E
    | E : bind _ _ = Ok _ |- _ => progress returned E
    end.

(** Head-directed case analysis of a computation assumed to raise: what is
    left is the sub-computation that raised. *)
Ltac failed H :=
  lazymatch type of H with
  | Ok _ = Fail _ => discriminate H
  | bind ?m _ = Fail _ =>
      let E := fresh "E" in
      destruct m eqn:E; cbn [bind] in H;
      [ failed H | inversion H; subst; clear H; failed E ]
  | (if ?b then _ else _) = Fail _ =>
      let E := fresh "E" in destruct b eqn:E; failed H
  | match ?x with _ => _ end = Fail _ =>
      let E := fresh "E" in destruct x eqn:E; failed H
  | _ => idtac
  end.

Ltac bool_facts :=
  repeat match goal with
    | H : _ && _ = true |- _ => apply andb_true_iff in H; destruct H
    end.

Ltac shallower := depth_facts; cbn [depth pred] in *; lia.

(** *** Decimal numerals are made of digits *)

Lemma string_of_uint_digits u :
  forallb is_digit (lit (NilZero.string_of_uint u)) = true
  /\ lit (NilZero.string_of_uint u) <> [].
Proof.
  assert (forall u, forallb is_digit (lit (NilEmpty.string_of_uint u)) = true)
    as K.
  { clear u. induction u; cbn; auto. }
  destruct u; cbn; try (split; [apply K | discriminate]).
  split; reflexivity || discriminate.
Qed.

Lemma dec_of_N_digits n :
  forallb is_digit (dec_of_N n) = true /\ dec_of_N n <> [].
Proof. apply string_of_uint_digits. Qed.

(** A name with a character that is no digit is not the key of an element. *)
Lemma lookup_indexed {A} (name : jstring) (l : list A) :
  forallb is_digit name = false -> forall i, find_key name (indexed i l) = None.
Proof.
  intros Hname. induction l as [|x l IH]; intros i; cbn [indexed find_key];
    [reflexivity|].
  destruct (jstring_eqb (dec_of_N i) name) eqn:E; [|apply IH].
  apply jstring_eqb_eq in E. subst name.
  rewrite (proj1 (dec_of_N_digits i)) in Hname. discriminate.
Qed.

(** What is not a plain object has none of the fields the encoder reads. *)
Lemma get_no_field v name :
  is_object v = false -> nullish v = false ->
  forallb is_digit name = false -> jstring_eqb name (lit "length") = false ->
  get v name = Ok Undefined.
Proof.
  intros Hobj Hnull Hname Hlen.
  destruct v as [| |b|z|s|l|ps]; try discriminate; cbn [get]; try reflexivity;
    rewrite Hlen; unfold lookup; rewrite lookup_indexed by exact Hname;
    reflexivity.
Qed.

Lemma get_cases p k a :
  get p k = Ok a ->
  forallb is_digit k = false -> jstring_eqb k (lit "length") = false ->
  a = Undefined \/ exists fields, p = Obj fields /\ a = lookup k fields.
Proof.
  intros Hg Hd Hl. destruct (is_object p) eqn:Ho.
  - destruct p as [| |b|z|s|l|fields]; try discriminate. right.
    exists fields. cbn [get] in Hg. apply Ok_inj in Hg. auto.
  - left. destruct (nullish p) eqn:Hn; [destruct p; discriminate|].
    rewrite (@get_no_field p k Ho Hn Hd Hl) in Hg. congruence.
Qed.

Lemma get_total p name e : nullish p = false -> get p name = Fail e -> False.
Proof.
  destruct p; cbn [get nullish]; try discriminate;
    destruct (jstring_eqb name (lit "length")); discriminate.
Qed.

Lemma find_key_In_key {V} k (ps : list (jstring * V)) v :
  find_key k ps = Some v -> In (k, v) ps.
Proof.
  induction ps as [|[k0 v0] r IH]; cbn [find_key In]; [discriminate|].
  destruct (jstring_eqb k0 k) eqn:E.
  - apply jstring_eqb_eq in E. intros H; inversion H; subst. left; reflexivity.
  - intros H. right. auto.
Qed.

Lemma entries_total v e : truthy v = true -> Object_entries v = Fail e -> False.
Proof. intros H. rewrite (truthy_entries _ H). discriminate. Qed.

Lemma keys_length_total v e :
  truthy v = true -> Object_keys_length v = Fail e -> False.
Proof.
  intros H. unfold Object_keys_length. rewrite (truthy_entries _ H).
  discriminate.
Qed.

Lemma Z_length_leb_2 {A} (l : list A) :
  (Z_length l <=? 2)%Z = (List.length l <=? 2)%nat.
Proof.
  unfold Z_length.
  destruct (Nat.leb_spec (List.length l) 2);
    [apply Z.leb_le | apply Z.leb_gt]; lia.
Qed.

Lemma Z_length_ltb_20 {A} (l : list A) :
  (Z_length l <? 20)%Z = (List.length l <? 20)%nat.
Proof.
  unfold Z_length.
  destruct (Nat.ltb_spec (List.length l) 20);
    [apply Z.ltb_lt | apply Z.ltb_ge]; lia.
Qed.

Lemma Z_length_eqb_0 {A} (l : list A) : l <> [] -> (Z_length l =? 0)%Z = false.
Proof.
  intros H. destruct l; [congruence|]. apply Z.eqb_neq.
  unfold Z_length. cbn [List.length]. lia.
Qed.

Lemma Z_length_ltb_0 {A} (l : list A) :
  (0 <? Z_length l)%Z = match l with [] => false | _ => true end.
Proof.
  destruct l; [reflexivity|]. apply Z.ltb_lt.
  unfold Z_length. cbn [List.length]. lia.
Qed.

(** ** [escapeXml] *)

Lemma replace_all_app c rep a b :
  replace_all c rep (a ++ b) = replace_all c rep a ++ replace_all c rep b.
Proof. apply flat_map_app. Qed.

Lemma escapeXml_app a b : escapeXml (a ++ b) = escapeXml a ++ escapeXml b.
Proof. unfold escapeXml. rewrite !replace_all_app. reflexivity. Qed.

(** The five characters, one after the other, then any other one. *)
Ltac by_character c :=
  destruct (N.eqb_spec c 38) as [->|?]; [reflexivity|];
  destruct (N.eqb_spec c 60) as [->|?]; [reflexivity|];
  destruct (N.eqb_spec c 62) as [->|?]; [reflexivity|];
  destruct (N.eqb_spec c 34) as [->|?]; [reflexivity|];
  destruct (N.eqb_spec c 39) as [->|?]; [reflexivity|].

Lemma escapeXml_unit c : escapeXml [c] = entity c.
Proof.
  unfold entity. by_character c.
  unfold escapeXml, replace_all. cbn [flat_map app].
  repeat match goal with
         | H : c <> _ |- _ => apply N.eqb_neq in H
         end.
  repeat (match goal with H : (c =? _)%N = false |- _ => rewrite H end;
          cbn [flat_map app]).
  reflexivity.
Qed.

Lemma escapeXml_flat_map s : escapeXml s = flat_map entity s.
Proof.
  induction s as [|c s IH]; [reflexivity|].
  change (c :: s) with ([c] ++ s).
  rewrite escapeXml_app, escapeXml_unit, IH. reflexivity.
Qed.

(** X1.  The five replacements, made one after the other over the whole
    text, amount to replacing each character of the input once: the
    ampersand of an entity written by an earlier replacement is never
    escaped again by a later one. *)
Theorem escapeXml_replaces_each_character_once (s : jstring) :
  escapeXml s = flat_map entity s.
Proof. apply escapeXml_flat_map. Qed.

Lemma entity_length c : (1 <= List.length (entity c) <= 6)%nat.
Proof.
  unfold entity.
  repeat match goal with
         | |- context [if ?b then _ else _] => destruct b
         end; cbn; lia.
Qed.

Lemma escapeXml_length s : (List.length s <= List.length (escapeXml s))%nat.
Proof.
  rewrite escapeXml_flat_map.
  induction s as [|c s IH]; cbn [flat_map List.length]; [lia|].
  rewrite length_app. pose proof (entity_length c). lia.
Qed.

Lemma entity_plain c : plain c = true -> entity c = [c].
Proof.
  unfold plain, entity. intros H. apply negb_true_iff in H.
  repeat (apply orb_false_iff in H; destruct H as [H ?]).
  repeat match goal with E : (_ =? _)%N = false |- _ => rewrite E; clear E end.
  reflexivity.
Qed.

Lemma entity_special c :
  plain c = false -> exists e, In e entity_names /\ entity c = 38%N :: e.
Proof.
  unfold plain, entity, entity_names. intros H.
  destruct (N.eqb_spec c 38); [eexists; split; [|reflexivity]; cbn; tauto|].
  destruct (N.eqb_spec c 60); [eexists; split; [|reflexivity]; cbn; tauto|].
  destruct (N.eqb_spec c 62); [eexists; split; [|reflexivity]; cbn; tauto|].
  destruct (N.eqb_spec c 34); [eexists; split; [|reflexivity]; cbn; tauto|].
  destruct (N.eqb_spec c 39); [eexists; split; [|reflexivity]; cbn; tauto|].
  discriminate H.
Qed.

(** Two characters with entities that agree on their first characters are
    the same character. *)
Lemma entity_head_injective c d a b :
  entity c ++ a = entity d ++ b -> c = d /\ a = b.
Proof.
  unfold entity.
  destruct (N.eqb_spec c 38) as [->|?]; [|
  destruct (N.eqb_spec c 60) as [->|?]; [|
  destruct (N.eqb_spec c 62) as [->|?]; [|
  destruct (N.eqb_spec c 34) as [->|?]; [|
  destruct (N.eqb_spec c 39) as [->|?]]]]];
  (destruct (N.eqb_spec d 38) as [->|?]; [|
   destruct (N.eqb_spec d 60) as [->|?]; [|
   destruct (N.eqb_spec d 62) as [->|?]; [|
   destruct (N.eqb_spec d 34) as [->|?]; [|
   destruct (N.eqb_spec d 39) as [->|?]]]]]);
  cbn [lit list_ascii_of_string List.map N_of_ascii app];
  intros H; inversion H; subst; try congruence; auto.
Qed.

Lemma flat_map_entity_injective a : forall b,
  flat_map entity a = flat_map entity b -> a = b.
Proof.
  induction a as [|c a IH]; intros [|d b]; cbn [flat_map]; intros H.
  - reflexivity.
  - pose proof (entity_length d). destruct (entity d); [cbn in *; lia|].
    discriminate H.
  - pose proof (entity_length c). destruct (entity c); [cbn in *; lia|].
    discriminate H.
  - apply entity_head_injective in H. destruct H as [-> H].
    f_equal. apply IH. exact H.
Qed.

(** X2.  [escapeXml] loses nothing: two texts with the same escaped form
    are the same text.  Distinct property keys stay distinct in the
    output. *)
Theorem escapeXml_is_injective (a b : jstring) :
  escapeXml a = escapeXml b -> a = b.
Proof.
  rewrite !escapeXml_flat_map. apply flat_map_entity_injective.
Qed.

Lemma escapeXml_is_injective_witness :
  escapeXml (lit "a<b") = escapeXml (lit "a<b") /\ lit "a<b" = lit "a<b".
Proof.
  split; [reflexivity|].
  apply (@escapeXml_is_injective (lit "a<b") (lit "a<b")). reflexivity.
Defined.

Lemma well_escaped_entity c t :
  well_escaped (entity c ++ t) = well_escaped t.
Proof.
  unfold entity. by_character c.
  cbn [app well_escaped]. unfold markup.
  repeat match goal with
         | H : c <> _ |- _ => apply N.eqb_neq in H; rewrite H; clear H
         end.
  reflexivity.
Qed.

(** X3.  What [escapeXml] returns is escaped text: it holds none of [<],
    [>], the double and the single quote, and each of its ampersands opens
    one of [&amp;], [&lt;], [&gt;], [&quot;], [&apos;]. *)
Theorem escapeXml_returns_escaped_text (s : jstring) :
  well_escaped (escapeXml s) = true.
Proof.
  rewrite escapeXml_flat_map. induction s as [|c s IH]; [reflexivity|].
  cbn [flat_map]. rewrite well_escaped_entity. exact IH.
Qed.

Lemma escapeXml_fixed_iff_plain s :
  escapeXml s = s <-> forallb plain s = true.
Proof.
  rewrite escapeXml_flat_map. induction s as [|c s IH]; [tauto|].
  cbn [flat_map forallb]. rewrite andb_true_iff. rewrite <- IH.
  destruct (plain c) eqn:Hc.
  - rewrite (entity_plain _ Hc). cbn [app]. split.
    + intros H; inversion H as [H']. rewrite H'. auto.
    + intros [_ ->]. reflexivity.
  - split; [|intros [? _]; discriminate].
    destruct (entity_special _ Hc) as (e & He & ->).
    intros H. exfalso. cbn [app] in H. inversion H as [[Ec Es]].
    pose proof (escapeXml_length s) as Hl.
    rewrite escapeXml_flat_map in Hl.
    apply (f_equal (@List.length N)) in Es. rewrite length_app in Es.
    assert (1 <= List.length e)%nat.
    { cbn in He. repeat (destruct He as [<-|He]; [cbn; lia|]). destruct He. }
    lia.
Qed.

(** X4.  [escapeXml] leaves a text as it is exactly when the text holds
    none of the five characters; and it is idempotent on those texts only:
    escaping an escaped text again changes it as soon as the first pass
    wrote an entity. *)
Theorem escapeXml_fixes_plain_text_only (s : jstring) :
  (escapeXml s = s <-> forallb plain s = true)
  /\ (escapeXml (escapeXml s) = escapeXml s <-> forallb plain s = true).
Proof.
  split; [apply escapeXml_fixed_iff_plain|]. split.
  - intros H. apply escapeXml_fixed_iff_plain.
    rewrite !escapeXml_flat_map in *.
    apply flat_map_entity_injective. exact H.
  - intros H. apply escapeXml_fixed_iff_plain in H. rewrite H. exact H.
Qed.

(** ** [mergeAllOfProperties] *)

Section Keys.
Variable V : Type.
Implicit Types (ps : list (jstring * V)) (k : jstring) (v : V).

Lemma has_key_iff k ps : has_key k ps = true <-> In k (List.map fst ps).
Proof.
  induction ps as [|[k' v'] r IH]; cbn [has_key List.map In fst].
  - split; [discriminate | tauto].
  - rewrite orb_true_iff, IH, jstring_eqb_eq. tauto.
Qed.

Lemma keys_replace_key k v ps :
  List.map fst (replace_key k v ps) = List.map fst ps.
Proof.
  induction ps as [|[k' v'] r IH]; cbn [replace_key List.map fst];
    [reflexivity|].
  destruct (jstring_eqb k' k); cbn [List.map fst]; [reflexivity|].
  rewrite IH. reflexivity.
Qed.

Lemma keys_insert_index i k v ps :
  Permutation (List.map fst (insert_index i k v ps)) (k :: List.map fst ps).
Proof.
  induction ps as [|[k' v'] r IH]; cbn [insert_index List.map fst].
  - apply Permutation_refl.
  - destruct (array_index k') as [j|]; [destruct (j <? i)%N|];
      cbn [List.map fst]; try apply Permutation_refl.
    rewrite IH. apply perm_swap.
Qed.

(** Writing a key keeps the keys pairwise distinct. *)
Lemma keys_obj_set k v ps :
  NoDup (List.map fst ps) -> NoDup (List.map fst (obj_set ps k v)).
Proof.
  intros Hnd. unfold obj_set. destruct (has_key k ps) eqn:E.
  - rewrite keys_replace_key. exact Hnd.
  - assert (~ In k (List.map fst ps)) as Hk.
    { intros Hin. apply has_key_iff in Hin. congruence. }
    destruct (array_index k) as [i|].
    + apply (Permutation_NoDup (Permutation_sym (keys_insert_index i k v ps))).
      constructor; assumption.
    + rewrite map_app. cbn [List.map fst].
      apply (Permutation_NoDup (Permutation_cons_append _ _)).
      constructor; assumption.
Qed.
End Keys.

Lemma merge_keys_distinct members acc merged :
  Rich.mergeAllOfProperties_from acc members = Ok merged ->
  NoDup (List.map fst (own acc)) -> NoDup (List.map fst (own merged)).
Proof.
  intros H Hacc.
  apply (@merge_invariant (fun ps => NoDup (List.map fst ps)) _ _ _ H Hacc).
  intros m ps kv _ _. apply keys_obj_set.
Qed.

(** X5.  The object [mergeAllOfProperties] returns has pairwise distinct
    keys, whatever the members repeat: each key is listed once in
    [merged{...}]. *)
Theorem merged_keys_are_distinct (members : list value)
    (merged : list (jstring * value)) :
  Rich.mergeAllOfProperties members = Ok merged ->
  NoDup (List.map fst merged).
Proof.
  intros H. destruct (merged_object _ H) as (o & Ho & <-).
  apply (@merge_keys_distinct _ _ _ Ho). constructor.
Qed.

Lemma merged_keys_are_distinct_witness :
  Rich.mergeAllOfProperties allOf_members
  = Ok (props [("a", typed "boolean"); ("b", typed "number")])
  /\ NoDup (List.map fst
              (props [("a", typed "boolean"); ("b", typed "number")])).
Proof.
  split; [reflexivity|].
  apply (@merged_keys_are_distinct allOf_members). reflexivity.
Defined.

Lemma merge_outcome members : forall acc,
  if existsb nullish members
  then Rich.mergeAllOfProperties_from acc members = Fail TypeError
  else exists merged, Rich.mergeAllOfProperties_from acc members = Ok merged.
Proof.
  induction members as [|m rest IH]; intros acc;
    cbn [existsb Rich.mergeAllOfProperties_from].
  - eauto.
  - destruct (nullish m) eqn:Hm; cbn [orb].
    + destruct m; try discriminate; reflexivity.
    + assert (exists v, get m (lit "properties") = Ok v) as [v E].
      { destruct m; try discriminate; cbn [get]; eauto;
          destruct (jstring_eqb _ _); eauto. }
      rewrite E. cbn [bind]. destruct (truthy v) eqn:Et; cbn [bind].
      * unfold Object_assign. rewrite (truthy_entries _ Et). cbn [bind].
        apply IH.
      * apply IH.
Qed.

Lemma merge_fails_with_TypeError members e :
  Rich.mergeAllOfProperties members = Fail e -> e = TypeError.
Proof.
  unfold Rich.mergeAllOfProperties. intros H.
  pose proof (merge_outcome members fresh_object) as K.
  destruct (existsb nullish members).
  - rewrite K in H. cbn [bind] in H. congruence.
  - destruct K as [merged K]. rewrite K in H. discriminate H.
Qed.

(** X6.  [mergeAllOfProperties] raises a TypeError exactly when a member of
    the [allOf] is null or undefined (the loop reads [schema.properties] of
    each member); on any other list of members it returns an object. *)
Theorem mergeAllOfProperties_raises_on_null_member (members : list value) :
  if existsb nullish members
  then Rich.mergeAllOfProperties members = Fail TypeError
  else exists merged, Rich.mergeAllOfProperties members = Ok merged.
Proof.
  unfold Rich.mergeAllOfProperties.
  pose proof (merge_outcome members fresh_object) as K.
  destruct (existsb nullish members).
  - rewrite K. reflexivity.
  - destruct K as [merged ->]. cbn [bind]. eauto.
Qed.

Lemma existsb_eqb_In k seen :
  existsb (jstring_eqb k) seen = true <-> In k seen.
Proof.
  rewrite existsb_exists. split.
  - intros (x & Hx & E). apply jstring_eqb_eq in E. subst. exact Hx.
  - intros H. exists k. split; [exact H | apply jstring_eqb_eq; reflexivity].
Qed.

Lemma existsb_eqb_ext k s1 s2 :
  (forall x, In x s1 <-> In x s2) ->
  existsb (jstring_eqb k) s1 = existsb (jstring_eqb k) s2.
Proof.
  intros H. apply eq_true_iff_eq. rewrite !existsb_eqb_In. apply H.
Qed.

Lemma first_occurrences_ext ks : forall s1 s2,
  (forall x, In x s1 <-> In x s2) ->
  first_occurrences s1 ks = first_occurrences s2 ks.
Proof.
  induction ks as [|k r IH]; intros s1 s2 H; cbn [first_occurrences];
    [reflexivity|].
  rewrite (@existsb_eqb_ext k s1 s2 H). destruct (existsb (jstring_eqb k) s2).
  - apply IH, H.
  - f_equal. apply IH. intros x. cbn [In]. rewrite H. tauto.
Qed.

Lemma first_occurrences_app a : forall seen b,
  first_occurrences seen (a ++ b)
  = first_occurrences seen a
      ++ first_occurrences (seen ++ first_occurrences seen a) b.
Proof.
  induction a as [|k a IH]; intros seen b; cbn [app first_occurrences].
  - rewrite app_nil_r. reflexivity.
  - destruct (existsb (jstring_eqb k) seen); [apply IH|].
    cbn [app]. f_equal. rewrite IH. f_equal.
    apply first_occurrences_ext. intros x.
    cbn [app In]. rewrite !in_app_iff. cbn [In]. tauto.
Qed.

(** Assigning entries whose keys are no array indices: new keys go last, in
    the order they come. *)
Lemma keys_assign_order (es : list (jstring * value)) : forall ps,
  (forall kv, In kv es -> array_index (fst kv) = None) ->
  List.map fst (fold_left (fun acc kv => obj_set acc (fst kv) (snd kv)) es ps)
  = List.map fst ps ++ first_occurrences (List.map fst ps) (List.map fst es).
Proof.
  induction es as [|[k v] es IH]; intros ps Hidx;
    cbn [fold_left List.map fst snd first_occurrences].
  - rewrite app_nil_r. reflexivity.
  - rewrite IH by (intros kv Hin; apply Hidx; right; exact Hin).
    pose proof (Hidx (k, v) (or_introl eq_refl)) as Hk. cbn [fst] in Hk.
    unfold obj_set. rewrite Hk.
    destruct (has_key k ps) eqn:E.
    + rewrite keys_replace_key.
      assert (existsb (jstring_eqb k) (List.map fst ps) = true) as ->
        by (apply existsb_eqb_In, has_key_iff; exact E).
      reflexivity.
    + assert (existsb (jstring_eqb k) (List.map fst ps) = false) as ->.
      { apply not_true_is_false. intros H.
        apply existsb_eqb_In, has_key_iff in H. congruence. }
      rewrite map_app. cbn [List.map fst]. rewrite <- app_assoc. cbn [app].
      do 2 f_equal. apply first_occurrences_ext. intros x.
      rewrite in_app_iff. cbn [In]. tauto.
Qed.

Lemma member_entries_spec m properties :
  get m (lit "properties") = Ok properties ->
  member_entries m = if truthy properties then own_entries properties else [].
Proof. unfold member_entries. intros ->. reflexivity. Qed.

(** Where no key is [__proto__], every write defines its key. *)
Lemma assign_defines (es : list (jstring * value)) : forall o,
  ~ In proto_key (List.map fst es) ->
  own (fold_left (fun o kv => Set_property o (fst kv) (snd kv)) es o)
  = fold_left (fun acc kv => obj_set acc (fst kv) (snd kv)) es (own o).
Proof.
  induction es as [|[k v] es IH]; intros o Hk; cbn [fold_left fst snd];
    [reflexivity|].
  cbn [List.map fst In] in Hk.
  rewrite IH by tauto. rewrite Set_property_defines; [reflexivity|].
  apply not_true_is_false. intros E. apply jstring_eqb_eq in E. tauto.
Qed.

Lemma merge_keys_order members : forall acc merged,
  Rich.mergeAllOfProperties_from acc members = Ok merged ->
  (forall k, In k (member_keys members) -> array_index k = None) ->
  ~ In proto_key (member_keys members) ->
  List.map fst (own merged)
  = List.map fst (own acc)
      ++ first_occurrences (List.map fst (own acc)) (member_keys members).
Proof.
  induction members as [|m rest IH]; intros acc merged H Hidx Hproto;
    cbn [Rich.mergeAllOfProperties_from] in H.
  - inversion H; subst. cbn. rewrite app_nil_r. reflexivity.
  - unfold member_keys in *. cbn [flat_map] in *.
    destruct (get m (lit "properties")) as [properties|] eqn:Eg;
      cbn [bind] in H; [|discriminate].
    rewrite (member_entries_spec _ Eg) in *.
    assert (forall k,
               In k (flat_map (fun m => List.map fst (member_entries m)) rest) ->
               array_index k = None) as Hrest
      by (intros k Hk; apply Hidx, in_or_app; right; exact Hk).
    assert (~ In proto_key
              (flat_map (fun m => List.map fst (member_entries m)) rest))
      as Hprest by (intros Hk; apply Hproto, in_or_app; right; exact Hk).
    destruct (truthy properties) eqn:Et; cbn [bind] in H.
    + unfold Object_assign in H. rewrite (truthy_entries _ Et) in H.
      cbn [bind] in H.
      rewrite (IH _ _ H Hrest Hprest), first_occurrences_app, app_assoc.
      rewrite assign_defines
        by (intros Hk; apply Hproto, in_or_app; left; exact Hk).
      rewrite keys_assign_order; [reflexivity|].
      intros kv Hin. apply Hidx, in_or_app. left.
      apply in_map. exact Hin.
    + cbn [List.map app]. apply (IH _ _ H Hrest Hprest).
Qed.

(** X7.  When no key is an array index or [__proto__], the merged object
    lists the keys in the order in which the members first define them: a
    later member that redefines a key changes its value, not its place.
    (An array index is sorted in among the indices; a write to [__proto__]
    may define no key at all.) *)
Theorem merged_keys_keep_the_order_of_first_definition
    (members : list value) (merged : list (jstring * value)) :
  Rich.mergeAllOfProperties members = Ok merged ->
  (forall k, In k (member_keys members) -> array_index k = None) ->
  ~ In proto_key (member_keys members) ->
  List.map fst merged = first_occurrences [] (member_keys members).
Proof.
  intros H Hidx Hproto. destruct (merged_object _ H) as (o & Ho & <-).
  apply (@merge_keys_order _ _ _ Ho Hidx Hproto).
Qed.

Lemma merged_keys_keep_the_order_of_first_definition_witness :
  Rich.mergeAllOfProperties allOf_members
  = Ok (props [("a", typed "boolean"); ("b", typed "number")])
  /\ member_keys allOf_members = [lit "a"; lit "b"; lit "a"]
  /\ ~ In proto_key (member_keys allOf_members)
  /\ List.map fst (props [("a", typed "boolean"); ("b", typed "number")])
     = first_occurrences [] (member_keys allOf_members).
Proof.
  assert (~ In proto_key (member_keys allOf_members)) as Hproto.
  { intros Hk. cbn in Hk.
    repeat (destruct Hk as [Hk|Hk]; [discriminate Hk|]). destruct Hk. }
  split; [reflexivity|]. split; [reflexivity|]. split; [exact Hproto|].
  apply (@merged_keys_keep_the_order_of_first_definition allOf_members);
    [reflexivity| |exact Hproto].
  intros k Hk. cbn in Hk.
  repeat (destruct Hk as [<-|Hk]; [reflexivity|]). destruct Hk.
Defined.

(** ** The schemas the encoders accept *)

Lemma node_ok_not_nullish v : node_ok v = true -> nullish v = false.
Proof. destruct v; cbn; congruence. Qed.

Lemma node_ok_field fields k :
  node_ok (Obj fields) = true ->
  jstring_eqb k (lit "properties") = false ->
  absent_or_ok k (lookup k fields) = true.
Proof.
  intros Hok Hk. unfold lookup. cbn [node_ok] in Hok.
  induction fields as [|[k' x] r IH]; cbn [find_key]; [reflexivity|].
  cbn [forallb fst snd] in Hok. apply andb_true_iff in Hok.
  destruct Hok as [Hx Hr].
  destruct (jstring_eqb k' k) eqn:E; [|auto].
  apply jstring_eqb_eq in E. subst k'. rewrite Hk in Hx.
  unfold absent_or_ok. destruct x; try reflexivity; exact Hx.
Qed.

Lemma node_ok_elements l x : node_ok (Arr l) = true -> In x l -> node_ok x = true.
Proof.
  cbn [node_ok]. rewrite forallb_forall. auto.
Qed.

(** The entries of a [properties] field are schema nodes. *)
Lemma node_ok_properties fields kv :
  node_ok (Obj fields) = true ->
  In kv (own_entries (lookup (lit "properties") fields)) ->
  node_ok (snd kv) = true.
Proof.
  intros Hok. unfold lookup. cbn [node_ok] in Hok.
  induction fields as [|[k' x] r IH]; cbn [find_key]; [intros []|].
  cbn [forallb fst snd] in Hok. apply andb_true_iff in Hok.
  destruct Hok as [Hx Hr].
  destruct (jstring_eqb k' (lit "properties")) eqn:E; [|auto].
  destruct x as [| |b|z|s|l|qs]; cbn [own_entries Object_entries];
    try (intros []).
  - intros Hin. apply indexed_In, in_map_iff in Hin.
    destruct Hin as (c & <- & _). reflexivity.
  - intros Hin. apply indexed_In in Hin.
    cbn [snd node_ok] in Hx. rewrite forallb_forall in Hx. auto.
  - intros Hin. cbn [snd] in Hx. rewrite forallb_forall in Hx. auto.
Qed.

Lemma node_ok_no_toString ps :
  node_ok (Obj ps) = true -> has_key (lit "toString") ps = false.
Proof.
  cbn [node_ok]. induction ps as [|[k x] r IH]; cbn [forallb has_key fst snd];
    [reflexivity|].
  intros H. apply andb_true_iff in H. destruct H as [Hx Hr].
  rewrite (IH Hr), orb_false_r.
  destruct (jstring_eqb k (lit "toString")) eqn:E; [|reflexivity].
  apply jstring_eqb_eq in E. subst k. discriminate Hx.
Qed.

(** A document that is [node_ok] converts to a string. *)
Lemma ToString_ok : forall v,
  node_ok v = true -> exists s, ToString v = Ok s.
Proof.
  enough (forall n v, (depth v < n)%nat -> node_ok v = true ->
                      exists s, ToString v = Ok s) as K
    by (intros v; apply (K (S (depth v))); lia).
  induction n as [|n IH]; intros v Hd Hok; [lia|].
  destruct v as [| |[|]|z|s|l|ps]; cbn [ToString]; try discriminate; eauto.
  - assert (forall x, In x l -> exists s, ToString x = Ok s) as Hl.
    { intros x Hx. apply IH; [|eapply node_ok_elements; eassumption].
      apply depth_Arr_In in Hx. cbn [depth pred] in *. lia. }
    clear Hd Hok.
    match goal with
    | |- exists s, bind (?elems l) _ = _ => set (go := elems)
    end.
    assert (exists parts, go l = Ok parts) as [parts ->]; [|cbn [bind]; eauto].
    induction l as [|x l IHl]; cbn; [eauto|]. fold go.
    destruct IHl as [parts ->]; [intros y Hy; apply Hl; right; exact Hy|].
    destruct (Hl x (or_introl eq_refl)) as [s Hs].
    destruct x; cbn [bind]; eauto; rewrite Hs; cbn [bind]; eauto.
  - rewrite (node_ok_no_toString _ Hok). eauto.
Qed.

Lemma ToString_total v e : node_ok v = true -> ToString v = Fail e -> False.
Proof. intros H E. destruct (ToString_ok _ H); congruence. Qed.

Lemma toString_total v e : node_ok v = true -> toString v = Fail e -> False.
Proof.
  intros H E. destruct v; try discriminate; cbn [toString] in E;
    eapply ToString_total; eassumption.
Qed.

Lemma Array_join_total sep l e :
  (forall x, In x l -> node_ok x = true) -> Array_join sep l = Fail e -> False.
Proof.
  unfold Array_join. intros Hl H. failed H.
  apply mapM_failed in E. destruct E as (x & Hx & E).
  specialize (Hl x Hx). destruct x; try discriminate;
    eapply ToString_total; eassumption.
Qed.

Lemma escaped_strings_total vs e :
  (forall x, In x vs -> node_ok x = true) ->
  mapM (fun v => s <- toString v ;; Ok (escapeXml s)) vs = Fail e -> False.
Proof.
  intros Hl H. apply mapM_failed in H. destruct H as (x & Hx & H).
  failed H. eapply toString_total; [apply Hl|]; eassumption.
Qed.

Lemma absent_or_ok_node k x :
  absent_or_ok k x = true -> defined x = true -> node_ok x = true.
Proof.
  unfold absent_or_ok. destruct x; try discriminate; intros H _;
    apply andb_true_iff in H; apply H.
Qed.

Lemma absent_or_ok_truthy k x :
  absent_or_ok k x = true -> truthy x = true -> node_ok x = true.
Proof.
  intros H Ht. apply (absent_or_ok_node _ _ H). destruct x; try discriminate; reflexivity.
Qed.

Lemma absent_or_ok_keyword k x :
  absent_or_ok k x = true -> truthy x = true -> keyword_ok k x = true.
Proof.
  unfold absent_or_ok. destruct x; try discriminate; intros H _;
    apply andb_true_iff in H; apply H.
Qed.

Lemma constraint_total sign field e :
  (defined field = true -> node_ok field = true) ->
  Rich.constraint sign field = Fail e -> False.
Proof.
  unfold Rich.constraint. intros Hf H. failed H.
  eapply ToString_total; [apply Hf; reflexivity | eassumption].
Qed.

(** The properties a member of an [allOf] brings are schema nodes. *)
Lemma member_properties_ok m properties kv :
  node_ok m = true -> get m (lit "properties") = Ok properties ->
  In kv (own_entries properties) -> node_ok (snd kv) = true.
Proof.
  intros Hm Hg Hin. destruct (is_object m) eqn:Ho.
  - destruct m; try discriminate. cbn [get] in Hg. apply Ok_inj in Hg.
    subst properties. eapply node_ok_properties; eassumption.
  - rewrite (@get_no_field m (lit "properties") Ho
               (node_ok_not_nullish _ Hm) eq_refl eq_refl) in Hg.
    apply Ok_inj in Hg. subst. destruct Hin.
Qed.

Lemma merge_total members e :
  (forall m, In m members -> node_ok m = true) ->
  Rich.mergeAllOfProperties members = Fail e -> False.
Proof.
  intros Hm H. unfold Rich.mergeAllOfProperties in H.
  pose proof (merge_outcome members fresh_object) as K.
  replace (existsb nullish members) with false in K.
  - destruct K as [merged K]. rewrite K in H. discriminate H.
  - symmetry. apply not_true_is_false. intros E.
    apply existsb_exists in E. destruct E as (m & Hin & Hnull).
    rewrite (node_ok_not_nullish _ (Hm m Hin)) in Hnull. discriminate.
Qed.

Lemma get_ok_field p n a :
  node_ok p = true -> get p n = Ok a ->
  jstring_eqb n (lit "properties") = false ->
  jstring_eqb n (lit "length") = false ->
  forallb is_digit n = false ->
  absent_or_ok n a = true.
Proof.
  intros Hok Hg Hp Hl Hd. destruct (is_object p) eqn:Ho.
  - destruct p; try discriminate. cbn [get] in Hg. apply Ok_inj in Hg. subst a.
    apply node_ok_field; assumption.
  - rewrite (@get_no_field p n Ho (node_ok_not_nullish _ Hok) Hd Hl) in Hg.
    apply Ok_inj in Hg. subst a. reflexivity.
Qed.

(** What the fields read so far hold. *)
Ltac field_facts :=
  repeat match goal with
    | Hok : node_ok ?p = true, E : get ?p (lit ?n) = Ok ?a |- _ =>
        try pose proof (@get_ok_field p (lit n) a Hok E eq_refl eq_refl eq_refl);
        revert E
    end;
  intros.

Lemma or_else_total k a d e :
  absent_or_ok k a = true -> node_ok d = true ->
  ToString (or_else a d) = Fail e -> False.
Proof.
  unfold or_else. intros Ha Hd H. destruct (truthy a) eqn:Et.
  - eapply ToString_total; [|exact H]. eapply absent_or_ok_truthy; eassumption.
  - eapply ToString_total; eassumption.
Qed.

Lemma keyword_is_array k a :
  jstring_eqb k (lit "enum") || jstring_eqb k (lit "oneOf")
    || jstring_eqb k (lit "anyOf") = true ->
  absent_or_ok k a = true -> truthy a = true -> exists l, a = Arr l.
Proof.
  intros Hk Ha Ht. pose proof (absent_or_ok_keyword _ _ Ha Ht) as K.
  unfold keyword_ok in K. rewrite Hk in K.
  destruct a; try discriminate. eauto.
Qed.

Lemma union_is_array a b :
  absent_or_ok (lit "oneOf") a = true -> absent_or_ok (lit "anyOf") b = true ->
  truthy a || truthy b = true ->
  exists l, or_else a (or_else b (Arr [])) = Arr l
            /\ forall x, In x l -> node_ok x = true.
Proof.
  intros Ha Hb Ht. unfold or_else. destruct (truthy a) eqn:Ea.
  - destruct (@keyword_is_array (lit "oneOf") a eq_refl Ha Ea) as [l ->].
    exists l. split; [reflexivity|]. intros x Hx.
    eapply node_ok_elements; [|exact Hx].
    eapply absent_or_ok_truthy; eassumption.
  - cbn [orb] in Ht. rewrite Ht.
    destruct (@keyword_is_array (lit "anyOf") b eq_refl Hb Ht) as [l ->].
    exists l. split; [reflexivity|]. intros x Hx.
    eapply node_ok_elements; [|exact Hx].
    eapply absent_or_ok_truthy; eassumption.
Qed.

Section Recursive.
Variable f : value -> result value.
Variable d : nat.
Hypothesis Hf :
  forall q, (depth q < d)%nat -> node_ok q = true ->
            exists v, f q = Ok v /\ node_ok v = true.

Lemma call_total q e :
  (depth q < d)%nat -> node_ok q = true -> f q = Fail e -> False.
Proof. intros Hd Hq E. destruct (Hf _ Hd Hq) as (v & Ev & _). congruence. Qed.

Lemma call_ok q v :
  (depth q < d)%nat -> node_ok q = true -> f q = Ok v -> node_ok v = true.
Proof. intros Hd Hq E. destruct (Hf _ Hd Hq) as (v' & Ev & Hv). congruence. Qed.

Lemma calls_total l e :
  (forall q, In q l -> (depth q < d)%nat /\ node_ok q = true) ->
  mapM f l = Fail e -> False.
Proof.
  intros Hl H. apply mapM_failed in H. destruct H as (q & Hq & E).
  destruct (Hl q Hq). eapply call_total; eassumption.
Qed.

Lemma calls_ok l ts :
  (forall q, In q l -> (depth q < d)%nat /\ node_ok q = true) ->
  mapM f l = Ok ts -> forall t, In t ts -> node_ok t = true.
Proof.
  intros Hl H t Ht. destruct (@mapM_In _ _ _ _ _ _ H Ht) as (q & Hq & E).
  destruct (Hl q Hq). eapply call_ok; eassumption.
Qed.

Lemma nested_props_total (es : list (jstring * value)) e :
  (forall kv, In kv es -> (depth (snd kv) < d)%nat /\ node_ok (snd kv) = true) ->
  mapM (Rich.nested_prop f) es = Fail e -> False.
Proof.
  intros Hl H. apply mapM_failed in H. destruct H as (kv & Hkv & E).
  destruct (Hl kv Hkv) as [Hd Hq]. unfold Rich.nested_prop in E. failed E.
  - eapply ToString_total; [|eassumption]. eapply call_ok; eassumption.
  - eapply call_total; eassumption.
Qed.

Lemma union_part_total p e :
  (depth p < d)%nat -> node_ok p = true -> Rich.union_part f p = Fail e -> False.
Proof.
  intros Hd Hok H. unfold Rich.union_part in H. failed H; field_facts.
  all: try solve [eapply get_total; [|eassumption];
                  apply node_ok_not_nullish; assumption].
  all: try solve [eapply call_total; eassumption].
  all: try solve [eapply constraint_total; [|eassumption];
                  eapply absent_or_ok_node; eassumption].
  all: try solve [eapply keys_length_total; [|eassumption];
                  match goal with
                  | H : _ && _ = true |- _ =>
                      apply andb_true_iff in H; apply H
                  end].
  all: try match goal with
       | Ha : absent_or_ok (lit "enum") ?a = true, Ht : truthy ?a = true |- _ =>
           destruct (@keyword_is_array (lit "enum") a eq_refl Ha Ht) as [vs ->];
           pose proof (absent_or_ok_truthy _ _ Ha Ht) as Hvs
       end.
  all: try discriminate.
  all: try solve [eapply escaped_strings_total; [|eassumption];
                  intros; eapply node_ok_elements; eassumption].
  all: try solve [match goal with
                  | E : get (Arr _) (lit "length") = Ok ?len |- _ =>
                      cbn in E; apply Ok_inj in E; subst len
                  end;
                  match goal with
                  | E : ToString (Num _) = Fail _ |- _ => discriminate E
                  | E : le_num (Num _) _ = Fail _ |- _ => discriminate E
                  end].
  eapply escaped_strings_total; [|eassumption].
  intros. eapply node_ok_elements; [|eassumption].
  eapply absent_or_ok_node; [eassumption | reflexivity].
Qed.

Lemma union_part_ok p v :
  (depth p < d)%nat -> node_ok p = true ->
  Rich.union_part f p = Ok v -> node_ok v = true.
Proof.
  intros Hd Hok H. unfold Rich.union_part in H. run H; try reflexivity.
  eapply call_ok; eassumption.
Qed.

Lemma union_parts_total l e :
  (forall q, In q l -> (depth q < d)%nat /\ node_ok q = true) ->
  mapM (Rich.union_part f) l = Fail e -> False.
Proof.
  intros Hl H. apply mapM_failed in H. destruct H as (q & Hq & E).
  destruct (Hl q Hq). eapply union_part_total; eassumption.
Qed.

Lemma union_parts_ok l ts :
  (forall q, In q l -> (depth q < d)%nat /\ node_ok q = true) ->
  mapM (Rich.union_part f) l = Ok ts -> forall t, In t ts -> node_ok t = true.
Proof.
  intros Hl H t Ht. destruct (@mapM_In _ _ _ _ _ _ H Ht) as (q & Hq & E).
  destruct (Hl q Hq). eapply union_part_ok; eassumption.
Qed.
End Recursive.

Lemma elements_ok a x :
  node_ok a = true -> In x (elements a) -> node_ok x = true.
Proof.
  destruct a; cbn [elements In]; try tauto. apply node_ok_elements.
Qed.

Lemma entries_ok p properties es kv :
  node_ok p = true -> get p (lit "properties") = Ok properties ->
  Object_entries properties = Ok es -> In kv es -> node_ok (snd kv) = true.
Proof.
  intros Hp Hg He Hin. eapply member_properties_ok; [exact Hp | exact Hg|].
  unfold own_entries. rewrite He. exact Hin.
Qed.

Lemma merged_ok a merged kv :
  node_ok a = true -> Rich.mergeAllOfProperties (elements a) = Ok merged ->
  In kv merged -> node_ok (snd kv) = true.
Proof.
  intros Ha Hm. revert kv.
  apply (@merged_values (fun v => node_ok v = true) _ _ Hm).
  intros m kv Hin Hkv.
  destruct (member_entries_In _ _ Hkv) as (properties & Hg & Hin').
  eapply member_properties_ok;
    [apply (@elements_ok a m Ha Hin) | exact Hg | exact Hin'].
Qed.

Lemma pattern_is_string a :
  absent_or_ok (lit "pattern") a = true -> truthy a = true -> exists s, a = Str s.
Proof.
  intros Ha Ht. pose proof (absent_or_ok_keyword _ _ Ha Ht) as K.
  destruct a; try discriminate. eauto.
Qed.

(** The value is a schema node the hypotheses vouch for. *)
Ltac vouched :=
  solve [ assumption
        | eapply absent_or_ok_truthy; eassumption
        | eapply absent_or_ok_node; eassumption
        | eapply elements_ok; [|eassumption]; vouched
        | eapply entries_ok; eassumption
        | eapply merged_ok; [|eassumption..]; vouched ].

Lemma Rich_body_total (f : value -> result value) p :
  node_ok p = true ->
  (forall q, (depth q < depth p)%nat -> node_ok q = true ->
             exists v, f q = Ok v /\ node_ok v = true) ->
  forall e, Rich.getCompactType_body f p = Fail e -> False.
Proof.
  intros Hok Hf e H. unfold Rich.getCompactType_body in H.
  destruct (negb (truthy p) || negb (typeof_object p)) eqn:Hobj;
    [discriminate|].
  apply object_depth_pos in Hobj. cbv zeta in H.
  failed H; field_facts; bool_facts.
  all: try solve [eapply get_total; [|eassumption]; apply node_ok_not_nullish; assumption].
  all: try solve [eapply or_else_total; [| |eassumption];
                  [eassumption | reflexivity]].
  all: try solve [eapply constraint_total; [|eassumption];
                  eapply absent_or_ok_node; eassumption].
  all: try solve [eapply toString_total; [|eassumption]; vouched].
  all: try solve [eapply (@call_total _ _ Hf); [| |eassumption];
                  [shallower | vouched]].
  all: try solve [eapply ToString_total; [|eassumption];
                  first [ vouched
                        | eapply (@call_ok _ _ Hf); [| |eassumption];
                          [shallower | vouched] ]].
  all: try solve [eapply (@calls_total _ _ Hf); [|eassumption];
                  intros; split; [shallower | vouched]].
  all: try solve [eapply Array_join_total; [|eassumption];
                  eapply (@calls_ok _ _ Hf); [|eassumption];
                  intros; split; [shallower | vouched]].
  all: try solve [eapply escaped_strings_total; [|eassumption];
                  intros; vouched].
  all: try solve [eapply (@nested_props_total _ _ Hf); [|eassumption];
                  intros; split; [shallower | vouched]].
  all: try solve [eapply merge_total; [|eassumption]; intros; vouched].
  all: try solve [eapply entries_total; eassumption].
  all: try solve [eapply keys_length_total; eassumption].
  all: try match goal with
       | E : (if truthy ?a then _ else Ok false) = Ok true |- _ =>
           destruct (truthy a) eqn:?; [|discriminate E]
       end.
  all: try solve [eapply entries_total; eassumption].
  all: try match goal with
       | Ha : absent_or_ok (lit "oneOf") ?a = true,
         Hb : absent_or_ok (lit "anyOf") ?b = true,
         Ht : truthy ?a || truthy ?b = true,
         E : or_else ?a (or_else ?b (Arr [])) = _ |- _ =>
           destruct (union_is_array _ _ Ha Hb Ht) as (members & Em & Hm);
           pose proof E as E';
           rewrite Em in E'; try discriminate E';
           injection E' as <-
       end.
  all: try solve [eapply (@union_parts_total _ _ Hf); [|eassumption];
                  intros; split; [shallower | auto]].
  all: try solve [eapply Array_join_total; [|eassumption];
                  eapply (@union_parts_ok _ _ Hf); [|eassumption];
                  intros; split; [shallower | auto]].
  all: try match goal with
       | Ha : absent_or_ok (lit "pattern") ?a = true, Ht : truthy ?a = true
         |- _ => destruct (pattern_is_string _ Ha Ht) as [pat ->]
       end.
  all: try match goal with
       | E : get (Str _) (lit "length") = Ok ?len |- _ =>
           cbn in E; apply Ok_inj in E; subst len
       end.
  all: try discriminate.
  all: try match goal with
       | E : slice0 _ (Str _) = Ok _ |- _ => cbn in E; apply Ok_inj in E; subst
       | E : Ok (Str _) = Ok _ |- _ => apply Ok_inj in E; subst
       end.
  all: try discriminate.
  match goal with
  | E : (if ?b then slice0 _ _ else _) = Ok _ |- _ =>
      destruct b; cbn in E; apply Ok_inj in E; subst
  end; discriminate.
Qed.

Lemma Rich_body_ok (f : value -> result value) p v :
  node_ok p = true -> Rich.getCompactType_body f p = Ok v -> node_ok v = true.
Proof.
  intros Hok H. unfold Rich.getCompactType_body in H.
  destruct (negb (truthy p) || negb (typeof_object p)) eqn:Hobj;
    [apply Ok_inj in H; subst; reflexivity|].
  cbv zeta in H. run H; try reflexivity.
  field_facts. unfold or_else.
  match goal with |- context [truthy ?a] => destruct (truthy a) eqn:Et end;
    [|reflexivity].
  eapply absent_or_ok_truthy; eassumption.
Qed.

Lemma Rich_total : forall p,
  node_ok p = true ->
  exists v, Rich.getCompactType p = Ok v /\ node_ok v = true.
Proof.
  enough (forall n p, (depth p < n)%nat -> node_ok p = true ->
            exists v, Rich.getCompactType p = Ok v /\ node_ok v = true) as K
    by (intros p; apply (K (S (depth p))); lia).
  induction n as [|n IH]; intros p Hd Hok; [lia|].
  destruct (Rich.getCompactType p) as [v|e] eqn:E;
    rewrite Rich_getCompactType_unfold in E.
  - exists v. split; [reflexivity|]. eapply Rich_body_ok; eassumption.
  - exfalso. eapply Rich_body_total; [exact Hok | | exact E].
    intros q Hq Hqok. apply IH; [lia | exact Hqok].
Qed.

Lemma required_readable schema r :
  node_ok schema = true -> required_ok schema = true ->
  get schema (lit "required") = Ok r ->
  has_includes (or_else r (Arr [])) = true.
Proof.
  intros Hok Hr Hg. destruct (is_object schema) eqn:Ho.
  - destruct schema as [| |b|z|s|l|fields]; try discriminate.
    cbn [get] in Hg. apply Ok_inj in Hg.
    subst r. cbn [required_ok] in Hr. unfold or_else.
    destruct (truthy (lookup (lit "required") fields)); [exact Hr | reflexivity].
  - rewrite (@get_no_field schema (lit "required") Ho
               (node_ok_not_nullish _ Hok) eq_refl eq_refl) in Hg.
    apply Ok_inj in Hg. subst r. reflexivity.
Qed.

Lemma includes_total required key e :
  has_includes required = true -> includes required key = Fail e -> False.
Proof. destruct required; discriminate. Qed.

Lemma Rich_call_total q e :
  node_ok q = true -> Rich.getCompactType q = Fail e -> False.
Proof. intros Hq E. destruct (Rich_total _ Hq) as (v & Ev & _). congruence. Qed.

Lemma Rich_call_ok q v :
  node_ok q = true -> Rich.getCompactType q = Ok v -> node_ok v = true.
Proof. intros Hq E. destruct (Rich_total _ Hq) as (v' & Ev & Hv). congruence. Qed.

Lemma Rich_params_total required (es : list (jstring * value)) e :
  has_includes required = true ->
  (forall kv, In kv es -> node_ok (snd kv) = true) ->
  mapM (Rich.param required) es = Fail e -> False.
Proof.
  intros Hr Hl H. apply mapM_failed in H. destruct H as (kv & Hkv & E).
  unfold Rich.param in E. failed E.
  - eapply ToString_total; [|eassumption].
    eapply Rich_call_ok; [|eassumption]. auto.
  - eapply Rich_call_total; [|eassumption]. auto.
  - eapply includes_total; eassumption.
Qed.

Lemma Rich_root_total schema e :
  node_ok schema = true -> required_ok schema = true ->
  Rich.jsonSchemaToXml schema = Fail e -> False.
Proof.
  intros Hok Hr H. unfold Rich.jsonSchemaToXml in H.
  destruct (negb (truthy schema) || negb (typeof_object schema)) eqn:Hobj;
    [discriminate|].
  cbv zeta in H. failed H; field_facts; bool_facts.
  all: try solve [eapply get_total; [|eassumption]; apply node_ok_not_nullish; assumption].
  all: try match goal with
       | E : (if truthy ?a then _ else Ok true) = Ok false |- _ =>
           destruct (truthy a) eqn:?; [|discriminate E]
       end.
  all: try solve [eapply entries_total; eassumption].
  all: try solve [eapply keys_length_total; eassumption].
  all: try solve [eapply merge_total; [|eassumption]; intros; vouched].
  all: try solve [eapply Rich_call_total; [|eassumption]; vouched].
  all: try solve [eapply ToString_total; [|eassumption];
                  eapply Rich_call_ok; [|eassumption]; vouched].
  all: try solve [eapply Rich_params_total; [| |eassumption];
                  [eapply required_readable; eassumption
                  |intros; vouched]].
  all: try solve [match goal with
                  | E : mapM Rich.getCompactType _ = Fail _ |- _ =>
                      apply mapM_failed in E; destruct E as (q & Hq & E);
                      eapply Rich_call_total; [|exact E]; vouched
                  end].
  all: try solve [eapply Array_join_total; [|eassumption];
                  intros t Ht;
                  match goal with
                  | E : mapM Rich.getCompactType _ = Ok _ |- _ =>
                      destruct (@mapM_In _ _ _ _ _ _ E Ht) as (q & Hq & Eq);
                      eapply Rich_call_ok; [|exact Eq]; vouched
                  end].
Qed.

(** X8.  The richest snapshot encodes every schema of a well-formed shape:
    a document without null in which [enum], [oneOf] and [anyOf] hold arrays,
    [pattern] a string, and no field is named [toString].  The type encoder
    returns on it, and so does the root when [required] is absent, falsy, an
    array or a string. *)
Theorem accepted_schemas_are_encoded :
  forall p : value,
    node_ok p = true ->
    (exists s, Rich.encodeType p = Ok s)
    /\ (required_ok p = true -> exists s, Rich.jsonSchemaToXml p = Ok s).
Proof.
  intros p Hok. split.
  - unfold Rich.encodeType. destruct (Rich_total _ Hok) as (v & -> & Hv).
    cbn [bind]. apply ToString_ok. exact Hv.
  - intros Hr. destruct (Rich.jsonSchemaToXml p) as [s|e] eqn:E; [eauto|].
    exfalso. eapply Rich_root_total; eassumption.
Qed.

(** The query schema of the examples is accepted. *)
Lemma accepted_schemas_are_encoded_witness :
  node_ok query_schema = true
  /\ required_ok query_schema = true
  /\ (exists s, Rich.encodeType query_schema = Ok s)
  /\ (exists s, Rich.jsonSchemaToXml query_schema = Ok s).
Proof.
  split; [reflexivity|]. split; [reflexivity|].
  destruct (@accepted_schemas_are_encoded query_schema eq_refl) as [He Hr].
  split; [exact He | exact (Hr eq_refl)].
Defined.

Lemma enum_strings_field fields k :
  enum_strings (Obj fields) = true ->
  jstring_eqb k (lit "properties") = false ->
  enum_field_ok k (lookup k fields) = true.
Proof.
  intros Hok Hk. unfold lookup. cbn [enum_strings] in Hok.
  induction fields as [|[k' x] r IH]; cbn [find_key].
  - unfold enum_field_ok. destruct (jstring_eqb k (lit "enum")); reflexivity.
  - cbn [forallb fst snd] in Hok. apply andb_true_iff in Hok.
    destruct Hok as [Hx Hr].
    destruct (jstring_eqb k' k) eqn:E; [|auto].
    apply jstring_eqb_eq in E. subst k'. rewrite Hk in Hx. exact Hx.
Qed.

Lemma enum_strings_elements l x :
  enum_strings (Arr l) = true -> In x l -> enum_strings x = true.
Proof. cbn [enum_strings]. rewrite forallb_forall. auto. Qed.

Lemma enum_strings_properties fields kv :
  enum_strings (Obj fields) = true ->
  In kv (own_entries (lookup (lit "properties") fields)) ->
  enum_strings (snd kv) = true.
Proof.
  intros Hok. unfold lookup. cbn [enum_strings] in Hok.
  induction fields as [|[k' x] r IH]; cbn [find_key]; [intros []|].
  cbn [forallb fst snd] in Hok. apply andb_true_iff in Hok.
  destruct Hok as [Hx Hr].
  destruct (jstring_eqb k' (lit "properties")) eqn:E; [|auto].
  destruct x as [| |b|z|s|l|qs]; cbn [own_entries Object_entries];
    try (intros []).
  - intros Hin. apply indexed_In, in_map_iff in Hin.
    destruct Hin as (c & <- & _). reflexivity.
  - intros Hin. apply indexed_In in Hin.
    cbn [snd enum_strings] in Hx. rewrite forallb_forall in Hx. auto.
  - intros Hin. cbn [snd] in Hx. rewrite forallb_forall in Hx. auto.
Qed.

Lemma get_enum_field p n a :
  enum_strings p = true -> get p n = Ok a ->
  jstring_eqb n (lit "properties") = false ->
  jstring_eqb n (lit "length") = false ->
  forallb is_digit n = false ->
  nullish p = false ->
  enum_field_ok n a = true.
Proof.
  intros Hok Hg Hp Hl Hd Hn. destruct (is_object p) eqn:Ho.
  - destruct p; try discriminate. cbn [get] in Hg. apply Ok_inj in Hg. subst a.
    apply enum_strings_field; assumption.
  - rewrite (@get_no_field p n Ho Hn Hd Hl) in Hg.
    apply Ok_inj in Hg. subst a. unfold enum_field_ok.
    destruct (jstring_eqb n (lit "enum")); reflexivity.
Qed.

Lemma entries_enum_strings p properties es kv :
  enum_strings p = true -> nullish p = false ->
  get p (lit "properties") = Ok properties ->
  Object_entries properties = Ok es -> In kv es ->
  enum_strings (snd kv) = true.
Proof.
  intros Hp Hn Hg He Hin. destruct (is_object p) eqn:Ho.
  - destruct p; try discriminate. cbn [get] in Hg. apply Ok_inj in Hg.
    subst properties. apply (@enum_strings_properties _ _ Hp).
    unfold own_entries. rewrite He. exact Hin.
  - rewrite (@get_no_field p (lit "properties") Ho Hn eq_refl eq_refl) in Hg.
    apply Ok_inj in Hg. subst. discriminate He.
Qed.

Lemma escaped_entries_total a e :
  strings_only a = true ->
  mapM Clamped.escapeXml_entry (elements a) = Fail e -> False.
Proof.
  intros Hs H. apply mapM_failed in H. destruct H as (x & Hx & E).
  destruct a; cbn [elements In] in Hx; try contradiction.
  cbn [strings_only] in Hs. rewrite forallb_forall in Hs.
  specialize (Hs x Hx). destruct x; discriminate.
Qed.

Lemma member_types_ok (members : list value) all :
  (forall q, In q members -> node_ok q = true) ->
  mapM (fun p => get p (lit "type")) members = Ok all ->
  forall t, In t (filter truthy all) -> node_ok t = true.
Proof.
  intros Hm H t Ht. apply filter_In in Ht. destruct Ht as [Ht Htt].
  destruct (@mapM_In _ _ _ _ _ _ H Ht) as (q & Hq & E).
  eapply absent_or_ok_truthy; [|exact Htt].
  eapply get_ok_field; [apply Hm; exact Hq | exact E | reflexivity..].
Qed.

(** What the fields read so far hold, for [enum_strings]. *)
Ltac enum_facts :=
  repeat match goal with
    | Hok : enum_strings ?p = true, Hn : nullish ?p = false,
      E : get ?p (lit ?n) = Ok ?a |- _ =>
        try pose proof (@get_enum_field p (lit n) a Hok E eq_refl eq_refl
                          eq_refl Hn);
        revert E
    end;
  intros.

Lemma enum_field_ok_strings a :
  enum_field_ok (lit "enum") a = true -> strings_only a = true.
Proof. unfold enum_field_ok. cbn. intros H. apply andb_true_iff in H. apply H. Qed.

Lemma enum_field_ok_node k a :
  enum_field_ok k a = true -> enum_strings a = true.
Proof. unfold enum_field_ok. intros H. apply andb_true_iff in H. apply H. Qed.

Section ClampedRecursive.
Variable f : value -> result value.
Variable d : nat.
Hypothesis Hf :
  forall q, (depth q < d)%nat -> node_ok q = true -> enum_strings q = true ->
            exists v, f q = Ok v /\ node_ok v = true.

Lemma Clamped_step_total q e :
  (depth q < d)%nat -> node_ok q = true -> enum_strings q = true ->
  f q = Fail e -> False.
Proof.
  intros Hd Hq Hs E. destruct (Hf _ Hd Hq Hs) as (v & Ev & _). congruence.
Qed.

Lemma Clamped_step_ok q v :
  (depth q < d)%nat -> node_ok q = true -> enum_strings q = true ->
  f q = Ok v -> node_ok v = true.
Proof.
  intros Hd Hq Hs E. destruct (Hf _ Hd Hq Hs) as (v' & Ev & Hv). congruence.
Qed.

Lemma Clamped_nested_props_total (es : list (jstring * value)) e :
  (forall kv, In kv es ->
              (depth (snd kv) < d)%nat /\ node_ok (snd kv) = true
              /\ enum_strings (snd kv) = true) ->
  mapM (Clamped.nested_prop f) es = Fail e -> False.
Proof.
  intros Hl H. apply mapM_failed in H. destruct H as (kv & Hkv & E).
  destruct (Hl kv Hkv) as (Hd & Hq & Hs). unfold Clamped.nested_prop in E.
  failed E.
  - eapply ToString_total; [|eassumption]. eapply Clamped_step_ok; eassumption.
  - eapply Clamped_step_total; eassumption.
Qed.
End ClampedRecursive.

(** The value keeps to [enum_strings], by the hypotheses. *)
Ltac listed :=
  solve [ assumption
        | eapply enum_field_ok_node; eassumption
        | eapply entries_enum_strings; [| | | |eassumption];
          [| | |eassumption]; [| |eassumption]; assumption ].

Lemma Clamped_body_total (f : value -> result value) p :
  node_ok p = true -> enum_strings p = true ->
  (forall q, (depth q < depth p)%nat -> node_ok q = true ->
             enum_strings q = true ->
             exists v, f q = Ok v /\ node_ok v = true) ->
  forall e, Clamped.getCompactType_body f p = Fail e -> False.
Proof.
  intros Hok Hen Hf e H. unfold Clamped.getCompactType_body in H.
  destruct (negb (truthy p) || negb (typeof_object p)) eqn:Hobj;
    [discriminate|].
  apply object_depth_pos in Hobj.
  pose proof (node_ok_not_nullish _ Hok) as Hnn.
  failed H; field_facts; enum_facts; bool_facts.
  all: try solve [eapply get_total; [|eassumption]; assumption].
  all: try solve [eapply entries_total; eassumption].
  all: try solve [eapply keys_length_total; eassumption].
  all: try solve [eapply escaped_entries_total; [|eassumption];
                  apply enum_field_ok_strings; assumption].
  all: try solve [eapply (@Clamped_step_total _ _ Hf); [| | |eassumption];
                  [shallower | vouched | listed]].
  all: try solve [eapply ToString_total; [|eassumption];
                  eapply (@Clamped_step_ok _ _ Hf); [| | |eassumption];
                  [shallower | vouched | listed]].
  all: try solve [eapply (@Clamped_nested_props_total _ _ Hf); [|eassumption];
                  intros; repeat split; [shallower | vouched | listed]].
  all: try match goal with
       | E : (if truthy ?a then _ else Ok false) = Ok true |- _ =>
           destruct (truthy a) eqn:?; [|discriminate E]
       end.
  all: try solve [eapply entries_total; eassumption].
  all: try match goal with
       | Ha : absent_or_ok (lit "oneOf") ?a = true,
         Hb : absent_or_ok (lit "anyOf") ?b = true,
         Ht : truthy ?a || truthy ?b = true,
         E : or_else ?a (or_else ?b (Arr [])) = _ |- _ =>
           destruct (union_is_array _ _ Ha Hb Ht) as (members & Em & Hm);
           pose proof E as E';
           rewrite Em in E'; try discriminate E';
           injection E' as <-
       end.
  all: try solve [eapply Array_join_total; [|eassumption];
                  eapply member_types_ok; eassumption].
  all: match goal with
       | E : mapM _ _ = Fail _ |- _ =>
           apply mapM_failed in E; destruct E as (q & Hq & E);
           eapply get_total; [|exact E]; apply node_ok_not_nullish; auto
       end.
Qed.

Lemma Clamped_body_ok (f : value -> result value) p v :
  node_ok p = true -> Clamped.getCompactType_body f p = Ok v ->
  node_ok v = true.
Proof.
  intros Hok H. unfold Clamped.getCompactType_body in H.
  destruct (negb (truthy p) || negb (typeof_object p)) eqn:Hobj;
    [apply Ok_inj in H; subst; reflexivity|].
  run H; try reflexivity.
  field_facts. unfold or_else.
  match goal with |- context [truthy ?a] => destruct (truthy a) eqn:Et end;
    [|reflexivity].
  eapply absent_or_ok_truthy; eassumption.
Qed.

Lemma Clamped_total : forall p,
  node_ok p = true -> enum_strings p = true ->
  exists v, Clamped.getCompactType p = Ok v /\ node_ok v = true.
Proof.
  enough (forall n p, (depth p < n)%nat -> node_ok p = true ->
            enum_strings p = true ->
            exists v, Clamped.getCompactType p = Ok v /\ node_ok v = true) as K
    by (intros p; apply (K (S (depth p))); lia).
  induction n as [|n IH]; intros p Hd Hok Hen; [lia|].
  destruct (Clamped.getCompactType p) as [v|e] eqn:E;
    rewrite Clamped_getCompactType_unfold in E.
  - exists v. split; [reflexivity|]. eapply Clamped_body_ok; eassumption.
  - exfalso. eapply Clamped_body_total; [exact Hok | exact Hen | | exact E].
    intros q Hq Hqok Hqen. apply IH; [lia | exact Hqok | exact Hqen].
Qed.

Lemma Clamped_call_total q e :
  node_ok q = true -> enum_strings q = true ->
  Clamped.getCompactType q = Fail e -> False.
Proof.
  intros Hq Hs E. destruct (Clamped_total _ Hq Hs) as (v & Ev & _). congruence.
Qed.

Lemma Clamped_call_ok q v :
  node_ok q = true -> enum_strings q = true ->
  Clamped.getCompactType q = Ok v -> node_ok v = true.
Proof.
  intros Hq Hs E. destruct (Clamped_total _ Hq Hs) as (v' & Ev & Hv).
  congruence.
Qed.

Lemma Clamped_params_total required (es : list (jstring * value)) e :
  has_includes required = true ->
  (forall kv, In kv es ->
              node_ok (snd kv) = true /\ enum_strings (snd kv) = true) ->
  mapM (Clamped.param required) es = Fail e -> False.
Proof.
  intros Hr Hl H. apply mapM_failed in H. destruct H as (kv & Hkv & E).
  destruct (Hl kv Hkv) as [Hq Hs].
  unfold Clamped.param in E. failed E.
  - eapply ToString_total; [|eassumption].
    eapply Clamped_call_ok; [| |eassumption]; assumption.
  - eapply Clamped_call_total; [| |eassumption]; assumption.
  - eapply includes_total; eassumption.
Qed.

Lemma Clamped_root_total schema e :
  node_ok schema = true -> enum_strings schema = true ->
  required_ok schema = true ->
  Clamped.jsonSchemaToXml schema = Fail e -> False.
Proof.
  intros Hok Hen Hr H. unfold Clamped.jsonSchemaToXml in H.
  destruct (negb (truthy schema) || negb (typeof_object schema)) eqn:Hobj;
    [discriminate|].
  pose proof (node_ok_not_nullish _ Hok) as Hnn.
  failed H; field_facts; enum_facts; bool_facts.
  all: try solve [eapply get_total; [|eassumption]; assumption].
  all: try match goal with
       | E : (if truthy ?a then _ else Ok true) = Ok false |- _ =>
           destruct (truthy a) eqn:?; [|discriminate E]
       end.
  all: try solve [eapply entries_total; eassumption].
  all: try solve [eapply keys_length_total; eassumption].
  all: try solve [eapply Clamped_call_total; [| |eassumption];
                  [vouched | listed]].
  all: try solve [eapply ToString_total; [|eassumption];
                  eapply Clamped_call_ok; [| |eassumption];
                  [vouched | listed]].
  all: try solve [eapply Clamped_params_total; [| |eassumption];
                  [eapply required_readable; eassumption
                  |intros; split; [vouched | listed]]].
Qed.

(** X9.  The middle snapshot encodes every schema of a well-formed shape
    whose enums hold strings only: the type encoder returns on it, and so
    does the root when [required] is absent, falsy, an array or a string. *)
Theorem schemas_with_string_enums_are_encoded :
  forall p : value,
    node_ok p = true ->
    enum_strings p = true ->
    (exists s, Clamped.encodeType p = Ok s)
    /\ (required_ok p = true -> exists s, Clamped.jsonSchemaToXml p = Ok s).
Proof.
  intros p Hok Hen. split.
  - unfold Clamped.encodeType.
    destruct (Clamped_total _ Hok Hen) as (v & -> & Hv).
    cbn [bind]. apply ToString_ok. exact Hv.
  - intros Hr. destruct (Clamped.jsonSchemaToXml p) as [s|e] eqn:E; [eauto|].
    exfalso. eapply Clamped_root_total; eassumption.
Qed.

Lemma schemas_with_string_enums_are_encoded_witness :
  node_ok query_schema = true
  /\ enum_strings query_schema = true
  /\ required_ok query_schema = true
  /\ (exists s, Clamped.encodeType query_schema = Ok s)
  /\ (exists s, Clamped.jsonSchemaToXml query_schema = Ok s).
Proof.
  do 3 (split; [reflexivity|]).
  destruct (@schemas_with_string_enums_are_encoded query_schema
              eq_refl eq_refl) as [He Hr].
  split; [exact He | exact (Hr eq_refl)].
Defined.

(** ** The branches of the type encoder *)

(** Evaluation of the body on an object node, field after field. *)
Ltac on_fields :=
  rewrite Rich_getCompactType_unfold; unfold Rich.getCompactType_body;
  cbn [truthy typeof_object negb orb get bind].

Lemma or_else_Num z d :
  ToString (or_else (Num z) d)
  = if (z =? 0)%Z then ToString d else Ok (dec_of_Z z).
Proof. unfold or_else. cbn [truthy]. destruct (z =? 0)%Z eqn:E; reflexivity. Qed.

(** X10.  The bounds of an array are shown as [{min..max}] as soon as one
    of [minItems], [maxItems] is given; a missing lower bound is shown as 0
    and a missing upper bound as ∞.  An upper bound of zero is shown as ∞
    too: the code reads [prop.maxItems || "∞"]. *)
Theorem array_bounds_rendering :
  forall (fields : list (jstring * value)) (a b : Z),
    is_str (lookup (lit "type") fields) (lit "array") = true ->
    truthy (lookup (lit "items") fields) = false ->
    (lookup (lit "minItems") fields = Num a ->
     lookup (lit "maxItems") fields = Num b ->
     Rich.getCompactType (Obj fields)
     = Ok (Str (lit "array[any]{" ++ dec_of_Z a ++ lit ".." ++ shown_max b
                  ++ lit "}")))
    /\ (lookup (lit "minItems") fields = Num a ->
        lookup (lit "maxItems") fields = Undefined ->
        Rich.getCompactType (Obj fields)
        = Ok (Str (lit "array[any]{" ++ dec_of_Z a ++ lit ".." ++ infinity_sign
                     ++ lit "}")))
    /\ (lookup (lit "minItems") fields = Undefined ->
        lookup (lit "maxItems") fields = Num b ->
        Rich.getCompactType (Obj fields)
        = Ok (Str (lit "array[any]{" ++ lit "0" ++ lit ".." ++ shown_max b
                     ++ lit "}")))
    /\ (lookup (lit "minItems") fields = Undefined ->
        lookup (lit "maxItems") fields = Undefined ->
        Rich.getCompactType (Obj fields) = Ok (Str (lit "array[any]"))).
Proof.
  intros fields a b Htype Hitems.
  repeat split; intros Hmin Hmax; on_fields;
    rewrite Htype, Hitems, Hmin, Hmax; cbn [defined orb bind];
    rewrite ?or_else_Num; unfold shown_max;
    try (destruct (a =? 0)%Z eqn:Ea; [apply Z.eqb_eq in Ea; subst a|]);
    try destruct (b =? 0)%Z; reflexivity.
Qed.

(** An array of one to no element: the upper bound 0 is shown as ∞. *)
Lemma array_bounds_rendering_witness :
  is_str (lookup (lit "type") bounded_array) (lit "array") = true
  /\ truthy (lookup (lit "items") bounded_array) = false
  /\ lookup (lit "minItems") bounded_array = Num 1
  /\ lookup (lit "maxItems") bounded_array = Num 0
  /\ Rich.getCompactType (Obj bounded_array)
     = Ok (Str (lit "array[any]{1.." ++ infinity_sign ++ lit "}")).
Proof.
  do 4 (split; [reflexivity|]).
  rewrite (proj1 (@array_bounds_rendering bounded_array 1 0 eq_refl eq_refl)
             eq_refl eq_refl).
  reflexivity.
Defined.

(** When the encoding of an element fails, so does the joined encoding. *)
Lemma Array_join_encoded_fails (gct : value -> result value) sep l e :
  (forall p v, gct p = Ok v -> nullish v = false) ->
  mapM (fun p => t <- gct p ;; ToString t) l = Fail e ->
  exists e', (vs <- mapM gct l ;; Array_join sep vs) = Fail e'.
Proof.
  intros Hg. unfold Array_join. revert e.
  induction l as [|x l IH]; intros e H; cbn [mapM] in H; [discriminate|].
  cbn [mapM].
  destruct (gct x) as [v|e1] eqn:Ev; cbn [bind] in *; [|eauto].
  pose proof (Hg _ _ Ev) as Hn.
  destruct (ToString v) as [t|e2] eqn:Et; cbn [bind] in H.
  - destruct (mapM (fun p => t <- gct p ;; ToString t) l) as [ts|e3] eqn:El;
      cbn [bind] in H; [discriminate|].
    destruct (IH _ eq_refl) as [e' He'].
    destruct (mapM gct l) as [vs|]; cbn [mapM bind] in *; [|eauto].
    destruct (mapM _ vs); cbn [bind] in *; [discriminate|].
    destruct v; cbn [bind]; eauto; rewrite Et; cbn [bind]; eauto.
  - destruct (mapM gct l) as [vs|]; cbn [mapM bind]; [|eauto].
    destruct v; try discriminate Hn; rewrite Et; cbn [bind]; eauto.
Qed.

(** X11.  Arrays compose: the encoding of an array without bounds is
    [array[t]] for [t] the encoding of its items, and raises as that one
    does; with a sequence of items it is [tuple[t1,t2,...]] for the
    encodings of the items, and raises when one of them does. *)
Theorem array_of_encoded_items :
  forall (fields : list (jstring * value)) (items : value),
    is_str (lookup (lit "type") fields) (lit "array") = true ->
    lookup (lit "items") fields = items ->
    truthy items = true ->
    lookup (lit "minItems") fields = Undefined ->
    lookup (lit "maxItems") fields = Undefined ->
    (Array_isArray items = false ->
     Rich.getCompactType (Obj fields)
     = (t <- Rich.encodeType items ;;
        Ok (Str (lit "array[" ++ t ++ lit "]"))))
    /\ (forall l, items = Arr l ->
        match mapM Rich.encodeType l with
        | Ok ts =>
            Rich.getCompactType (Obj fields)
            = Ok (Str (lit "tuple[" ++ join (lit ",") ts ++ lit "]"))
        | Fail _ => exists e, Rich.getCompactType (Obj fields) = Fail e
        end).
Proof.
  intros fields items Htype Hitems Ht Hmin Hmax. split.
  - intros Harr. on_fields. rewrite Htype, Hitems, Ht, Harr, Hmin, Hmax.
    unfold Rich.encodeType.
    destruct (Rich.getCompactType items) as [v|]; cbn [bind]; [|reflexivity].
    destruct (ToString v); reflexivity.
  - intros l ->. on_fields. rewrite Htype, Hitems.
    cbn [truthy Array_isArray elements]. rewrite Hmin, Hmax.
    destruct (mapM Rich.encodeType l) as [ts|e] eqn:Hts.
    + pose proof (@Array_join_encoded Rich.getCompactType (lit ",") l ts
                    Rich_not_nullish Hts) as E.
      destruct (mapM Rich.getCompactType l) as [vs|]; cbn [bind] in *;
        [|discriminate].
      rewrite E. reflexivity.
    + destruct (@Array_join_encoded_fails Rich.getCompactType (lit ",") l e
                  Rich_not_nullish Hts) as [e' E].
      exists e'.
      destruct (mapM Rich.getCompactType l) as [vs|]; cbn [bind] in *;
        [|congruence].
      rewrite E. reflexivity.
Qed.

(** An array of arrays of strings. *)
Lemma array_of_encoded_items_witness :
  is_str (lookup (lit "type") array_of_arrays) (lit "array") = true
  /\ truthy (Obj array_root) = true
  /\ Array_isArray (Obj array_root) = false
  /\ Rich.encodeType (Obj array_root) = Ok (lit "array[string]")
  /\ Rich.getCompactType (Obj array_of_arrays)
     = Ok (str "array[array[string]]").
Proof.
  do 4 (split; [reflexivity|]).
  rewrite (proj1 (@array_of_encoded_items array_of_arrays (Obj array_root)
                    eq_refl eq_refl eq_refl eq_refl eq_refl) eq_refl).
  reflexivity.
Defined.

Lemma mapM_nested_prop entries :
  mapM (Rich.nested_prop Rich.getCompactType) entries
  = (types <- mapM Rich.encodeType (List.map snd entries) ;;
     Ok (nested_all entries types)).
Proof.
  induction entries as [|[k p] es IH]; [reflexivity|].
  cbn [List.map mapM snd]. rewrite IH.
  unfold Rich.nested_prop at 1. cbn [fst snd].
  change (Rich.encodeType p) with (t <- Rich.getCompactType p ;; ToString t).
  destruct (Rich.getCompactType p) as [v|]; cbn [bind]; [|reflexivity].
  destruct (ToString v) as [t|]; cbn [bind]; [|reflexivity].
  destruct (mapM Rich.encodeType (List.map snd es)); reflexivity.
Qed.

(** X12.  An object node with at most two properties is expanded as
    [object{k1:t1,k2:t2}], the keys escaped and the types encoded, and
    raises as the encoding of a property does; with none it is [object{}];
    with more than two it is the bare [object]. *)
Theorem object_expansion_threshold :
  forall (fields ps : list (jstring * value)),
    reaches_object_branch fields ->
    is_str (lookup (lit "type") fields) (lit "object") = true ->
    lookup (lit "properties") fields = Obj ps ->
    Rich.getCompactType (Obj fields)
    = if (List.length ps <=? 2)%nat
      then types <- mapM Rich.encodeType (List.map snd ps) ;;
           Ok (Str (lit "object{" ++ join (lit ",") (nested_all ps types)
                      ++ lit "}"))
      else Ok (Str (lit "object")).
Proof.
  intros fields ps (Harr & Hconst & Henum & HallOf) Hobj Hprops.
  on_fields. rewrite Harr, Hconst. cbn [defined bind].
  rewrite Henum, HallOf, Hobj, Hprops.
  cbn [truthy bind Object_keys_length Object_entries].
  rewrite Z_length_leb_2.
  destruct (List.length ps <=? 2)%nat; [|reflexivity].
  rewrite mapM_nested_prop.
  destruct (mapM Rich.encodeType (List.map snd ps)); reflexivity.
Qed.

(** An object whose [properties] is the empty object. *)
Lemma object_expansion_threshold_witness :
  reaches_object_branch empty_object
  /\ is_str (lookup (lit "type") empty_object) (lit "object") = true
  /\ lookup (lit "properties") empty_object = Obj []
  /\ Rich.getCompactType (Obj empty_object) = Ok (str "object{}").
Proof.
  assert (reaches_object_branch empty_object) as H
    by (repeat split; reflexivity).
  split; [exact H|]. do 2 (split; [reflexivity|]).
  rewrite (@object_expansion_threshold empty_object [] H eq_refl eq_refl).
  reflexivity.
Defined.

(** X13.  A union is the encodings of its members joined by [|]; the union
    of no member is the empty string.  In a union an enum of more than
    three values shows its size, [enum(n)], where a property of its own
    would be the bare [enum]. *)
Theorem union_members_are_joined :
  (forall (fields : list (jstring * value)) (members : list value),
      reaches_union_branch fields ->
      lookup (lit "oneOf") fields = Arr members ->
      Rich.getCompactType (Obj fields)
      = (parts <- mapM (Rich.union_part Rich.getCompactType) members ;;
         s <- Array_join (lit "|") parts ;;
         Ok (Str s))
      /\ (members = [] -> Rich.getCompactType (Obj fields) = Ok (Str [])))
  /\ (forall (q : list (jstring * value)) (vs : list value),
      lookup (lit "enum") q = Arr vs ->
      (3 < List.length vs)%nat ->
      Rich.union_part Rich.getCompactType (Obj q)
      = Ok (Str (lit "enum(" ++ dec_of_Z (Z_length vs) ++ lit ")"))).
Proof.
  split.
  - intros fields members Hb Hone.
    destruct Hb as ((Harr & Hconst & Henum & HallOf) & Hobj).
    assert (Rich.getCompactType (Obj fields)
            = (parts <- mapM (Rich.union_part Rich.getCompactType) members ;;
               s <- Array_join (lit "|") parts ;;
               Ok (Str s))) as E.
    { on_fields. rewrite Harr, Hconst. cbn [defined bind].
      rewrite Henum, HallOf, Hobj, Hone. reflexivity. }
    split; [exact E|]. intros ->. rewrite E. reflexivity.
  - intros q vs Henum Hlen. unfold Rich.union_part. cbn [get bind].
    rewrite Henum. cbn [truthy get].
    change (jstring_eqb (lit "length") (lit "length")) with true. cbn [bind].
    unfold le_num. cbn [ToNumber bind].
    replace (Z_length vs <=? 3)%Z with false
      by (symmetry; apply Z.leb_gt; unfold Z_length; lia).
    reflexivity.
Qed.

(** A string or one of five sizes. *)
Lemma union_members_are_joined_witness :
  reaches_union_branch string_or_size
  /\ lookup (lit "oneOf") string_or_size
     = Arr [typed "string"; obj [("enum", Arr five_sizes)]]
  /\ (3 < List.length five_sizes)%nat
  /\ Rich.union_part Rich.getCompactType (obj [("enum", Arr five_sizes)])
     = Ok (str "enum(5)")
  /\ Rich.getCompactType (Obj string_or_size) = Ok (str "string|enum(5)").
Proof.
  assert (reaches_union_branch string_or_size) as H
    by (repeat split; reflexivity).
  assert (3 < List.length five_sizes)%nat as H5 by (cbn; lia).
  split; [exact H|]. split; [reflexivity|]. split; [exact H5|]. split.
  - exact (proj2 union_members_are_joined
             (props [("enum", Arr five_sizes)]) five_sizes eq_refl H5).
  - rewrite (proj1 (proj1 union_members_are_joined string_or_size
                      [typed "string"; obj [("enum", Arr five_sizes)]]
                      H eq_refl)).
    reflexivity.
Defined.

(** X14.  A pattern is embedded cut to its first ten code units, between
    slashes; an empty pattern is left out. *)
Theorem pattern_is_cut_to_ten_units :
  forall (fields : list (jstring * value)) (p : jstring),
    reaches_basic_types fields ->
    is_str (lookup (lit "type") fields) (lit "string") = true ->
    lookup (lit "format") fields = Undefined ->
    lookup (lit "minLength") fields = Undefined ->
    lookup (lit "maxLength") fields = Undefined ->
    lookup (lit "default") fields = Undefined ->
    lookup (lit "pattern") fields = Str p ->
    Rich.getCompactType (Obj fields)
    = Ok (Str (match p with
               | [] => lit "string"
               | _ => lit "string(/" ++ firstn 10 p ++ lit "/)"
               end)).
Proof.
  intros fields p Hb Hstr Hfmt Hmin Hmax Hdef Hpat.
  destruct Hb as (((Harr & Hconst & Henum & HallOf) & Hobj) & Hone & Hany).
  on_fields. rewrite Harr, Hconst. cbn [defined bind].
  rewrite Henum, HallOf, Hobj, Hone, Hany, Hstr, Hfmt, Hmin, Hmax, Hpat, Hdef.
  cbn [orb is_str Rich.constraint defined bind app].
  destruct p as [|c p']; [reflexivity|].
  cbn [truthy get].
  change (jstring_eqb (lit "length") (lit "length")) with true. cbn [bind].
  unfold gt_num. cbn [ToNumber bind].
  assert (forall q : jstring,
             Rich.with_constraints (lit "string") [lit "/" ++ q ++ lit "/"]
             = lit "string(/" ++ q ++ lit "/)") as Hshape.
  { intros q. unfold Rich.with_constraints. cbn [join].
    rewrite <- !app_assoc. reflexivity. }
  destruct (10 <? Z_length (c :: p'))%Z eqn:El; cbn [slice0 ToString bind];
    rewrite Hshape; [reflexivity|].
  rewrite firstn_all2; [reflexivity|].
  apply Z.ltb_ge in El. unfold Z_length in El. lia.
Qed.

(** A pattern of sixteen characters. *)
Lemma pattern_is_cut_to_ten_units_witness :
  reaches_basic_types long_pattern
  /\ is_str (lookup (lit "type") long_pattern) (lit "string") = true
  /\ lookup (lit "pattern") long_pattern = str "0123456789abcdef"
  /\ Rich.getCompactType (Obj long_pattern) = Ok (str "string(/0123456789/)").
Proof.
  assert (reaches_basic_types long_pattern) as H
    by (repeat split; reflexivity).
  split; [exact H|]. do 2 (split; [reflexivity|]).
  rewrite (@pattern_is_cut_to_ten_units long_pattern (lit "0123456789abcdef")
             H eq_refl eq_refl eq_refl eq_refl eq_refl eq_refl).
  reflexivity.
Defined.

(** X15.  A string property whose [default] is null makes the encoder
    raise: the code tests [prop.default !== undefined] and then calls
    [prop.default.toString()]. *)
Theorem string_default_null_raises :
  forall fields : list (jstring * value),
    reaches_basic_types fields ->
    is_str (lookup (lit "type") fields) (lit "string") = true ->
    lookup (lit "default") fields = Null ->
    exists e, Rich.getCompactType (Obj fields) = Fail e.
Proof.
  intros fields Hb Hstr Hdef.
  destruct Hb as (((Harr & Hconst & Henum & HallOf) & Hobj) & Hone & Hany).
  on_fields. rewrite Harr, Hconst. cbn [defined bind].
  rewrite Henum, HallOf, Hobj, Hone, Hany, Hstr, Hdef.
  cbn [orb bind].
  repeat match goal with
         | |- exists e, bind ?m _ = Fail e =>
             destruct m; cbn [bind]; [|eauto]
         end.
  cbn [defined toString bind]. eauto.
Qed.

Lemma string_default_null_raises_witness :
  reaches_basic_types null_default
  /\ is_str (lookup (lit "type") null_default) (lit "string") = true
  /\ lookup (lit "default") null_default = Null
  /\ exists e, Rich.getCompactType (Obj null_default) = Fail e.
Proof.
  assert (reaches_basic_types null_default) as H
    by (repeat split; reflexivity).
  split; [exact H|]. do 2 (split; [reflexivity|]).
  exact (@string_default_null_raises null_default H eq_refl eq_refl).
Defined.

(** X16.  The default of a number is embedded after [=] as it converts to
    a string, neither quoted nor escaped (the default of a string is
    both). *)
Theorem number_default_is_embedded_verbatim :
  forall (fields : list (jstring * value)) (d : value),
    reaches_basic_types fields ->
    is_str (lookup (lit "type") fields) (lit "number")
      || is_str (lookup (lit "type") fields) (lit "integer") = true ->
    lookup (lit "minimum") fields = Undefined ->
    lookup (lit "maximum") fields = Undefined ->
    lookup (lit "multipleOf") fields = Undefined ->
    lookup (lit "default") fields = d ->
    defined d = true ->
    Rich.getCompactType (Obj fields)
    = (s <- ToString d ;; Ok (Str (lit "number=" ++ s))).
Proof.
  intros fields d Hb Hnum Hmin Hmax Hmul Hdef Hd.
  destruct Hb as (((Harr & Hconst & Henum & HallOf) & Hobj) & Hone & Hany).
  assert (is_str (lookup (lit "type") fields) (lit "string") = false) as Hstr.
  { destruct (lookup (lit "type") fields) as [| |b|z|s|l|ps];
      try discriminate Hnum. cbn [is_str] in *.
    destruct (jstring_eqb s (lit "string")) eqn:E; [|reflexivity].
    apply jstring_eqb_eq in E. subst s. discriminate Hnum. }
  on_fields. rewrite Harr, Hconst. cbn [defined bind].
  rewrite Henum, HallOf, Hobj, Hone, Hany, Hstr, Hnum, Hmin, Hmax, Hmul, Hdef.
  cbn [orb Rich.constraint defined bind app Rich.with_constraints].
  rewrite Hd. destruct (ToString d); reflexivity.
Qed.

(** A number whose default is a string with angle brackets. *)
Lemma number_default_is_embedded_verbatim_witness :
  reaches_basic_types tagged_default
  /\ lookup (lit "default") tagged_default = str "<b>"
  /\ defined (str "<b>") = true
  /\ Rich.getCompactType (Obj tagged_default) = Ok (str "number=<b>").
Proof.
  assert (reaches_basic_types tagged_default) as H
    by (repeat split; reflexivity).
  split; [exact H|]. do 2 (split; [reflexivity|]).
  rewrite (@number_default_is_embedded_verbatim tagged_default (str "<b>")
             H eq_refl eq_refl eq_refl eq_refl eq_refl eq_refl).
  reflexivity.
Defined.

(** ** The root of a schema *)

Ltac no_field :=
  repeat match goal with
    | |- context [get ?v (lit ?n)] =>
        rewrite (@get_no_field v (lit n)) by (assumption || reflexivity)
    end.

(** X17.  A schema that is no plain object (an array, a string, a number,
    a boolean, null or undefined) compresses to the empty [<schema>] element
    in the three snapshots, and never raises. *)
Theorem not_an_object_is_the_empty_schema :
  forall schema : value,
    is_object schema = false ->
    Rich.jsonSchemaToXml schema = Ok sentinel
    /\ Clamped.jsonSchemaToXml schema = Ok sentinel
    /\ Early.jsonSchemaToXml schema = Ok sentinel.
Proof.
  intros schema Hobj.
  unfold Rich.jsonSchemaToXml, Clamped.jsonSchemaToXml, Early.jsonSchemaToXml.
  destruct (negb (truthy schema) || negb (typeof_object schema)) eqn:E;
    [repeat split; reflexivity|].
  assert (nullish schema = false) as Hnull
    by (destruct schema; try discriminate; reflexivity).
  no_field. repeat split; reflexivity.
Qed.

Lemma not_an_object_is_the_empty_schema_witness :
  is_object (Arr [typed "string"]) = false
  /\ Rich.jsonSchemaToXml (Arr [typed "string"]) = Ok sentinel
  /\ Clamped.jsonSchemaToXml (Num 7) = Ok sentinel
  /\ Early.jsonSchemaToXml (str "object") = Ok sentinel.
Proof.
  split; [reflexivity|].
  split; [apply (@not_an_object_is_the_empty_schema (Arr [typed "string"]));
          reflexivity|].
  split; [apply (@not_an_object_is_the_empty_schema (Num 7)); reflexivity|].
  apply (@not_an_object_is_the_empty_schema (str "object")); reflexivity.
Defined.

Ltac wrapped H :=
  returned H;
  match goal with
  | |- exists body, lit "<schema></schema>" = _ => exists []; reflexivity
  | |- exists body, lit "<schema>tuple[" ++ ?x ++ _ = _ =>
      exists (lit "tuple[" ++ x ++ lit "]")
  | |- exists body, lit "<schema>array[" ++ ?x ++ _ = _ =>
      exists (lit "array[" ++ x ++ lit "]")
  | |- exists body, lit "<schema>merged{" ++ ?x ++ _ = _ =>
      exists (lit "merged{" ++ x ++ lit "}")
  | |- exists body, lit "<schema>" ++ ?x ++ _ = _ => exists x
  end;
  rewrite <- ?app_assoc; reflexivity.

Lemma Rich_wrapped schema s :
  Rich.jsonSchemaToXml schema = Ok s ->
  exists body, s = lit "<schema>" ++ body ++ lit "</schema>".
Proof. intros H. unfold Rich.jsonSchemaToXml in H. cbv zeta in H. wrapped H. Qed.

Lemma Clamped_wrapped schema s :
  Clamped.jsonSchemaToXml schema = Ok s ->
  exists body, s = lit "<schema>" ++ body ++ lit "</schema>".
Proof. intros H. unfold Clamped.jsonSchemaToXml in H. wrapped H. Qed.

Lemma Early_wrapped schema s :
  Early.jsonSchemaToXml schema = Ok s ->
  exists body, s = lit "<schema>" ++ body ++ lit "</schema>".
Proof. intros H. unfold Early.jsonSchemaToXml in H. wrapped H. Qed.

(** X18.  Whatever the three snapshots return is one [<schema>] element:
    the text starts with the opening tag and ends with the closing one. *)
Theorem output_is_wrapped_in_schema_tags :
  forall (schema : value) (s : jstring),
    Rich.jsonSchemaToXml schema = Ok s
    \/ Clamped.jsonSchemaToXml schema = Ok s
    \/ Early.jsonSchemaToXml schema = Ok s ->
    exists body, s = lit "<schema>" ++ body ++ lit "</schema>".
Proof.
  intros schema s [H|[H|H]].
  - exact (Rich_wrapped _ H).
  - exact (Clamped_wrapped _ H).
  - exact (Early_wrapped _ H).
Qed.

Lemma output_is_wrapped_in_schema_tags_witness :
  Rich.jsonSchemaToXml (Obj tuple_root)
  = Ok (lit "<schema>tuple[string,number]</schema>")
  /\ exists body,
       lit "<schema>tuple[string,number]</schema>"
       = lit "<schema>" ++ body ++ lit "</schema>".
Proof.
  split; [reflexivity|].
  apply (@output_is_wrapped_in_schema_tags (Obj tuple_root)).
  left. reflexivity.
Defined.

Lemma includes_raises required key :
  has_includes required = false -> includes required key = Fail TypeError.
Proof. destruct required; try discriminate; reflexivity. Qed.

Lemma Rich_params_raise required entries :
  has_includes required = false -> entries <> [] ->
  mapM (Rich.param required) entries = Fail TypeError.
Proof.
  intros Hr Hne. destruct entries as [|kv rest]; [congruence|].
  cbn [mapM]. unfold Rich.param. rewrite includes_raises by exact Hr.
  reflexivity.
Qed.

Lemma Clamped_params_raise required entries :
  has_includes required = false -> entries <> [] ->
  mapM (Clamped.param required) entries = Fail TypeError.
Proof.
  intros Hr Hne. destruct entries as [|kv rest]; [congruence|].
  cbn [mapM]. unfold Clamped.param. rewrite includes_raises by exact Hr.
  reflexivity.
Qed.

(** X19.  A truthy [required] that is neither an array nor a string (true,
    a number, an object) makes the root raise a TypeError as soon as there
    is a property to list: the code calls [required.includes(key)]. *)
Theorem required_without_includes_raises :
  forall (fields ps : list (jstring * value)) (required : value),
    is_str (lookup (lit "type") fields) (lit "array")
      && truthy (lookup (lit "items") fields) = false ->
    lookup (lit "properties") fields = Obj ps ->
    ps <> [] ->
    lookup (lit "required") fields = required ->
    truthy required = true ->
    has_includes required = false ->
    Rich.jsonSchemaToXml (Obj fields) = Fail TypeError
    /\ Clamped.jsonSchemaToXml (Obj fields) = Fail TypeError.
Proof.
  intros fields ps required Harr Hprops Hne Hreq Ht Hinc.
  assert (or_else required (Arr []) = required) as Hor
    by (unfold or_else; rewrite Ht; reflexivity).
  split.
  - unfold Rich.jsonSchemaToXml.
    cbn [truthy typeof_object negb orb get bind]. rewrite Harr, Hprops, Hreq.
    cbn [truthy Object_keys_length Object_entries bind].
    rewrite (Z_length_eqb_0 Hne), Hor,
      (@Rich_params_raise required ps Hinc Hne).
    cbn [bind].
    destruct (truthy (lookup (lit "allOf") fields)
              && Array_isArray (lookup (lit "allOf") fields)); [|reflexivity].
    destruct (Rich.mergeAllOfProperties
                (elements (lookup (lit "allOf") fields)))
      as [merged|e] eqn:Em; cbn [bind].
    + rewrite Z_length_ltb_0. destruct merged as [|kv merged]; [reflexivity|].
      rewrite Rich_params_raise by (assumption || discriminate). reflexivity.
    + rewrite (@merge_fails_with_TypeError _ _ Em). reflexivity.
  - unfold Clamped.jsonSchemaToXml.
    cbn [truthy typeof_object negb orb get bind]. rewrite Harr, Hprops, Hreq.
    cbn [truthy Object_keys_length Object_entries bind].
    rewrite (Z_length_eqb_0 Hne), Hor,
      (@Clamped_params_raise required ps Hinc Hne).
    reflexivity.
Qed.

(** The query schema with [required: true]. *)
Lemma required_without_includes_raises_witness :
  lookup (lit "properties") required_true = Obj (props [("q", typed "string")])
  /\ props [("q", typed "string")] <> []
  /\ truthy (Bool true) = true
  /\ has_includes (Bool true) = false
  /\ Rich.jsonSchemaToXml (Obj required_true) = Fail TypeError
  /\ Clamped.jsonSchemaToXml (Obj required_true) = Fail TypeError.
Proof.
  assert (props [("q", typed "string")] <> []) as Hne by discriminate.
  split; [reflexivity|]. split; [exact Hne|]. do 2 (split; [reflexivity|]).
  exact (@required_without_includes_raises required_true
           (props [("q", typed "string")]) (Bool true)
           eq_refl eq_refl Hne eq_refl eq_refl eq_refl).
Defined.

(** ** Texts without angle brackets *)

Lemma angle_free_app a b : angle_free (a ++ b) = angle_free a && angle_free b.
Proof. apply forallb_app. Qed.

Lemma markup_angle c : markup c = false -> negb (angle c) = true.
Proof.
  unfold markup, angle. intros H.
  repeat (apply orb_false_iff in H; destruct H as [H ?]).
  rewrite H. match goal with E : (c =? 62)%N = false |- _ => rewrite E end.
  reflexivity.
Qed.

Lemma angle_free_escapeXml s : angle_free (escapeXml s) = true.
Proof.
  apply forallb_forall. intros c Hc.
  apply markup_angle, (escapeXml_no_markup _ _ Hc).
Qed.

Lemma angle_free_join sep l :
  angle_free sep = true -> (forall x, In x l -> angle_free x = true) ->
  angle_free (join sep l) = true.
Proof.
  intros Hs. induction l as [|x l IH]; intros Hl; [reflexivity|].
  cbn [join]. destruct l as [|y l']; [apply Hl; left; reflexivity|].
  rewrite !angle_free_app, Hs, (Hl x (or_introl eq_refl)). cbn [andb].
  apply IH. intros z Hz. apply Hl. right; exact Hz.
Qed.

Lemma digit_is_no_angle c : is_digit c = true -> negb (angle c) = true.
Proof.
  unfold is_digit, angle. intros H. apply andb_true_iff in H.
  destruct H as [H1 H2]. apply N.leb_le in H1, H2.
  destruct (N.eqb_spec c 60); [lia|]. destruct (N.eqb_spec c 62); [lia|].
  reflexivity.
Qed.

Lemma digits_angle_free s : forallb is_digit s = true -> angle_free s = true.
Proof.
  unfold angle_free. rewrite !forallb_forall. intros H c Hc.
  apply digit_is_no_angle, H, Hc.
Qed.

Lemma dec_of_Z_angle_free z : angle_free (dec_of_Z z) = true.
Proof.
  unfold dec_of_Z. destruct z; cbn [Z.to_int NilZero.string_of_int].
  - reflexivity.
  - apply digits_angle_free, string_of_uint_digits.
  - change (angle_free (lit "-" ++ lit (NilZero.string_of_uint (Pos.to_uint p)))
            = true).
    rewrite angle_free_app. apply andb_true_intro. split; [reflexivity|].
    apply digits_angle_free, string_of_uint_digits.
Qed.

Lemma ToString_clean : forall v s,
  text_clean v = true -> ToString v = Ok s -> angle_free s = true.
Proof.
  enough (forall n v s, (depth v < n)%nat -> text_clean v = true ->
                        ToString v = Ok s -> angle_free s = true) as K
    by (intros v s; apply (K (S (depth v))); lia).
  induction n as [|n IH]; intros v s Hd Hc H; [lia|].
  destruct v as [| |[|]|z|t|l|ps]; cbn [ToString] in H.
  1-6: apply Ok_inj in H; subst s; try reflexivity.
  - apply dec_of_Z_angle_free.
  - exact Hc.
  - assert (forall x, In x l -> forall t, ToString x = Ok t -> angle_free t = true)
      as Hl.
    { intros x Hx t Ht. apply (IH x t); [| |exact Ht].
      - apply depth_Arr_In in Hx. cbn [depth pred] in *. lia.
      - cbn [text_clean] in Hc. rewrite forallb_forall in Hc. auto. }
    clear Hd Hc. revert H.
    match goal with
    | |- bind (?elems l) _ = _ -> _ => set (go := elems)
    end.
    intros H. destruct (go l) as [parts|] eqn:Eg; cbn [bind] in H;
      [|discriminate].
    apply Ok_inj in H. subst s. apply angle_free_join; [reflexivity|].
    clear IH. revert parts Eg.
    induction l as [|x l IHl]; intros parts Eg; cbn in Eg.
    + apply Ok_inj in Eg. subst. intros ? [].
    + fold go in Eg.
      destruct (match x with Undefined | Null => Ok [] | _ => ToString x end)
        as [t|] eqn:Ex; cbn [bind] in Eg; [|discriminate].
      destruct (go l) as [ts|] eqn:El; cbn [bind] in Eg; [|discriminate].
      apply Ok_inj in Eg. subst parts. intros y [<-|Hy].
      * destruct x; try (apply Ok_inj in Ex; subst; reflexivity);
          eapply Hl; try eassumption; left; reflexivity.
      * eapply IHl; [|reflexivity|exact Hy].
        intros z Hz. apply Hl. right; exact Hz.
  - destruct (has_key (lit "toString") ps); [discriminate|].
    apply Ok_inj in H. subst. reflexivity.
Qed.

Lemma toString_clean v s :
  text_clean v = true -> toString v = Ok s -> angle_free s = true.
Proof.
  destruct v; cbn [toString]; try discriminate; apply ToString_clean.
Qed.

Lemma Array_join_clean sep l s :
  angle_free sep = true -> (forall x, In x l -> text_clean x = true) ->
  Array_join sep l = Ok s -> angle_free s = true.
Proof.
  unfold Array_join. intros Hs Hl H.
  destruct (mapM _ l) as [parts|] eqn:E; cbn [bind] in H; [|discriminate].
  apply Ok_inj in H. subst s. apply angle_free_join; [exact Hs|].
  intros t Ht. destruct (@mapM_In _ _ _ _ _ _ E Ht) as (x & Hx & Ex).
  destruct x; try (apply Ok_inj in Ex; subst; reflexivity);
    eapply ToString_clean; try eassumption; apply Hl; assumption.
Qed.

(** ** The fields of a clean schema *)

Lemma raw_clean_fields fields :
  raw_clean (Obj fields) = forallb (field_clean fields) fields.
Proof. reflexivity. Qed.

Lemma raw_clean_lookup fields k :
  raw_clean (Obj fields) = true ->
  lookup k fields = Undefined
  \/ field_clean fields (k, lookup k fields) = true.
Proof.
  rewrite raw_clean_fields, forallb_forall. intros H. unfold lookup.
  destruct (find_key k fields) as [x|] eqn:E; [right | left; reflexivity].
  apply H, find_key_In_key, E.
Qed.

Lemma entries_clean_In x kv :
  entries_clean x = true -> In kv (own_entries x) -> raw_clean (snd kv) = true.
Proof.
  intros H Hin.
  destruct x as [| |b|z|s|l|qs]; cbn [own_entries Object_entries] in Hin;
    try destruct Hin.
  - apply indexed_In, in_map_iff in Hin. destruct Hin as (c & <- & _).
    reflexivity.
  - apply indexed_In in Hin. cbn [entries_clean raw_clean] in H.
    rewrite forallb_forall in H. auto.
  - cbn [entries_clean] in H. rewrite forallb_forall in H. auto.
Qed.

Lemma get_field_clean p k a :
  raw_clean p = true -> get p k = Ok a ->
  forallb is_digit k = false -> jstring_eqb k (lit "length") = false ->
  a = Undefined
  \/ exists fields, p = Obj fields /\ field_clean fields (k, a) = true.
Proof.
  intros Hc Hg Hd Hl.
  destruct (@get_cases p k a Hg Hd Hl) as [->|(fields & -> & ->)]; [auto|].
  destruct (raw_clean_lookup fields k Hc) as [->|H]; [auto|].
  right. eauto.
Qed.

Lemma get_raw p k a :
  raw_clean p = true -> get p k = Ok a ->
  existsb (jstring_eqb k) raw_keys = true ->
  forallb is_digit k = false -> jstring_eqb k (lit "length") = false ->
  text_clean a = true.
Proof.
  intros Hc Hg Hk Hd Hl.
  destruct (@get_field_clean p k a Hc Hg Hd Hl) as [->|(fields & -> & H)];
    [reflexivity|].
  unfold field_clean in H. cbn [fst snd] in H. rewrite Hk in H. exact H.
Qed.

Lemma get_node p k a :
  raw_clean p = true -> get p k = Ok a ->
  existsb (jstring_eqb k) node_keys = true ->
  raw_clean a = true.
Proof.
  intros Hc Hg Hk.
  assert (forallb is_digit k = false /\ jstring_eqb k (lit "length") = false
          /\ existsb (jstring_eqb k) raw_keys = false
          /\ jstring_eqb k (lit "default") = false
          /\ jstring_eqb k (lit "enum") = false) as (Hd & Hl & H1 & H2 & H3).
  { cbn [existsb node_keys] in Hk.
    repeat (apply orb_true_iff in Hk; destruct Hk as [Hk|Hk]);
      try discriminate; apply jstring_eqb_eq in Hk; subst k;
      repeat split; reflexivity. }
  destruct (@get_field_clean p k a Hc Hg Hd Hl) as [->|(fields & -> & H)];
    [reflexivity|].
  unfold field_clean in H. cbn [fst snd] in H.
  rewrite H1, H2, H3, Hk in H. exact H.
Qed.

Lemma get_enum p a :
  raw_clean p = true -> get p (lit "enum") = Ok a -> is_object a = false.
Proof.
  intros Hc Hg.
  destruct (@get_field_clean p (lit "enum") a Hc Hg eq_refl eq_refl)
    as [->|(fields & -> & H)]; [reflexivity|].
  apply negb_true_iff. exact H.
Qed.

Lemma get_default p t d :
  raw_clean p = true -> get p (lit "type") = Ok t ->
  get p (lit "default") = Ok d -> default_is_raw t = true ->
  text_clean d = true.
Proof.
  intros Hc Ht Hg Hraw.
  destruct (@get_field_clean p (lit "default") d Hc Hg eq_refl eq_refl)
    as [->|(fields & -> & H)]; [reflexivity|].
  cbn [get] in Ht. apply Ok_inj in Ht. subst t.
  change (negb (default_is_raw (lookup (lit "type") fields)) || text_clean d
          = true) in H.
  rewrite Hraw in H. exact H.
Qed.

Lemma get_properties p x kv :
  raw_clean p = true -> get p (lit "properties") = Ok x ->
  In kv (own_entries x) -> raw_clean (snd kv) = true.
Proof.
  intros Hc Hg Hin.
  destruct (@get_field_clean p (lit "properties") x Hc Hg eq_refl eq_refl)
    as [Hx|(fields & Hp & H)].
  - subst x. destruct Hin.
  - change (entries_clean x = true) in H.
    eapply entries_clean_In; eassumption.
Qed.

Lemma elements_clean a x :
  raw_clean a = true -> In x (elements a) -> raw_clean x = true.
Proof.
  destruct a; cbn [elements In]; try tauto.
  cbn [raw_clean]. rewrite forallb_forall. auto.
Qed.

Lemma merged_clean a merged kv :
  raw_clean a = true -> Rich.mergeAllOfProperties (elements a) = Ok merged ->
  In kv merged -> raw_clean (snd kv) = true.
Proof.
  intros Ha Hm. revert kv.
  apply (@merged_values (fun v => raw_clean v = true) _ _ Hm).
  intros m kv Hin Hkv.
  destruct (member_entries_In _ _ Hkv) as (properties & Hg & Hin').
  eapply get_properties;
    [apply (@elements_clean a m Ha Hin) | exact Hg | exact Hin'].
Qed.

Lemma entries_of_clean p properties es kv :
  raw_clean p = true -> get p (lit "properties") = Ok properties ->
  Object_entries properties = Ok es -> In kv es -> raw_clean (snd kv) = true.
Proof.
  intros Hp Hg He Hin. eapply get_properties; [exact Hp | exact Hg|].
  unfold own_entries. rewrite He. exact Hin.
Qed.

Lemma or_else_clean a d :
  text_clean a = true -> text_clean d = true -> text_clean (or_else a d) = true.
Proof. unfold or_else. destruct (truthy a); auto. Qed.

Lemma constraint_clean sign field cs :
  angle_free sign = true -> text_clean field = true ->
  Rich.constraint sign field = Ok cs ->
  forall c, In c cs -> angle_free c = true.
Proof.
  unfold Rich.constraint. intros Hs Hf H. returned H; intros c Hc.
  - destruct Hc as [<-|[]]. rewrite angle_free_app, Hs.
    eapply ToString_clean; eassumption.
  - destruct Hc.
Qed.

Lemma with_constraints_clean base cs :
  angle_free base = true -> (forall c, In c cs -> angle_free c = true) ->
  angle_free (Rich.with_constraints base cs) = true.
Proof.
  intros Hb Hc. unfold Rich.with_constraints. destruct cs as [|c cs]; [exact Hb|].
  rewrite !angle_free_app, Hb. cbn [andb].
  apply andb_true_intro. split; [reflexivity|].
  apply andb_true_intro. split; [|reflexivity].
  apply angle_free_join; [reflexivity | exact Hc].
Qed.

Lemma escaped_strings_clean vs ss :
  mapM (fun v => s <- toString v ;; Ok (escapeXml s)) vs = Ok ss ->
  forall s, In s ss -> angle_free s = true.
Proof.
  intros H s Hs. destruct (@mapM_In _ _ _ _ _ _ H Hs) as (v & _ & E).
  returned E. apply angle_free_escapeXml.
Qed.

Section RecursiveClean.
Variable f : value -> result value.
Variable d : nat.
Hypothesis Hf :
  forall q v, (depth q < d)%nat -> raw_clean q = true -> f q = Ok v ->
              text_clean v = true.

Lemma calls_clean l ts :
  (forall q, In q l -> (depth q < d)%nat /\ raw_clean q = true) ->
  mapM f l = Ok ts -> forall t, In t ts -> text_clean t = true.
Proof.
  intros Hl H t Ht. destruct (@mapM_In _ _ _ _ _ _ H Ht) as (q & Hq & E).
  destruct (Hl q Hq). eapply Hf; eassumption.
Qed.

Lemma nested_props_clean (es : list (jstring * value)) ss :
  (forall kv, In kv es -> (depth (snd kv) < d)%nat /\ raw_clean (snd kv) = true) ->
  mapM (Rich.nested_prop f) es = Ok ss ->
  forall s, In s ss -> angle_free s = true.
Proof.
  intros Hl H s Hs. destruct (@mapM_In _ _ _ _ _ _ H Hs) as (kv & Hkv & E).
  destruct (Hl kv Hkv) as [Hd Hq]. unfold Rich.nested_prop in E. returned E.
  rewrite !angle_free_app, angle_free_escapeXml. cbn [andb].
  apply andb_true_intro. split; [reflexivity|].
  eapply ToString_clean; [|eassumption]. eapply Hf; eassumption.
Qed.
End RecursiveClean.

Lemma length_clean x len :
  is_object x = false -> get x (lit "length") = Ok len -> text_clean len = true.
Proof.
  destruct x; try discriminate; cbn; intros _ H; apply Ok_inj in H; subst;
    reflexivity.
Qed.

(** What the fields read so far hold, for a clean node. *)
Ltac clean_facts :=
  repeat match goal with
    | Hc : raw_clean ?p = true, E : get ?p (lit ?n) = Ok ?a |- _ =>
        first
          [ pose proof (@get_raw p (lit n) a Hc E eq_refl eq_refl eq_refl)
          | pose proof (@get_node p (lit n) a Hc E eq_refl)
          | pose proof (@get_enum p a Hc E)
          | idtac ];
        revert E
    end;
  intros.

(** The pieces of a text are free of angle brackets. *)
Ltac pieces :=
  cbn [text_clean];
  repeat (rewrite angle_free_app; apply andb_true_intro; split);
  try reflexivity;
  try apply angle_free_escapeXml;
  try apply dec_of_Z_angle_free.

Section RecursiveUnion.
Variable f : value -> result value.
Variable d : nat.
Hypothesis Hf :
  forall q v, (depth q < d)%nat -> raw_clean q = true -> f q = Ok v ->
              text_clean v = true.

Lemma union_part_clean p v :
  (depth p < d)%nat -> raw_clean p = true ->
  Rich.union_part f p = Ok v -> text_clean v = true.
Proof.
  intros Hd Hc H. unfold Rich.union_part in H. returned H; clean_facts.
  all: try solve [eapply Hf; eassumption].
  all: pieces.
  all: try solve [apply angle_free_join; [reflexivity|];
                  eapply escaped_strings_clean; eassumption].
  all: try solve [eapply ToString_clean; [|eassumption];
                  eapply length_clean; eassumption].
  all: try solve [apply with_constraints_clean; [reflexivity|];
                  intros c Hin; apply in_app_or in Hin;
                  destruct Hin as [Hin|Hin];
                  (eapply constraint_clean; [| | |exact Hin];
                   [| |eassumption]; [reflexivity | assumption])].
Qed.

Lemma union_parts_clean l ts :
  (forall q, In q l -> (depth q < d)%nat /\ raw_clean q = true) ->
  mapM (Rich.union_part f) l = Ok ts -> forall t, In t ts -> text_clean t = true.
Proof.
  intros Hl H t Ht. destruct (@mapM_In _ _ _ _ _ _ H Ht) as (q & Hq & E).
  destruct (Hl q Hq). eapply union_part_clean; eassumption.
Qed.
End RecursiveUnion.

Lemma union_members_clean a b l x :
  raw_clean a = true -> raw_clean b = true ->
  or_else a (or_else b (Arr [])) = Arr l -> In x l -> raw_clean x = true.
Proof.
  unfold or_else. intros Ha Hb E Hin.
  destruct (truthy a); [|destruct (truthy b)]; subst;
    try (eapply (@elements_clean (Arr l)); [eassumption | exact Hin]).
  apply Ok_inj in E || injection E as <-. destruct Hin.
Qed.

(** The value is a clean node the hypotheses vouch for. *)
Ltac spotless :=
  solve [ assumption
        | eapply elements_clean; [|eassumption]; spotless
        | eapply entries_of_clean; [| |eassumption..]; [|eassumption];
          assumption
        | eapply merged_clean; [|eassumption..]; spotless
        | eapply union_members_clean; [| |eassumption..]; assumption ].

Lemma default_clean p t dflt :
  raw_clean p = true -> get p (lit "type") = Ok t ->
  get p (lit "default") = Ok dflt ->
  is_str t (lit "number") || is_str t (lit "integer") = true
  \/ is_str t (lit "boolean") = true ->
  text_clean dflt = true.
Proof.
  intros Hc Ht Hd Hraw. eapply get_default; try eassumption.
  unfold default_is_raw. destruct Hraw as [->| ->];
    [reflexivity | apply orb_true_r].
Qed.

Lemma forallb_firstn {A} (g : A -> bool) n l :
  forallb g l = true -> forallb g (firstn n l) = true.
Proof.
  intros H. rewrite <- (firstn_skipn n l), forallb_app in H.
  apply andb_true_iff in H. apply H.
Qed.

Lemma slice0_clean n v w :
  text_clean v = true -> slice0 n v = Ok w -> text_clean w = true.
Proof.
  destruct v; cbn [slice0]; try discriminate; intros Hv H;
    apply Ok_inj in H; subst w; apply forallb_firstn; exact Hv.
Qed.

Ltac constraints_clean :=
  apply with_constraints_clean;
  [ repeat match goal with
           | |- context [if ?b then _ else _] => destruct b
           end; reflexivity
  | intros c Hin;
    repeat (apply in_app_or in Hin; destruct Hin as [Hin|Hin]);
    first [ eapply constraint_clean; [| | |exact Hin];
            [| |eassumption]; [reflexivity | assumption]
          | destruct Hin as [<-|[]]; pieces;
            eapply ToString_clean; [|eassumption];
            first [ assumption | eapply slice0_clean; [|eassumption]; assumption ]
          | destruct Hin ] ].

Lemma Rich_body_clean (f : value -> result value) p v :
  raw_clean p = true ->
  (forall q v, (depth q < depth p)%nat -> raw_clean q = true -> f q = Ok v ->
               text_clean v = true) ->
  Rich.getCompactType_body f p = Ok v -> text_clean v = true.
Proof.
  intros Hc Hf H. unfold Rich.getCompactType_body in H.
  destruct (negb (truthy p) || negb (typeof_object p)) eqn:Hobj;
    [apply Ok_inj in H; subst; reflexivity|].
  apply object_depth_pos in Hobj. cbv zeta in H.
  returned H; blocks; clean_facts; bool_facts.
  all: pieces.
  all: try solve [apply or_else_clean; [assumption | reflexivity]].
  all: try solve [eapply ToString_clean; [|eassumption];
                  first [ assumption
                        | apply or_else_clean; [assumption | reflexivity]
                        | eapply Hf; [| |eassumption]; [shallower | spotless]
                        | eapply default_clean; [| |eassumption|]; [|eassumption|];
                          [assumption | auto] ]].
  all: try solve [apply angle_free_join; [reflexivity|];
                  eapply escaped_strings_clean; eassumption].
  all: try solve [apply angle_free_join; [reflexivity|];
                  eapply (@nested_props_clean _ _ Hf); [|eassumption];
                  intros; split; [shallower | spotless]].
  all: try solve [eapply Array_join_clean; [| |eassumption]; [reflexivity|];
                  first [ eapply (@calls_clean _ _ Hf); [|eassumption]
                        | eapply (@union_parts_clean _ _ Hf); [|eassumption] ];
                  intros; split; [shallower | spotless]].
  all: try solve [constraints_clean].
Qed.

Lemma Rich_clean : forall p v,
  raw_clean p = true -> Rich.getCompactType p = Ok v -> text_clean v = true.
Proof.
  enough (forall n p v, (depth p < n)%nat -> raw_clean p = true ->
            Rich.getCompactType p = Ok v -> text_clean v = true) as K
    by (intros p v; apply (K (S (depth p))); lia).
  induction n as [|n IH]; intros p v Hd Hc H; [lia|].
  rewrite Rich_getCompactType_unfold in H.
  eapply Rich_body_clean; [exact Hc | | exact H].
  intros q w Hq Hqc. apply IH; [lia | exact Hqc].
Qed.

Lemma Rich_encoding_clean p s :
  raw_clean p = true -> Rich.encodeType p = Ok s -> angle_free s = true.
Proof.
  unfold Rich.encodeType. intros Hc H.
  destruct (Rich.getCompactType p) as [v|] eqn:E; cbn [bind] in H;
    [|discriminate].
  eapply ToString_clean; [|exact H]. eapply Rich_clean; eassumption.
Qed.

Lemma Rich_params_clean required (es : list (jstring * value)) ss :
  (forall kv, In kv es -> raw_clean (snd kv) = true) ->
  mapM (Rich.param required) es = Ok ss ->
  forall s, In s ss -> angle_free s = true.
Proof.
  intros Hl H s Hs. destruct (@mapM_In _ _ _ _ _ _ H Hs) as (kv & Hkv & E).
  unfold Rich.param in E. returned E.
  match goal with |- context [if ?b then _ else _] => destruct b end; pieces;
    (eapply ToString_clean; [|eassumption]);
    (eapply Rich_clean; [|eassumption]); auto.
Qed.

Lemma Rich_calls_clean l ts :
  (forall q, In q l -> raw_clean q = true) ->
  mapM Rich.getCompactType l = Ok ts -> forall t, In t ts -> text_clean t = true.
Proof.
  intros Hl H t Ht. destruct (@mapM_In _ _ _ _ _ _ H Ht) as (q & Hq & E).
  eapply Rich_clean; [|exact E]. auto.
Qed.

Ltac body_of H :=
  returned H; blocks;
  match goal with
  | |- exists body, lit "<schema></schema>" = _ /\ _ => exists []
  | |- exists body, lit "<schema>tuple[" ++ ?x ++ _ = _ /\ _ =>
      exists (lit "tuple[" ++ x ++ lit "]")
  | |- exists body, lit "<schema>array[" ++ ?x ++ _ = _ /\ _ =>
      exists (lit "array[" ++ x ++ lit "]")
  | |- exists body, lit "<schema>merged{" ++ ?x ++ _ = _ /\ _ =>
      exists (lit "merged{" ++ x ++ lit "}")
  | |- exists body, lit "<schema>" ++ ?x ++ _ = _ /\ _ => exists x
  end;
  (split; [rewrite <- ?app_assoc; reflexivity|]).

(** X20.  In the richest snapshot the tags of the [<schema>] element are
    the only angle brackets of the output, as long as the fields embedded
    as they are have none: [type], the numeric bounds, [multipleOf],
    [pattern], and the [default] of a number or a boolean.  Keys, constants,
    the values of an enum and the defaults of strings may hold anything. *)
Theorem raw_fields_are_the_only_leak :
  forall (schema : value) (s : jstring),
    raw_clean schema = true ->
    Rich.jsonSchemaToXml schema = Ok s ->
    exists body,
      s = lit "<schema>" ++ body ++ lit "</schema>"
      /\ angle_free body = true.
Proof.
  intros schema s Hc H. unfold Rich.jsonSchemaToXml in H.
  destruct (negb (truthy schema) || negb (typeof_object schema)) eqn:Hobj.
  - apply Ok_inj in H. subst. exists []. split; reflexivity.
  - cbv zeta in H. body_of H; clean_facts; bool_facts.
    all: pieces.
    all: try solve [eapply ToString_clean; [|eassumption];
                    eapply Rich_clean; [|eassumption]; spotless].
    all: try solve [eapply Array_join_clean; [| |eassumption]; [reflexivity|];
                    eapply Rich_calls_clean; [|eassumption];
                    intros; spotless].
    all: try solve [apply angle_free_join; [reflexivity|];
                    eapply Rich_params_clean; [|eassumption];
                    intros; spotless].
Qed.

(** A key and an enum value with a tag. *)
Lemma raw_fields_are_the_only_leak_witness :
  raw_clean (Obj tagged_names) = true
  /\ Rich.jsonSchemaToXml (Obj tagged_names)
     = Ok (lit "<schema>&lt;b&gt;?:enum(&lt;i&gt;)</schema>")
  /\ exists body,
       lit "<schema>&lt;b&gt;?:enum(&lt;i&gt;)</schema>"
       = lit "<schema>" ++ body ++ lit "</schema>"
       /\ angle_free body = true.
Proof.
  do 2 (split; [reflexivity|]).
  exact (@raw_fields_are_the_only_leak (Obj tagged_names) _ eq_refl eq_refl).
Defined.

(** ** The raw text of the middle snapshot *)

Lemma types_clean_lookup fields k :
  types_clean (Obj fields) = true ->
  lookup k fields = Undefined
  \/ type_field_clean types_clean (k, lookup k fields) = true.
Proof.
  cbn [types_clean]. rewrite forallb_forall. intros H. unfold lookup.
  destruct (find_key k fields) as [x|] eqn:E; [right | left; reflexivity].
  apply H, find_key_In_key, E.
Qed.

Lemma get_type_field p k a :
  types_clean p = true -> get p k = Ok a ->
  forallb is_digit k = false -> jstring_eqb k (lit "length") = false ->
  a = Undefined \/ type_field_clean types_clean (k, a) = true.
Proof.
  intros Hc Hg Hd Hl.
  destruct (@get_cases p k a Hg Hd Hl) as [->|(fields & -> & ->)]; [auto|].
  apply types_clean_lookup. exact Hc.
Qed.

Lemma get_type p a :
  types_clean p = true -> get p (lit "type") = Ok a -> text_clean a = true.
Proof.
  intros Hc Hg.
  destruct (@get_type_field p (lit "type") a Hc Hg eq_refl eq_refl)
    as [->|H]; [reflexivity | exact H].
Qed.

Lemma get_nested p k a :
  types_clean p = true -> get p k = Ok a ->
  existsb (jstring_eqb k) nested_keys = true ->
  types_clean a = true.
Proof.
  intros Hc Hg Hk.
  assert (forallb is_digit k = false /\ jstring_eqb k (lit "length") = false
          /\ jstring_eqb k (lit "type") = false) as (Hd & Hl & Ht).
  { cbn [existsb nested_keys] in Hk.
    repeat (apply orb_true_iff in Hk; destruct Hk as [Hk|Hk]);
      try discriminate; apply jstring_eqb_eq in Hk; subst k;
      repeat split; reflexivity. }
  destruct (@get_type_field p k a Hc Hg Hd Hl) as [->|H]; [reflexivity|].
  unfold type_field_clean in H. cbn [fst snd] in H.
  rewrite Ht, Hk in H. exact H.
Qed.

Lemma entries_types_clean p properties es kv :
  types_clean p = true -> get p (lit "properties") = Ok properties ->
  Object_entries properties = Ok es -> In kv es ->
  types_clean (snd kv) = true.
Proof.
  intros Hc Hg He Hin.
  destruct (@get_type_field p (lit "properties") properties Hc Hg
              eq_refl eq_refl) as [->|H]; [discriminate He|].
  unfold type_field_clean in H. cbn [fst snd] in H.
  change (jstring_eqb (lit "properties") (lit "type")) with false in H.
  change (existsb (jstring_eqb (lit "properties")) nested_keys)
    with false in H.
  change (jstring_eqb (lit "properties") (lit "properties")) with true in H.
  cbv iota in H.
  destruct properties as [| |b|z|s|l|qs]; cbn [Object_entries] in He;
    try discriminate He; apply Ok_inj in He; subst es;
    try solve [destruct Hin].
  - apply indexed_In, in_map_iff in Hin. destruct Hin as (c & <- & _).
    reflexivity.
  - apply indexed_In in Hin. cbn [types_clean] in H.
    rewrite forallb_forall in H. auto.
  - rewrite forallb_forall in H. auto.
Qed.

Lemma types_clean_elements a x :
  types_clean a = true -> In x (elements a) -> types_clean x = true.
Proof.
  destruct a; cbn [elements In]; try tauto.
  cbn [types_clean]. rewrite forallb_forall. auto.
Qed.

Lemma types_clean_members a b l x :
  types_clean a = true -> types_clean b = true ->
  or_else a (or_else b (Arr [])) = Arr l -> In x l -> types_clean x = true.
Proof.
  unfold or_else. intros Ha Hb E Hin.
  destruct (truthy a); [|destruct (truthy b)]; subst;
    try (eapply (@types_clean_elements (Arr l)); [eassumption | exact Hin]).
  injection E as <-. destruct Hin.
Qed.

Lemma member_types_clean (members : list value) all :
  (forall q, In q members -> types_clean q = true) ->
  mapM (fun p => get p (lit "type")) members = Ok all ->
  forall t, In t (filter truthy all) -> text_clean t = true.
Proof.
  intros Hm H t Ht. apply filter_In in Ht. destruct Ht as [Ht _].
  destruct (@mapM_In _ _ _ _ _ _ H Ht) as (q & Hq & E).
  eapply get_type; [apply Hm; exact Hq | exact E].
Qed.

Lemma escaped_entries_clean vs ss :
  mapM Clamped.escapeXml_entry vs = Ok ss ->
  forall s, In s ss -> angle_free s = true.
Proof.
  intros H s Hs. destruct (@mapM_In _ _ _ _ _ _ H Hs) as (v & _ & E).
  destruct v; try discriminate E. apply Ok_inj in E. subst s.
  apply angle_free_escapeXml.
Qed.

Section ClampedClean.
Variable f : value -> result value.
Variable d : nat.
Hypothesis Hf :
  forall q v, (depth q < d)%nat -> types_clean q = true -> f q = Ok v ->
              text_clean v = true.

Lemma Clamped_nested_props_clean (es : list (jstring * value)) ss :
  (forall kv, In kv es ->
              (depth (snd kv) < d)%nat /\ types_clean (snd kv) = true) ->
  mapM (Clamped.nested_prop f) es = Ok ss ->
  forall s, In s ss -> angle_free s = true.
Proof.
  intros Hl H s Hs. destruct (@mapM_In _ _ _ _ _ _ H Hs) as (kv & Hkv & E).
  destruct (Hl kv Hkv) as [Hd Hq]. unfold Clamped.nested_prop in E.
  returned E.
  rewrite !angle_free_app, angle_free_escapeXml. cbn [andb].
  apply andb_true_intro. split; [reflexivity|].
  eapply ToString_clean; [|eassumption]. eapply Hf; eassumption.
Qed.
End ClampedClean.

(** What the fields read so far hold, for [types_clean]. *)
Ltac type_facts :=
  repeat match goal with
    | Hc : types_clean ?p = true, E : get ?p (lit ?n) = Ok ?a |- _ =>
        first
          [ pose proof (@get_type p a Hc E)
          | pose proof (@get_nested p (lit n) a Hc E eq_refl)
          | idtac ];
        revert E
    end;
  intros.

Lemma Clamped_body_clean (f : value -> result value) p v :
  types_clean p = true ->
  (forall q v, (depth q < depth p)%nat -> types_clean q = true ->
               f q = Ok v -> text_clean v = true) ->
  Clamped.getCompactType_body f p = Ok v -> text_clean v = true.
Proof.
  intros Hc Hf H. unfold Clamped.getCompactType_body in H.
  destruct (negb (truthy p) || negb (typeof_object p)) eqn:Hobj;
    [apply Ok_inj in H; subst; reflexivity|].
  apply object_depth_pos in Hobj.
  returned H; blocks; type_facts; bool_facts.
  all: pieces.
  all: try solve [apply or_else_clean; [assumption | reflexivity]].
  all: try solve [eapply ToString_clean; [|eassumption];
                  eapply Hf; [| |eassumption]; [shallower | assumption]].
  all: try solve [apply angle_free_join; [reflexivity|];
                  eapply escaped_entries_clean; eassumption].
  all: try solve [apply angle_free_join; [reflexivity|];
                  eapply (@Clamped_nested_props_clean _ _ Hf); [|eassumption];
                  intros; split;
                  [shallower
                  |eapply entries_types_clean; [| | |eassumption];
                   [| |eassumption]; [|eassumption]; assumption]].
  all: try solve [eapply Array_join_clean; [| |eassumption]; [reflexivity|];
                  eapply member_types_clean; [|eassumption];
                  intros; eapply types_clean_members; [| |eassumption|];
                  eassumption].
Qed.

Lemma Clamped_clean : forall p v,
  types_clean p = true -> Clamped.getCompactType p = Ok v ->
  text_clean v = true.
Proof.
  enough (forall n p v, (depth p < n)%nat -> types_clean p = true ->
            Clamped.getCompactType p = Ok v -> text_clean v = true) as K
    by (intros p v; apply (K (S (depth p))); lia).
  induction n as [|n IH]; intros p v Hd Hc H; [lia|].
  rewrite Clamped_getCompactType_unfold in H.
  eapply Clamped_body_clean; [exact Hc | | exact H].
  intros q w Hq Hqc. apply IH; [lia | exact Hqc].
Qed.

Lemma Clamped_params_clean required (es : list (jstring * value)) ss :
  (forall kv, In kv es -> types_clean (snd kv) = true) ->
  mapM (Clamped.param required) es = Ok ss ->
  forall s, In s ss -> angle_free s = true.
Proof.
  intros Hl H s Hs. destruct (@mapM_In _ _ _ _ _ _ H Hs) as (kv & Hkv & E).
  unfold Clamped.param in E. returned E.
  match goal with |- context [if ?b then _ else _] => destruct b end; pieces;
    (eapply ToString_clean; [|eassumption]);
    (eapply Clamped_clean; [|eassumption]); auto.
Qed.

(** X21.  In the middle snapshot the only text embedded as it is is that
    of the [type] fields: when these have no angle bracket, the tags of the
    [<schema>] element are the only angle brackets of the output, whatever
    the keys, the enums and the other fields hold. *)
Theorem type_is_the_only_raw_field :
  forall (schema : value) (s : jstring),
    types_clean schema = true ->
    Clamped.jsonSchemaToXml schema = Ok s ->
    exists body,
      s = lit "<schema>" ++ body ++ lit "</schema>"
      /\ angle_free body = true.
Proof.
  intros schema s Hc H. unfold Clamped.jsonSchemaToXml in H.
  destruct (negb (truthy schema) || negb (typeof_object schema)) eqn:Hobj.
  - apply Ok_inj in H. subst. exists []. split; reflexivity.
  - body_of H; type_facts; bool_facts.
    all: pieces.
    all: try solve [eapply ToString_clean; [|eassumption];
                    eapply Clamped_clean; [|eassumption]; assumption].
    all: try solve [apply angle_free_join; [reflexivity|];
                    eapply Clamped_params_clean; [|eassumption];
                    intros; eapply entries_types_clean; [| | |eassumption];
                    [| |eassumption]; [|eassumption]; assumption].
Qed.

(** A key, an enum value and a default with a tag. *)
Lemma type_is_the_only_raw_field_witness :
  types_clean (Obj tagged_type) = true
  /\ Clamped.jsonSchemaToXml (Obj tagged_type)
     = Ok (lit "<schema>&lt;b&gt;?:enum(&lt;i&gt;), n?:number</schema>")
  /\ exists body,
       lit "<schema>&lt;b&gt;?:enum(&lt;i&gt;), n?:number</schema>"
       = lit "<schema>" ++ body ++ lit "</schema>"
       /\ angle_free body = true.
Proof.
  do 2 (split; [reflexivity|]).
  exact (@type_is_the_only_raw_field (Obj tagged_type) _ eq_refl eq_refl).
Defined.

(** ** The arithmetic of the estimate, on integers *)

Lemma ceil_third (n : Z) : Math_ceil (inject_Z n / 3) = ((n + 2) / 3)%Z.
Proof.
  unfold Math_ceil, Qceiling, Qfloor, Qdiv, Qmult, Qinv, Qopp, inject_Z.
  cbn -[Z.mul Z.add Z.div Z.opp].
  Z.div_mod_to_equations. lia.
Qed.

Lemma ceil_words (w p : Z) :
  Math_ceil (inject_Z w * (13 # 10) + inject_Z p * (1 # 2))
  = ((13 * w + 5 * p + 9) / 10)%Z.
Proof.
  unfold Math_ceil, Qceiling, Qfloor, Qplus, Qmult, Qopp, inject_Z.
  cbn -[Z.mul Z.add Z.div Z.opp].
  Z.div_mod_to_equations. lia.
Qed.

Lemma estimate_on_integers (s : jstring) :
  Clamped.estimateTokens (Str s)
  = Ok (if (Z_length s <? 20)%Z then (Z_length s + 2) / 3
        else (13 * words s + 5 * punctuation s + 9) / 10)%Z.
Proof.
  unfold Clamped.estimateTokens. destruct s as [|c s']; [reflexivity|].
  cbn [truthy negb]. fold (words (c :: s')). fold (punctuation (c :: s')).
  destruct (Z_length (c :: s') <? 20)%Z;
    [rewrite ceil_third | rewrite ceil_words]; reflexivity.
Qed.

(** ** Words *)

Lemma nonempty_cons c w : nonempty (w ++ [c]) = true.
Proof.
  unfold nonempty, Z_length. rewrite length_app. cbn [List.length].
  apply Z.ltb_lt. lia.
Qed.

Lemma blank_after_space text :
  forallb is_space text = true ->
  filter nonempty (split_spaces [] true text) = [].
Proof.
  induction text as [|c r IH]; cbn [forallb split_spaces]; [reflexivity|].
  intros H. apply andb_true_iff in H. destruct H as [-> H]. auto.
Qed.

Lemma blank_text_has_no_word text :
  forallb is_space text = true -> words text = 0%Z.
Proof.
  unfold words. change (fun w => (0 <? Z_length w)%Z) with nonempty.
  destruct text as [|c r]; [reflexivity|].
  cbn [forallb split_spaces]. intros H. apply andb_true_iff in H.
  destruct H as [-> H]. cbn [rev filter].
  change (nonempty []) with false. cbv iota.
  rewrite blank_after_space by exact H. reflexivity.
Qed.

Lemma unbroken_text_is_one_piece text : forall piece b,
  forallb (fun c => negb (is_space c)) text = true ->
  split_spaces piece b text = [rev piece ++ text].
Proof.
  induction text as [|c r IH]; intros piece b; cbn [forallb split_spaces].
  - rewrite app_nil_r. reflexivity.
  - intros H. apply andb_true_iff in H. destruct H as [Hc H].
    apply negb_true_iff in Hc. rewrite Hc, IH by exact H.
    cbn [rev]. rewrite <- app_assoc. reflexivity.
Qed.

Lemma pending_piece_counts text : forall piece,
  piece <> [] ->
  (1 <= List.length (filter nonempty (split_spaces piece false text)))%nat.
Proof.
  induction text as [|c r IH]; intros piece Hp; cbn [split_spaces].
  - destruct piece as [|x piece]; [congruence|].
    cbn [rev filter]. rewrite nonempty_cons. cbn. lia.
  - destruct (is_space c).
    + destruct piece as [|x piece]; [congruence|].
      cbn [rev filter]. rewrite nonempty_cons. cbn [List.length]. lia.
    + apply IH. discriminate.
Qed.

Lemma text_with_a_letter_has_a_word text : forall piece b,
  existsb (fun c => negb (is_space c)) text = true ->
  (1 <= List.length (filter nonempty (split_spaces piece b text)))%nat.
Proof.
  induction text as [|c r IH]; intros piece b; cbn [existsb split_spaces];
    [discriminate|].
  destruct (is_space c); cbn [negb orb]; intros H.
  - destruct b; [apply IH; exact H|].
    cbn [filter]. destruct (nonempty (rev piece)); cbn [List.length];
      [lia | apply IH; exact H].
  - apply pending_piece_counts. discriminate.
Qed.

Lemma punctuation_is_no_space c : is_json_punct c = true -> is_space c = false.
Proof.
  unfold is_json_punct. intros H.
  repeat (apply orb_true_iff in H; destruct H as [H|H]);
    apply N.eqb_eq in H; subst c; reflexivity.
Qed.

Lemma blank_text_has_no_punctuation text :
  forallb is_space text = true -> punctuation text = 0%Z.
Proof.
  unfold punctuation. induction text as [|c r IH]; cbn [forallb filter];
    [reflexivity|].
  intros H. apply andb_true_iff in H. destruct H as [Hc H].
  destruct (is_json_punct c) eqn:E; [|auto].
  apply punctuation_is_no_space in E. congruence.
Qed.

Lemma words_nonneg s : (0 <= words s)%Z.
Proof. apply Z_length_nonneg. Qed.

Lemma punctuation_nonneg s : (0 <= punctuation s)%Z.
Proof. apply Z_length_nonneg. Qed.

Lemma not_blank text :
  forallb is_space text = false ->
  existsb (fun c => negb (is_space c)) text = true.
Proof.
  induction text as [|c r IH]; cbn [forallb existsb]; [discriminate|].
  destruct (is_space c); cbn [andb negb orb]; auto.
Qed.

Lemma words_of_text_with_a_letter s :
  forallb is_space s = false -> (1 <= words s)%Z.
Proof.
  intros H. apply not_blank in H.
  pose proof (text_with_a_letter_has_a_word s [] false H) as K.
  unfold words. change (fun w => (0 <? Z_length w)%Z) with nonempty.
  unfold Z_length. apply (Nat2Z.inj_le 1) in K. exact K.
Qed.

(** X22.  The estimate of a text is zero only for the empty text and for
    a text of twenty characters or more that is white space throughout; a
    short blank text is counted by its length. *)
Theorem estimate_is_zero_for_blank_text_only (s : jstring) :
  Clamped.estimateTokens (Str s) = Ok 0%Z
  <-> s = [] \/ ((20 <= List.length s)%nat /\ forallb is_space s = true).
Proof.
  rewrite estimate_on_integers, Z_length_ltb_20.
  pose proof (words_nonneg s) as Hw. pose proof (punctuation_nonneg s) as Hp.
  destruct (Nat.ltb_spec (List.length s) 20) as [Hlt|Hge]; split.
  - intros H. apply Ok_inj in H. left.
    destruct s as [|c r]; [reflexivity|]. exfalso.
    unfold Z_length in H. cbn [List.length] in H.
    revert H. Z.div_mod_to_equations. lia.
  - intros [->|[Hge _]]; [reflexivity | lia].
  - intros H. apply Ok_inj in H. right. split; [exact Hge|].
    destruct (forallb is_space s) eqn:Hb; [reflexivity|]. exfalso.
    pose proof (words_of_text_with_a_letter s Hb).
    revert H. Z.div_mod_to_equations. lia.
  - intros [->|[_ Hb]]; [cbn in Hge; lia|].
    rewrite (blank_text_has_no_word s Hb), (blank_text_has_no_punctuation s Hb).
    reflexivity.
Qed.

(** X23.  A text of fewer than twenty characters is estimated at a third
    of its length, rounded up, whatever it holds: at most seven tokens. *)
Theorem short_text_is_counted_by_length (s : jstring) :
  (List.length s < 20)%nat ->
  Clamped.estimateTokens (Str s) = Ok ((Z_length s + 2) / 3)%Z
  /\ (0 <= (Z_length s + 2) / 3 <= 7)%Z.
Proof.
  intros H. rewrite estimate_on_integers, Z_length_ltb_20.
  apply Nat.ltb_lt in H. rewrite H. split; [reflexivity|].
  apply Nat.ltb_lt in H. unfold Z_length. Z.div_mod_to_equations. lia.
Qed.

(** A text of seven characters. *)
Lemma short_text_is_counted_by_length_witness :
  (List.length (lit "integer") < 20)%nat
  /\ Clamped.estimateTokens (str "integer") = Ok 3%Z.
Proof.
  assert (List.length (lit "integer") < 20)%nat as H by (cbn; lia).
  split; [exact H|].
  exact (proj1 (@short_text_is_counted_by_length (lit "integer") H)).
Defined.

Lemma unbroken_text_is_one_word s :
  s <> [] -> forallb (fun c => negb (is_space c)) s = true -> words s = 1%Z.
Proof.
  intros Hne H. unfold words.
  rewrite (@unbroken_text_is_one_piece s [] false H). cbn [rev app filter].
  destruct s as [|c r]; [congruence|]. reflexivity.
Qed.

(** X24.  A text of twenty characters or more without white space counts
    as one word however long it is: its estimate is 1.3 plus half a token
    for each JSON punctuation mark, rounded up, and 2 when it has none. *)
Theorem unbroken_text_is_one_word_however_long (s : jstring) :
  (20 <= List.length s)%nat ->
  forallb (fun c => negb (is_space c)) s = true ->
  Clamped.estimateTokens (Str s) = Ok ((22 + 5 * punctuation s) / 10)%Z
  /\ (punctuation s = 0%Z -> Clamped.estimateTokens (Str s) = Ok 2%Z).
Proof.
  intros Hlen H.
  assert (s <> []) as Hne by (destruct s; [cbn in Hlen; lia | discriminate]).
  rewrite estimate_on_integers, Z_length_ltb_20.
  replace (List.length s <? 20)%nat with false
    by (symmetry; apply Nat.ltb_ge; exact Hlen).
  rewrite (unbroken_text_is_one_word Hne H).
  split; [f_equal; f_equal; lia|]. intros ->. reflexivity.
Qed.

(** Twenty-six letters are two tokens. *)
Lemma unbroken_text_is_one_word_however_long_witness :
  (20 <= List.length (lit "abcdefghijklmnopqrstuvwxyz"))%nat
  /\ forallb (fun c => negb (is_space c)) (lit "abcdefghijklmnopqrstuvwxyz")
     = true
  /\ Clamped.estimateTokens (str "abcdefghijklmnopqrstuvwxyz") = Ok 2%Z.
Proof.
  assert (20 <= List.length (lit "abcdefghijklmnopqrstuvwxyz"))%nat as H
    by (cbn; lia).
  split; [exact H|]. split; [reflexivity|].
  exact (proj2 (@unbroken_text_is_one_word_however_long
                  (lit "abcdefghijklmnopqrstuvwxyz") H eq_refl) eq_refl).
Defined.

(** ** The estimates of the metrics wrapper *)

Lemma digit_is_no_space c : is_digit c = true -> is_space c = false.
Proof.
  unfold is_digit. intros H. apply andb_true_iff in H. destruct H as [H1 H2].
  apply N.leb_le in H1, H2. unfold is_space.
  repeat match goal with
         | |- context [(?a <=? ?b)%N] =>
             destruct (N.leb_spec a b); try lia
         | |- context [(?a =? ?b)%N] =>
             destruct (N.eqb_spec a b); try lia
         end; reflexivity.
Qed.

Lemma dec_of_Z_starts_visibly z : starts_visibly (dec_of_Z z) = true.
Proof.
  unfold dec_of_Z.
  assert (forall u, starts_visibly (lit (NilZero.string_of_uint u)) = true) as K.
  { intros u. destruct (string_of_uint_digits u) as [Hd Hne].
    destruct (lit (NilZero.string_of_uint u)) as [|c r]; [congruence|].
    cbn [forallb] in Hd. apply andb_true_iff in Hd. destruct Hd as [Hc _].
    cbn [starts_visibly]. rewrite (digit_is_no_space _ Hc). reflexivity. }
  destruct z; cbn [Z.to_int NilZero.string_of_int]; try apply K. reflexivity.
Qed.

Lemma serialize_starts_visibly v : forall stepback s,
  serialize stepback v = Some s -> starts_visibly s = true.
Proof.
  destruct v as [| |[|]|z|t|l|ps]; intros stepback s H; cbn [serialize] in H;
    try discriminate; inversion H; subst; clear H; try reflexivity.
  - apply dec_of_Z_starts_visibly.
  - unfold wrap. destruct (_ l); reflexivity.
  - unfold wrap. destruct (_ ps); reflexivity.
Qed.

Lemma visible_start_is_not_blank s :
  starts_visibly s = true -> forallb is_space s = false /\ s <> [].
Proof.
  destruct s as [|c r]; [discriminate|]. cbn [starts_visibly forallb].
  intros H. apply negb_true_iff in H. rewrite H. split; [reflexivity|discriminate].
Qed.

Lemma estimate_of_visible_text s n :
  starts_visibly s = true ->
  Clamped.estimateTokens (Str s) = Ok n -> (1 <= n)%Z.
Proof.
  intros Hs H. destruct (visible_start_is_not_blank _ Hs) as [Hb Hne].
  rewrite estimate_on_integers, Z_length_ltb_20 in H. apply Ok_inj in H. subst n.
  pose proof (punctuation_nonneg s).
  pose proof (words_of_text_with_a_letter s Hb).
  destruct (List.length s <? 20)%nat.
  - destruct s as [|c r]; [congruence|]. unfold Z_length. cbn [List.length].
    Z.div_mod_to_equations. lia.
  - Z.div_mod_to_equations. lia.
Qed.

Lemma estimate_of_long_visible_text s n :
  starts_visibly s = true -> (17 <= List.length s)%nat ->
  Clamped.estimateTokens (Str s) = Ok n -> (2 <= n)%Z.
Proof.
  intros Hs Hlen H. destruct (visible_start_is_not_blank _ Hs) as [Hb Hne].
  rewrite estimate_on_integers, Z_length_ltb_20 in H. apply Ok_inj in H. subst n.
  pose proof (punctuation_nonneg s).
  pose proof (words_of_text_with_a_letter s Hb).
  destruct (List.length s <? 20)%nat.
  - unfold Z_length. Z.div_mod_to_equations. lia.
  - Z.div_mod_to_equations. lia.
Qed.

Lemma JSON_stringify_undefined v :
  JSON_stringify v = Undefined <-> v = Undefined.
Proof.
  unfold JSON_stringify. split.
  - destruct v as [| |[|]|z|t|l|ps]; cbn [serialize]; congruence.
  - intros ->. reflexivity.
Qed.

(** X25.  In what the metrics wrapper returns, the estimate of the
    original is zero only for the schema [undefined], which JSON.stringify
    does not serialize, and the estimate of the compressed text is at least
    two tokens. *)
Theorem estimates_of_the_wrapper :
  forall (schema : value) (r : SchemaCompressionResult),
    Clamped.compressSchemaWithMetrics schema = Ok r ->
    (originalTokens r = 0%Z <-> schema = Undefined)
    /\ (2 <= compressedTokens r)%Z.
Proof.
  intros schema r H. unfold Clamped.compressSchemaWithMetrics in H.
  destruct (Clamped.jsonSchemaToXml schema) as [c|] eqn:Ec; cbn [bind] in H;
    [|discriminate].
  destruct (Clamped.estimateTokens (JSON_stringify schema)) as [o|] eqn:Eo;
    cbn [bind] in H; [|discriminate].
  destruct (Clamped.estimateTokens (Str c)) as [k|] eqn:Ek; cbn [bind] in H;
    [|discriminate].
  apply Ok_inj in H. subst r. cbn [originalTokens compressedTokens]. split.
  - rewrite <- JSON_stringify_undefined. unfold JSON_stringify in *.
    destruct (serialize [] schema) as [s|] eqn:Es.
    + pose proof (estimate_of_visible_text _ (serialize_starts_visibly _ _ Es) Eo).
      split; [lia | discriminate].
    + apply Ok_inj in Eo. subst o. split; reflexivity.
  - destruct (Clamped_wrapped _ Ec) as [body ->].
    apply (@estimate_of_long_visible_text
             (lit "<schema>" ++ body ++ lit "</schema>") k);
      [reflexivity | | exact Ek].
    rewrite !length_app. cbn. lia.
Qed.

Lemma estimates_of_the_wrapper_witness :
  Clamped.compressSchemaWithMetrics query_schema = Ok query_result
  /\ (originalTokens query_result = 0%Z <-> query_schema = Undefined)
  /\ (2 <= compressedTokens query_result)%Z.
Proof.
  split; [reflexivity|].
  apply (@estimates_of_the_wrapper query_schema query_result). reflexivity.
Defined.

(** ** Batches *)

Lemma total_Permutation l l' : Permutation l l' -> total l = total l'.
Proof.
  unfold total. induction 1; cbn [fold_right]; lia.
Qed.

Section Reordering.
Variable f : value -> result SchemaCompressionResult.

Lemma mapM_Permutation tools tools' :
  Permutation tools tools' ->
  forall rs, mapM f (List.map inputSchema tools) = Ok rs ->
  exists rs', mapM f (List.map inputSchema tools') = Ok rs'
              /\ Permutation (combine tools rs) (combine tools' rs').
Proof.
  induction 1 as [|t l l' Hp IH|t u l|l l' l'' Hp IH Hp' IH']; intros rs H.
  - exists []. split; [reflexivity | constructor].
  - cbn [List.map mapM] in *.
    destruct (f (inputSchema t)) as [r|]; cbn [bind] in *; [|discriminate].
    destruct (mapM f (List.map inputSchema l)) as [rs0|]; cbn [bind] in *;
      [|discriminate].
    apply Ok_inj in H. subst rs.
    destruct (IH _ eq_refl) as (rs' & -> & Hc). cbn [bind].
    exists (r :: rs'). split; [reflexivity|]. cbn [combine].
    apply perm_skip. exact Hc.
  - cbn [List.map mapM] in *.
    destruct (f (inputSchema u)) as [ru|]; cbn [bind] in *; [|discriminate].
    destruct (f (inputSchema t)) as [rt|]; cbn [bind] in *; [|discriminate].
    destruct (mapM f (List.map inputSchema l)) as [rs0|]; cbn [bind] in *;
      [|discriminate].
    apply Ok_inj in H. subst rs.
    exists (rt :: ru :: rs0). split; [reflexivity|]. cbn [combine].
    apply perm_swap.
  - destruct (IH _ H) as (rs' & H' & Hc).
    destruct (IH' _ H') as (rs'' & H'' & Hc').
    exists rs''. split; [exact H''|]. eapply perm_trans; eassumption.
Qed.
End Reordering.

Lemma results_of_combine (tools : list Tool) (rs : list SchemaCompressionResult) :
  List.length rs = List.length tools ->
  List.map snd (combine tools rs) = rs.
Proof.
  revert rs. induction tools as [|t l IH]; intros [|r rs] H;
    try discriminate; [reflexivity|].
  cbn [combine List.map snd]. f_equal. apply IH. injection H; auto.
Qed.

Lemma results_length (f : value -> result SchemaCompressionResult) tools rs :
  mapM f (List.map inputSchema tools) = Ok rs ->
  List.length rs = List.length tools.
Proof. intros H. rewrite (mapM_length _ _ H). apply length_map. Qed.

Lemma batch_results tools b :
  Clamped.compressToolSchemas tools = Ok b ->
  exists rs,
    mapM Clamped.compressSchemaWithMetrics (List.map inputSchema tools) = Ok rs.
Proof.
  unfold Clamped.compressToolSchemas. rewrite compress_each_spec.
  destruct (mapM _ _) as [rs|]; [eauto | discriminate].
Qed.

(** X26.  The totals of a batch do not depend on the order of the tools:
    a reordered batch compresses as well, to the same token totals and the
    same total reduction, its entries reordered alike. *)
Theorem batch_totals_ignore_the_order :
  forall (tools tools' : list Tool) (b : BatchResult),
    Permutation tools tools' ->
    Clamped.compressToolSchemas tools = Ok b ->
    exists b',
      Clamped.compressToolSchemas tools' = Ok b'
      /\ totalOriginalTokens b' = totalOriginalTokens b
      /\ totalCompressedTokens b' = totalCompressedTokens b
      /\ totalReduction b' = totalReduction b
      /\ Permutation (compressedTools b) (compressedTools b').
Proof.
  intros tools tools' b Hp Hb.
  destruct (@batch_results tools b Hb) as [rs Hrs].
  destruct (@mapM_Permutation Clamped.compressSchemaWithMetrics tools tools'
              Hp rs Hrs) as (rs' & Hrs' & Hc).
  rewrite (@batch_of_results tools rs Hrs) in Hb. apply Ok_inj in Hb. subst b.
  eexists. split; [exact (@batch_of_results tools' rs' Hrs')|].
  cbn [totalOriginalTokens totalCompressedTokens totalReduction
       compressedTools].
  assert (Permutation rs rs') as Hr.
  { rewrite <- (results_of_combine tools rs), <- (results_of_combine tools' rs')
      by (eapply results_length; eassumption).
    apply Permutation_map. exact Hc. }
  rewrite (total_Permutation (Permutation_map originalTokens Hr)).
  rewrite (total_Permutation (Permutation_map compressedTokens Hr)).
  repeat split; try reflexivity.
  unfold entries_of. apply Permutation_map. exact Hc.
Qed.

Lemma batch_totals_ignore_the_order_witness :
  Permutation (search_tool ++ ping_tool) (ping_tool ++ search_tool)
  /\ exists b b',
       Clamped.compressToolSchemas (search_tool ++ ping_tool) = Ok b
       /\ Clamped.compressToolSchemas (ping_tool ++ search_tool) = Ok b'
       /\ totalOriginalTokens b' = totalOriginalTokens b
       /\ totalCompressedTokens b' = totalCompressedTokens b
       /\ totalReduction b' = totalReduction b
       /\ Permutation (compressedTools b) (compressedTools b').
Proof.
  assert (Permutation (search_tool ++ ping_tool) (ping_tool ++ search_tool))
    as Hp by apply perm_swap.
  split; [exact Hp|].
  destruct (Clamped.compressToolSchemas (search_tool ++ ping_tool))
    as [b|] eqn:E; [|vm_compute in E; discriminate E].
  destruct (@batch_totals_ignore_the_order _ _ b Hp E) as (b' & H).
  exists b, b'. split; [reflexivity|]. exact H.
Defined.

(** X27.  Batches add up: when two batches compress, so does their
    concatenation; its entries are those of the first followed by those of
    the second, and its token totals are the sums of theirs. *)
Theorem batches_add_up :
  forall (tools1 tools2 : list Tool) (b1 b2 : BatchResult),
    Clamped.compressToolSchemas tools1 = Ok b1 ->
    Clamped.compressToolSchemas tools2 = Ok b2 ->
    exists b,
      Clamped.compressToolSchemas (tools1 ++ tools2) = Ok b
      /\ compressedTools b = compressedTools b1 ++ compressedTools b2
      /\ totalOriginalTokens b
         = (totalOriginalTokens b1 + totalOriginalTokens b2)%Z
      /\ totalCompressedTokens b
         = (totalCompressedTokens b1 + totalCompressedTokens b2)%Z.
Proof.
  intros tools1 tools2 b1 b2 H1 H2.
  destruct (@batch_results tools1 b1 H1) as [rs1 Hrs1].
  destruct (@batch_results tools2 b2 H2) as [rs2 Hrs2].
  rewrite (@batch_of_results tools1 rs1 Hrs1) in H1. apply Ok_inj in H1. subst b1.
  rewrite (@batch_of_results tools2 rs2 Hrs2) in H2. apply Ok_inj in H2. subst b2.
  assert (mapM Clamped.compressSchemaWithMetrics
            (List.map inputSchema (tools1 ++ tools2)) = Ok (rs1 ++ rs2)) as H.
  { rewrite map_app, mapM_app, Hrs1, Hrs2. reflexivity. }
  eexists. split; [exact (@batch_of_results (tools1 ++ tools2) _ H)|].
  cbn [totalOriginalTokens totalCompressedTokens compressedTools].
  rewrite entries_of_app by (eapply results_length; eassumption).
  rewrite !map_app, !total_app. auto.
Qed.

Lemma batches_add_up_witness :
  exists b1 b2 b,
    Clamped.compressToolSchemas search_tool = Ok b1
    /\ Clamped.compressToolSchemas ping_tool = Ok b2
    /\ Clamped.compressToolSchemas (search_tool ++ ping_tool) = Ok b
    /\ compressedTools b = compressedTools b1 ++ compressedTools b2
    /\ totalOriginalTokens b
       = (totalOriginalTokens b1 + totalOriginalTokens b2)%Z
    /\ totalCompressedTokens b
       = (totalCompressedTokens b1 + totalCompressedTokens b2)%Z.
Proof.
  destruct (Clamped.compressToolSchemas search_tool) as [b1|] eqn:E1;
    [|vm_compute in E1; discriminate E1].
  destruct (Clamped.compressToolSchemas ping_tool) as [b2|] eqn:E2;
    [|vm_compute in E2; discriminate E2].
  destruct (@batches_add_up search_tool ping_tool b1 b2 E1 E2) as (b & H).
  exists b1, b2, b. split; [reflexivity|]. split; [reflexivity|]. exact H.
Defined.

(** ** The first snapshot and a tool without schema *)

(** X28.  In the first snapshot a batch with a tool without [inputSchema]
    raises, wherever the tool stands: the estimator reads the length of
    what [JSON.stringify] returned, which is undefined. *)
Theorem first_snapshot_raises_without_schema :
  forall (tools : list Tool) (t : Tool),
    In t tools -> inputSchema t = Undefined ->
    exists e, Early.compressToolSchemas tools = Fail e.
Proof.
  intros tools t Hin Ht. unfold Early.compressToolSchemas.
  rewrite compress_each_spec.
  destruct (@mapM_fails_at _ _ Early.compressSchemaWithMetrics
              (List.map inputSchema tools) Undefined TypeError) as [e ->].
  - rewrite <- Ht. apply in_map. exact Hin.
  - reflexivity.
  - cbn [bind]. eauto.
Qed.

Lemma first_snapshot_raises_without_schema_witness :
  In {| name := lit "ping"; inputSchema := Undefined |}
     (search_tool ++ ping_tool)
  /\ exists e, Early.compressToolSchemas (search_tool ++ ping_tool) = Fail e.
Proof.
  assert (In {| name := lit "ping"; inputSchema := Undefined |}
             (search_tool ++ ping_tool)) as H by (right; left; reflexivity).
  split; [exact H|].
  exact (@first_snapshot_raises_without_schema _ _ H eq_refl).
Defined.

(** ** The reduction of the first snapshot *)

Lemma ceil_quarter (n : Z) : Math_ceil (inject_Z n / 4) = ((n + 3) / 4)%Z.
Proof.
  unfold Math_ceil, Qceiling, Qfloor, Qdiv, Qmult, Qinv, Qopp, inject_Z.
  cbn -[Z.mul Z.add Z.div Z.opp].
  Z.div_mod_to_equations. lia.
Qed.

Lemma Early_estimate s n :
  Early.estimateTokens (Str s) = Ok n -> n = ((Z_length s + 3) / 4)%Z.
Proof.
  cbn [Early.estimateTokens]. rewrite ceil_quarter. intros H.
  apply Ok_inj in H. auto.
Qed.

(** X29.  The first snapshot does not clamp the reduction.  Both
    estimates are positive, the compressed one at least five tokens, so the
    reduction is always the rounded percentage saved, computed in doubles.
    It is at most 100; it is not negative when the compressed estimate does
    not exceed the original one, not positive when it does, and negative as
    soon as it exceeds the original one by one percent. *)
Theorem first_snapshot_reduction_can_be_negative :
  forall (schema : value) (r : SchemaCompressionResult),
    Early.compressSchemaWithMetrics schema = Ok r ->
    (1 <= originalTokens r)%Z
    /\ (5 <= compressedTokens r)%Z
    /\ reduction r
       = Math_round
           (fmul (fdiv (inject_Z (originalTokens r - compressedTokens r))
                       (inject_Z (originalTokens r))) 100)
    /\ (reduction r <= 100)%Z
    /\ ((compressedTokens r <= originalTokens r)%Z -> (0 <= reduction r)%Z)
    /\ ((originalTokens r < compressedTokens r)%Z -> (reduction r <= 0)%Z)
    /\ ((originalTokens r
         <= 100 * (compressedTokens r - originalTokens r))%Z ->
        (reduction r < 0)%Z).
Proof.
  intros schema r H. unfold Early.compressSchemaWithMetrics in H.
  destruct (Early.jsonSchemaToXml schema) as [c|] eqn:Ec; cbn [bind] in H;
    [|discriminate].
  destruct (Early.estimateTokens (JSON_stringify schema)) as [o|] eqn:Eo;
    cbn [bind] in H; [|discriminate].
  destruct (Early.estimateTokens (Str c)) as [k|] eqn:Ek; cbn [bind] in H;
    [|discriminate].
  apply Ok_inj in H. subst r.
  cbn [originalTokens compressedTokens reduction].
  assert (1 <= o)%Z as Ho.
  { unfold JSON_stringify in Eo.
    destruct (serialize [] schema) as [s|] eqn:Es; [|discriminate Eo].
    pose proof (serialize_starts_visibly _ _ Es) as Hs.
    rewrite (@Early_estimate _ _ Eo).
    destruct s as [|a s']; [discriminate Hs|].
    unfold Z_length. cbn [List.length]. Z.div_mod_to_equations. lia. }
  assert (5 <= k)%Z as Hk.
  { destruct (Early_wrapped _ Ec) as [body ->].
    rewrite (@Early_estimate _ _ Ek). unfold Z_length.
    rewrite !length_app.
    change (List.length (lit "<schema>")) with 8%nat.
    change (List.length (lit "</schema>")) with 9%nat.
    Z.div_mod_to_equations. lia. }
  replace (0 <? o)%Z with true by (symmetry; apply Z.ltb_lt; lia).
  repeat split; try assumption.
  - apply Z.le_trans with (Math_round 100); [|reflexivity].
    apply Math_round_mono, percentage_at_most_100. apply ratio_at_most_1; lia.
  - intros Hle. destruct (Z.eq_dec k o) as [->|Hne].
    + replace (o - o)%Z with 0%Z by lia.
      apply Z.le_trans with (Math_round 0); [reflexivity|].
      apply Math_round_mono, percentage_bounds;
        [|apply Qlt_le_weak; reflexivity].
      unfold Qdiv. rewrite Qmult_0_l. apply Qle_refl.
    + assert (0 <= k)%Z as Hk0 by lia. assert (k < o)%Z as Hlt by lia.
      apply Math_round_bounds; apply (saving_bounds Hk0 Hlt).
  - intros Hlt. apply Z.le_trans with (Math_round 0); [|reflexivity].
    apply Math_round_mono, saving_nonpos; lia.
  - intros Hpc. apply Z.le_lt_trans with (Math_round (fmul (to_double (- (1 # 100))) 100));
      [|reflexivity].
    apply Math_round_mono, percentage_mono, ratio_below_minus_one_percent; lia.
Qed.

(** The null schema: one token of JSON against five of the empty element. *)
Lemma first_snapshot_reduction_can_be_negative_witness :
  Early.compressSchemaWithMetrics Null
  = Ok {| compressed := sentinel; originalTokens := 1; compressedTokens := 5;
          reduction := -400 |}
  /\ (1 <= 100 * (5 - 1))%Z /\ (-400 < 0)%Z.
Proof.
  split; [reflexivity|].
  pose proof (@first_snapshot_reduction_can_be_negative Null _ eq_refl)
    as (_ & _ & _ & _ & _ & _ & H).
  assert (1 <= 100 * (5 - 1))%Z as Hpc by (cbn; lia).
  split; [exact Hpc | exact (H Hpc)].
Defined.
